(** * The adaptive transcription pipeline of [transcriber.py]

    A shallow embedding of [TranscriptionService] (strategy selection,
    compression, chunk planning, retrying API calls, transcript assembly and
    the top-level [transcribe_audio]) together with the properties that the
    specification states about it.

    Modelling conventions.
    - Python [float] values (seconds, megabytes) are exact rationals [Q];
      Python [int] values are [Z].
    - Python [str] values are [string]s whose characters are the code points
      below 256.
    - The outside world (file system, ffmpeg/ffprobe, pydub, the API client,
      the metadata store) is an explicit state [World] plus a record [Env] of
      oracles; code runs in a state-and-exception monad [M].
    - [print] and logging calls have no effect on any result and are left
      out; the wall-clock field [processing_time] is not modelled. *)

From Stdlib Require Import QArith Qround Qminmax Lqa ZArith List String Ascii Lia Bool.
From stdpp Require Import gmap strings pretty sorting.
Import ListNotations.

Local Open Scope Z_scope.
Local Open Scope Q_scope.
Local Open Scope string_scope.

(** ** Numbers *)

(** [a < b] on floats, as a boolean. *)
Definition Qlt_bool (a b : Q) : bool := negb (Qle_bool b a).

(** Python's [int(x)] on a float: truncation towards zero. *)
Definition py_int (x : Q) : Z := Z.quot (Qnum x) (Zpos (Qden x)).

(** ** Strings *)

Module PyStr.

(** [str.lower()] on one code point below 256. *)
Definition lower_char (c : ascii) : ascii :=
  let n := N_of_ascii c in
  if (((65 <=? n) && (n <=? 90))
      || ((192 <=? n) && (n <=? 222) && negb (n =? 215)))%N
  then ascii_of_N (n + 32) else c.

Fixpoint lower (s : string) : string :=
  match s with
  | EmptyString => EmptyString
  | String c t => String (lower_char c) (lower t)
  end.

(** [needle in hay]. *)
Fixpoint contains (needle hay : string) : bool :=
  String.prefix needle hay
  || match hay with
     | EmptyString => false
     | String _ t => contains needle t
     end.

(** [str.isspace()] on one code point below 256. *)
Definition isspace (c : ascii) : bool :=
  let n := N_of_ascii c in
  (((9 <=? n) && (n <=? 13)) || ((28 <=? n) && (n <=? 32))
   || (n =? 133) || (n =? 160))%N.

Fixpoint lstrip (s : string) : string :=
  match s with
  | EmptyString => EmptyString
  | String c t => if isspace c then lstrip t else s
  end.

Fixpoint rstrip (s : string) : string :=
  match s with
  | EmptyString => EmptyString
  | String c t =>
      match rstrip t with
      | EmptyString => if isspace c then EmptyString else String c EmptyString
      | t' => String c t'
      end
  end.

(** [s.strip()]. *)
Definition strip (s : string) : string := rstrip (lstrip s).

(** Truthiness of a string: it is not empty. *)
Definition truthy (s : string) : bool :=
  match s with EmptyString => false | _ => true end.

(** [sep.join(parts)]. *)
Fixpoint join (sep : string) (parts : list string) : string :=
  match parts with
  | [] => EmptyString
  | [p] => p
  | p :: rest => p ++ sep ++ join sep rest
  end.

(** [f"{i:03d}"] for a non-negative [i]. *)
Definition pad3 (i : Z) : string :=
  let d := pretty (Z.to_N i) in
  match String.length d with
  | 0%nat => "000"
  | 1%nat => "00" ++ d
  | 2%nat => "0" ++ d
  | _ => d
  end.

End PyStr.

(** ** Paths ([pathlib.PurePosixPath], on normalised path strings) *)

Module PyPath.

(** Text after the last ["/"]. *)
Fixpoint name (p : string) : string :=
  match p with
  | EmptyString => EmptyString
  | String c t =>
      if PyStr.contains "/" t then name t
      else if Ascii.eqb c "/" then t else p
  end.

(** Position of the last ["."] of [s], counted from the start. *)
Fixpoint rfind_dot (s : string) : option nat :=
  match s with
  | EmptyString => None
  | String c t =>
      match rfind_dot t with
      | Some i => Some (S i)
      | None => if Ascii.eqb c "." then Some 0%nat else None
      end
  end.

(** [Path.suffix]: the last dot-extension of the name, if the dot is
    neither its first nor its last character. *)
Definition suffix (p : string) : string :=
  let n := name p in
  match rfind_dot n with
  | Some i =>
      if ((0 <? i) && (i <? String.length n - 1))%nat
      then String.substring i (String.length n - i) n
      else EmptyString
  | None => EmptyString
  end.

(** [Path.stem]: the name without its suffix. *)
Definition stem (p : string) : string :=
  let n := name p in
  String.substring 0 (String.length n - String.length (suffix p)) n.

(** [dir / file]. *)
Definition join (dir file : string) : string := dir ++ "/" ++ file.

End PyPath.

(** ** Data model *)

(** [TranscriptionSegment]; [confidence] and [tokens] are never set by the
    service and are left out. *)
Record TranscriptionSegment := mkSegment {
  start_time : Q;
  end_time : Q;
  text : string
}.

(** The labels [_optimize_audio_file] returns next to the path. *)
Inductive Optimization := chunking_optimized | compression | chunking_required.

Definition DEFAULT_TRANSCRIPTION_MODEL : string := "gemini-2.5-flash".

Record TranscriptionResult := mkResult {
  success : bool;
  audio_id : option string;
  full_transcript : string;
  segments : list TranscriptionSegment;
  language : option string;
  model_used : string;
  total_chunks : Z;
  failed_chunks : Z;
  file_size_mb : Q;
  optimization_applied : option Optimization;
  error_message : option string
}.

(** [TranscriptionResult(success=False, audio_id=.., full_transcript="",
    segments=[], error_message=..)], every other field at its default. *)
Definition failed_result (aid : option string) (msg : string) : TranscriptionResult :=
  {| success := false; audio_id := aid; full_transcript := "";
     segments := []; language := None;
     model_used := DEFAULT_TRANSCRIPTION_MODEL;
     total_chunks := 1; failed_chunks := 0; file_size_mb := 0;
     optimization_applied := None; error_message := Some msg |}.

(** The constructor arguments of [TranscriptionService.__init__]. *)
Record TranscriptionService := mkService {
  model : string;
  max_retries : Z;
  base_delay : Q;
  max_file_size_mb : Q;
  chunk_duration : Q;
  chunk_overlap : Q;
  temp_dir : string
}.

(** ** The outside world *)

(** An exception is represented by its [str(e)]. *)
Definition exn := string.

(** What pydub's [AudioSegment.from_file] does with a file. *)
Inductive Decoded :=
| DecodeError (e : exn)
| DecodedLen (ms : Z).

(** The content of a file, as far as the service observes it. *)
Record File := mkFile {
  st_size : Z;                   (* bytes, [stat().st_size] *)
  ffprobe_duration : option Q;   (* [Some d]: ffprobe exits with 0 and prints
                                    [d]; [None]: any other outcome *)
  pydub_decode : Decoded;        (* [len(audio)] in milliseconds *)
  label : string                 (* tells contents apart *)
}.

(** The answer of the transcription client. *)
Record Response := mkResponse {
  resp_text : option string;               (* [response.text] *)
  resp_language : option (option string)   (* [response.language], if the
                                              attribute exists *)
}.

Inductive ApiOutcome :=
| ApiRaise (e : exn)
| ApiReturn (r : Response).

(** A run of an external process on a file. *)
Inductive ToolRun :=
| ToolRaises (e : exn)     (* the process could not be run *)
| ToolFails                (* non-zero exit, or no output file *)
| ToolWrites (f : File).   (* exit 0 and this output file *)

(** The collaborators of the service. *)
Record Env := mkEnv {
  which_ffmpeg : bool;
  which_ffprobe : bool;
  (* [ffmpeg -i video -vn ...]: the extracted audio, if it succeeds *)
  ffmpeg_extract_audio : File -> option File;
  (* [ffmpeg -i audio -ac 1 -ar 22050 -ab 64k ...] *)
  ffmpeg_compress : File -> ToolRun;
  (* pydub: load, mono, 22050 Hz, export at 64k; [None] when it raises *)
  pydub_compress : File -> option File;
  (* [ffmpeg -i audio -ss start -t duration ...]; [None] on any failure *)
  ffmpeg_clip : File -> Q -> Q -> option File;
  (* [audio[a:b].export(...)] on a decoded file; [None] when it raises *)
  pydub_export : File -> Z -> Z -> option File;
  (* [client.audio_transcription]: the n-th call of the run, on the path and
     the file found there, with language and prompt *)
  audio_transcription :
    nat -> string -> option File -> option string -> option string -> ApiOutcome;
  (* the metadata store: audio ID to file path *)
  metadata_file_path : string -> option string
}.

Record World := mkWorld {
  fs : gmap string File;   (* the files that exist *)
  api_calls : nat;         (* calls made to the client so far *)
  slept : list Q           (* the arguments of [time.sleep], oldest first *)
}.

(** ** The monad: state, exceptions, and loops that never end *)

Inductive Res (A : Type) :=
| Ok (a : A)
| Raise (e : exn)
| Diverge.
Arguments Ok {A} a.
Arguments Raise {A} e.
Arguments Diverge {A}.

Definition M (A : Type) : Type := World -> Res A * World.

Definition ret {A} (a : A) : M A := fun w => (Ok a, w).
Definition raise {A} (e : exn) : M A := fun w => (Raise e, w).
Definition diverge {A} : M A := fun w => (Diverge, w).

Definition bind {A B} (m : M A) (k : A -> M B) : M B :=
  fun w =>
    match m w with
    | (Ok a, w') => k a w'
    | (Raise e, w') => (Raise e, w')
    | (Diverge, w') => (Diverge, w')
    end.

(** [try: m  except Exception as e: h e]. *)
Definition try_except {A} (m : M A) (h : exn -> M A) : M A :=
  fun w =>
    match m w with
    | (Raise e, w') => h e w'
    | r => r
    end.

Notation "'do' x <- m ; k" := (bind m (fun x => k))
  (at level 10, x name, m at level 100, k at level 200).
Notation "'do' ' p <- m ; k" := (bind m (fun x => match x with p => k end))
  (at level 10, p pattern, m at level 100, k at level 200).
Notation "m ;; k" := (bind m (fun _ => k))
  (at level 100, k at level 200, right associativity).

Definition get_fs : M (gmap string File) := fun w => (Ok (fs w), w).

Definition set_fs (f : gmap string File) : M unit :=
  fun w => (Ok tt, {| fs := f; api_calls := api_calls w; slept := slept w |}).

(** ** File-system operations *)

Definition file_not_found (p : string) : exn :=
  "[Errno 2] No such file or directory: '" ++ p ++ "'".

(** [path.exists()]. *)
Definition exists_ (p : string) : M bool :=
  do f <- get_fs; ret (bool_decide (is_Some (f !! p))).

(** [path.stat()], as much as is read from it. *)
Definition stat (p : string) : M File :=
  do f <- get_fs;
  match f !! p with
  | Some x => ret x
  | None => raise (file_not_found p)
  end.

Definition MB : Q := inject_Z (1024 * 1024).

(** [path.stat().st_size / (1024 * 1024)]. *)
Definition size_mb (p : string) : M Q :=
  do x <- stat p; ret (inject_Z (st_size x) / MB).

(** [path.unlink()]. *)
Definition unlink (p : string) : M unit :=
  do f <- get_fs;
  match f !! p with
  | Some _ => set_fs (delete p f)
  | None => raise (file_not_found p)
  end.

(** [path.unlink(missing_ok=True)]. *)
Definition unlink_missing_ok (p : string) : M unit :=
  do f <- get_fs; set_fs (delete p f).

(** [src.rename(dst)]: [dst] is replaced. *)
Definition rename (src dst : string) : M unit :=
  do f <- get_fs;
  match f !! src with
  | Some x => set_fs (<[dst := x]> (delete src f))
  | None => raise (file_not_found src)
  end.

(** An external tool writes its output file. *)
Definition write_file (p : string) (x : File) : M unit :=
  do f <- get_fs; set_fs (<[p := x]> f).

(** [time.sleep(d)]. *)
Definition sleep (d : Q) : M unit :=
  fun w =>
    if Qlt_bool d 0 then (Raise "sleep length must be non-negative", w)
    else (Ok tt, {| fs := fs w; api_calls := api_calls w;
                    slept := slept w ++ [d] |}).

(** A chunk as the planner hands it on: an ffmpeg chunk is a file that
    exists already, a pydub chunk is a slice of decoded audio. *)
Inductive ChunkAudio :=
| FFmpegChunk (path : string)
| PydubChunk (src : File) (from_ms to_ms : Z).

(** [(chunk_audio, start_time, end_time)]. *)
Definition Chunk : Type := ChunkAudio * Q * Q.

(** ** Strategy selection (the test in the middle of [transcribe_audio]) *)

Inductive Strategy := Direct | Chunked.

(** The conditions that [transcribe_audio] appends to [reasons]. *)
Inductive Reason :=
| SizeExceedsLimit (size_mb limit_mb : Q)
| DurationExceedsSafe (duration safe_limit : Q)
| DurationExceedsAbsolute (duration api_limit : Q).

Record StrategyDecision := mkDecision {
  chosen : Strategy;
  reasons : list Reason;
  announced_chunks : Z   (* the local [chunks_needed], which nothing reads *)
}.

Definition max_duration_seconds : Q := 1400.
Definition safe_duration_limit : Q := 720.

(** ** The per-chunk ceiling of [_transcribe_chunked] *)

Definition max_output_tokens : Q := 2048.
Definition words_per_token : Q := 0.75.
Definition words_per_second : Q := 3.
Definition max_words_per_chunk : Q := max_output_tokens * words_per_token.
Definition max_duration_per_chunk_tokens : Q := max_words_per_chunk / words_per_second.
Definition conservative_limit : Q := max_duration_per_chunk_tokens * 0.60.
Definition api_duration_limit : Q := 1400.
Definition effective_duration_limit : Q := Qmin api_duration_limit conservative_limit.

(** What the caller passes to [transcribe_audio]: a [Path] or a [str]. *)
Inductive AudioInput :=
| InputPath (p : string)
| InputStr (s : string).

Definition video_extensions : list string :=
  [".mov"; ".mp4"; ".avi"; ".mkv"; ".webm"; ".m4v"; ".flv"; ".wmv"].

(** ** The service *)

Section Service.

Context (env : Env) (svc : TranscriptionService).

(** *** Media probe *)

(** The pydub fallback of the probe: [len(AudioSegment.from_file(p)) / 1000.0]. *)
Definition pydub_duration (p : string) : M Q :=
  do x <- stat p;
  match pydub_decode x with
  | DecodedLen ms => ret (inject_Z ms / 1000)
  | DecodeError e => raise e
  end.

(** [_get_audio_duration_efficient]: ffprobe when it is installed and
    answers, pydub in every other case. *)
Definition _get_audio_duration_efficient (p : string) : M Q :=
  if negb (which_ffprobe env) then pydub_duration p
  else
    do f <- get_fs;
    match f !! p with
    | Some x =>
        match ffprobe_duration x with
        | Some d => ret d
        | None => pydub_duration p
        end
    | None => pydub_duration p
    end.

(** *** Transcription executor *)

Definition retry_keywords : list string :=
  ["timeout"; "rate limit"; "5"; "server error"; "connection"].

(** [any(keyword in error_msg for keyword in [...])]. *)
Definition is_retryable (error_msg : string) : bool :=
  existsb (fun keyword => PyStr.contains keyword error_msg) retry_keywords.

(** One call of [self.client.audio_transcription]. *)
Definition client_call (p : string) (lang prompt : option string) : M Response :=
  fun w =>
    let w' := {| fs := fs w; api_calls := S (api_calls w); slept := slept w |} in
    match audio_transcription env (api_calls w) p (fs w !! p) lang prompt with
    | ApiReturn r => (Ok r, w')
    | ApiRaise e => (Raise e, w')
    end.

(** The body of [for attempt in range(self.max_retries + 1)], from
    [attempt] on, with [remaining] iterations left. *)
Fixpoint retry_loop (remaining : nat) (attempt : Z)
         (p : string) (lang prompt : option string) : M (option Response) :=
  match remaining with
  | O => ret None
  | S remaining' =>
      try_except
        (do response <- client_call p lang prompt; ret (Some response))
        (fun e =>
           let error_msg := PyStr.lower e in
           if (attempt <? max_retries svc)%Z && is_retryable error_msg then
             let delay := base_delay svc * inject_Z (2 ^ attempt) in
             sleep delay ;;
             retry_loop remaining' (attempt + 1)%Z p lang prompt
           else raise ("API call failed: " ++ e))
  end.

Definition _make_api_call_with_retry (p : string) (lang prompt : option string)
  : M (option Response) :=
  retry_loop (Z.to_nat (max_retries svc + 1)) 0%Z p lang prompt.

(** [_transcribe_direct] (with [show_progress=True], as every caller has
    it). The result is [None] where the Python function falls off its end:
    a response whose text is empty. *)
Definition _transcribe_direct (p : string) (aid : option string)
           (lang prompt : option string) : M (option TranscriptionResult) :=
  try_except
    (size_mb p ;;
     do response <- _make_api_call_with_retry p lang prompt;
     match response with
     | Some r =>
         let transcript := match resp_text r with Some t => t | None => "" end in
         let detected_language :=
           match resp_language r with Some l => l | None => lang end in
         if PyStr.truthy transcript then
           let segment := {| text := transcript; start_time := 0; end_time := 0 |} in
           do sz <- size_mb p;
           ret (Some {| success := true; audio_id := aid;
                        full_transcript := transcript; segments := [segment];
                        language := detected_language; model_used := model svc;
                        total_chunks := 1; failed_chunks := 0;
                        file_size_mb := sz; optimization_applied := None;
                        error_message := None |})
         else ret None
     | None => ret (Some (failed_result aid "No response from API"))
     end)
    (fun e => ret (Some (failed_result aid ("Direct transcription failed: " ++ e)))).

(** *** Chunk planner *)

Definition chunk_path (i : Z) : string :=
  PyPath.join (temp_dir svc) ("chunk_" ++ PyStr.pad3 i ++ ".mp3").

(** The loop of [_create_intelligent_chunks_pydub_fallback]. *)
Fixpoint pydub_loop (fuel : nat) (audio : File) (len chunk_duration_ms overlap_ms : Z)
         (current_pos_ms : Z) (chunks : list Chunk) : M (list Chunk) :=
  if (current_pos_ms <? len)%Z then
    match fuel with
    | O => diverge
    | S fuel' =>
        let end_pos_ms := Z.min (current_pos_ms + chunk_duration_ms) len in
        let chunk_audio := PydubChunk audio current_pos_ms end_pos_ms in
        let start_time := inject_Z current_pos_ms / 1000 in
        let end_time := inject_Z end_pos_ms / 1000 in
        pydub_loop fuel' audio len chunk_duration_ms overlap_ms
                   (current_pos_ms + (chunk_duration_ms - overlap_ms))%Z
                   (chunks ++ [(chunk_audio, start_time, end_time)])%list
    end
  else ret chunks.

(** Iterations after which the fallback loop has passed [len], when it
    advances at all; with a step of zero or less the loop never ends. *)
Definition pydub_fuel (len step : Z) : nat :=
  if (0 <? step)%Z then S (Z.to_nat (len / step)) else O.

Definition _create_intelligent_chunks_pydub_fallback (p : string) (total_duration : Q)
  : M (list Chunk) :=
  do audio <- stat p;
  match pydub_decode audio with
  | DecodeError e => raise e
  | DecodedLen len =>
      let chunk_duration_ms := py_int (chunk_duration svc * 1000) in
      let overlap_ms := py_int (chunk_overlap svc * 1000) in
      pydub_loop (pydub_fuel len (chunk_duration_ms - overlap_ms)) audio len
                 chunk_duration_ms overlap_ms 0%Z []
  end.

(** [ffmpeg -i p -ss start -t duration ... out]: [true] when the process
    exits with 0 and the chunk file exists. *)
Definition run_ffmpeg_clip (p : string) (start duration : Q) (out : string) : M bool :=
  do f <- get_fs;
  match f !! p with
  | Some x =>
      match ffmpeg_clip env x start duration with
      | Some c => write_file out c ;; ret true
      | None => ret false
      end
  | None => ret false
  end.

(** The [while current_pos < total_duration] loop of
    [_create_intelligent_chunks_ffmpeg]. *)
Fixpoint chunk_loop (fuel : nat) (p : string) (total_duration : Q)
         (chunks_needed : Z) (chunk_duration chunk_overlap : Q)
         (current_pos : Q) (chunk_index : Z) (chunks : list Chunk) : M (list Chunk) :=
  if Qlt_bool current_pos total_duration then
    match fuel with
    | O => diverge
    | S fuel' =>
        let start_time := current_pos in
        let end_time := Qmin (current_pos + chunk_duration) total_duration in
        let actual_duration := end_time - start_time in
        if Qlt_bool actual_duration 1 then ret chunks
        else
          let out := chunk_path chunk_index in
          if which_ffmpeg env then
            do created <- run_ffmpeg_clip p start_time actual_duration out;
            if created : bool then
              let chunks := (chunks ++ [(FFmpegChunk out, start_time, end_time)])%list in
              let chunk_index := (chunk_index + 1)%Z in
              if (chunk_index >=? chunks_needed)%Z then ret chunks
              else
                let current_pos :=
                  if (chunk_index <? chunks_needed - 1)%Z
                  then current_pos + (chunk_duration - chunk_overlap)
                  else start_time + chunk_duration - chunk_overlap in
                chunk_loop fuel' p total_duration chunks_needed chunk_duration
                           chunk_overlap current_pos chunk_index chunks
            else ret chunks
          else _create_intelligent_chunks_pydub_fallback p total_duration
    end
  else ret chunks.

Definition zero_division : exn := "float division by zero".

(** [0.5 if optimal_chunk_duration > 1350 else 0.0]. *)
Definition overlap_for (optimal_chunk_duration : Q) : Q :=
  if Qlt_bool 1350 optimal_chunk_duration then 0.5 else 0.

(** [math.ceil(total_duration / max_duration_per_chunk)]. *)
Definition chunks_needed_for (total_duration max_duration_per_chunk : Q) : Z :=
  Qceiling (total_duration / max_duration_per_chunk).

Definition _create_intelligent_chunks_ffmpeg (p : string) (total_duration : Q)
           (effective_duration_limit : Q) : M (list Chunk) :=
  let max_duration_per_chunk := effective_duration_limit in
  if Qeq_bool max_duration_per_chunk 0 then raise zero_division
  else
    let chunks_needed := chunks_needed_for total_duration max_duration_per_chunk in
    if (chunks_needed =? 0)%Z then raise zero_division
    else
      let optimal_chunk_duration := total_duration / inject_Z chunks_needed in
      let chunk_overlap := overlap_for optimal_chunk_duration in
      let chunk_duration := optimal_chunk_duration in
      chunk_loop (S (Z.to_nat chunks_needed)) p total_duration chunks_needed
                 chunk_duration chunk_overlap 0 0%Z [].

(** *** Transcript assembler *)

(** [sorted(segments, key=lambda s: s.start_time)] is a stable sort: a
    segment goes in front of the first one that does not start before it. *)
Fixpoint insert_by_start (s : TranscriptionSegment) (l : list TranscriptionSegment)
  : list TranscriptionSegment :=
  match l with
  | [] => [s]
  | x :: rest =>
      if Qle_bool (start_time s) (start_time x) then s :: l
      else x :: insert_by_start s rest
  end.

Definition sorted_by_start (l : list TranscriptionSegment) : list TranscriptionSegment :=
  fold_right insert_by_start [] l.

Definition _assemble_transcript_from_segments (segs : list TranscriptionSegment) : string :=
  match segs with
  | [] => ""
  | _ =>
      let sorted_segments := sorted_by_start segs in
      let transcript_parts :=
        map (fun s => PyStr.strip (text s))
            (List.filter (fun s => PyStr.truthy (PyStr.strip (text s))) sorted_segments) in
      PyStr.join " " transcript_parts
  end.

(** *** Chunked transcription *)

(** The body of [for i, (chunk_audio, start_time, end_time) in
    enumerate(chunks)], on the accumulators [segments] and
    [failed_chunks]. *)
Definition process_chunk (lang prompt : option string) (i : Z) (c : Chunk)
           (acc : list TranscriptionSegment * Z)
  : M (list TranscriptionSegment * Z) :=
  let '(chunk_audio, start, stop) := c in
  let '(segs, failed) := acc in
  try_except
    (do out <- match chunk_audio with
               | FFmpegChunk path => ret path
               | PydubChunk src a b =>
                   match pydub_export env src a b with
                   | Some f => write_file (chunk_path i) f ;; ret (chunk_path i)
                   | None => raise "chunk export failed"
                   end
               end;
     do chunk_result <- _transcribe_direct out None lang prompt;
     unlink_missing_ok out ;;
     match chunk_result with
     | None => raise "'NoneType' object has no attribute 'success'"
     | Some r =>
         match success r, segments r with
         | true, seg :: _ =>
             let segment := {| text := text seg; start_time := start;
                               end_time := stop |} in
             unlink_missing_ok out ;;
             ret ((segs ++ [segment])%list, failed)
         | _, _ =>
             unlink_missing_ok out ;;
             ret (segs, (failed + 1)%Z)
         end
     end)
    (fun _ => ret (segs, (failed + 1)%Z)).

Fixpoint process_chunks (lang prompt : option string) (i : Z) (chunks : list Chunk)
         (acc : list TranscriptionSegment * Z)
  : M (list TranscriptionSegment * Z) :=
  match chunks with
  | [] => ret acc
  | c :: rest =>
      do acc' <- process_chunk lang prompt i c acc;
      process_chunks lang prompt (i + 1)%Z rest acc'
  end.

Definition _transcribe_chunked (p : string) (aid : option string)
           (lang prompt : option string) : M TranscriptionResult :=
  try_except
    (do total_duration <- _get_audio_duration_efficient p;
     let chunks_needed := chunks_needed_for total_duration effective_duration_limit in
     do chunks <- _create_intelligent_chunks_ffmpeg p total_duration
                                                    effective_duration_limit;
     (* [optimal_chunk_duration = total_duration / chunks_needed] *)
     if (chunks_needed =? 0)%Z then raise zero_division
     else
       do '(segs, failed) <- process_chunks lang prompt 0%Z chunks ([], 0%Z);
       let full := _assemble_transcript_from_segments segs in
       ret {| success := (0 <? length segs)%nat; audio_id := aid;
              full_transcript := full; segments := segs; language := lang;
              model_used := model svc;
              total_chunks := Z.of_nat (length chunks);
              failed_chunks := failed; file_size_mb := 0;
              optimization_applied := None; error_message := None |})
    (fun e => ret (failed_result aid ("Chunked transcription failed: " ++ e))).

(** *** Media transcoder *)

Definition compressed_path (p : string) : string :=
  PyPath.join (temp_dir svc) ("compressed_" ++ PyPath.name p).

(** The end of both compression paths: the size report (which divides
    by the original size), then [audio_path.unlink()] and
    [temp_compressed_path.rename(audio_path)]. *)
Definition replace_by_compressed (p : string) (original : File) : M (option string) :=
  size_mb (compressed_path p) ;;
  if (st_size original =? 0)%Z then raise zero_division
  else
    unlink p ;;
    rename (compressed_path p) p ;;
    ret (Some p).

Definition _try_compression_pydub_fallback (p : string) : M (option string) :=
  try_except
    (do original <- stat p;
     match pydub_compress env original with
     | Some c =>
         write_file (compressed_path p) c ;;
         replace_by_compressed p original
     | None => raise "pydub compression failed"
     end)
    (fun _ => ret None).

(** [_try_compression]. The duration it reads for the progress display
    changes nothing and is left out. *)
Definition _try_compression (p : string) : M (option string) :=
  try_except
    (do original <- stat p;
     if negb (which_ffmpeg env) then _try_compression_pydub_fallback p
     else
       match ffmpeg_compress env original with
       | ToolRaises e => raise e
       | ToolFails => ret None
       | ToolWrites c =>
           write_file (compressed_path p) c ;;
           replace_by_compressed p original
       end)
    (fun _ => _try_compression_pydub_fallback p).

Definition extracted_path (aid : string) : string :=
  PyPath.join (temp_dir svc) (aid ++ "_extracted.mp3").

Definition _extract_audio_from_video (video_path aid : string) : M (option string) :=
  if negb (which_ffmpeg env) then ret None
  else
    do f <- get_fs;
    match f !! video_path with
    | Some v =>
        match ffmpeg_extract_audio env v with
        | Some a => write_file (extracted_path aid) a ;; ret (Some (extracted_path aid))
        | None => ret None
        end
    | None => ret None
    end.

(** "Strategy 1" of [_optimize_audio_file]: when the file must be chunked
    for its duration anyway and the chunks come out small enough, it is
    not compressed. A probe that raises leaves the answer at "no". *)
Definition chunking_handles_size (p : string) (file_size_mb : Q) : M bool :=
  try_except
    (do duration_seconds <- _get_audio_duration_efficient p;
     if Qlt_bool safe_duration_limit duration_seconds then
       let chunks_needed := Qceiling (duration_seconds / safe_duration_limit) in
       let estimated_chunk_size_mb := file_size_mb / inject_Z chunks_needed in
       ret (Qle_bool estimated_chunk_size_mb (max_file_size_mb svc))
     else ret false)
    (fun _ => ret false).

Definition _optimize_audio_file (p aid : string) (file_size_mb : Q)
  : M (string * option Optimization) :=
  if Qle_bool file_size_mb (max_file_size_mb svc) then ret (p, None)
  else
    do skip <- chunking_handles_size p file_size_mb;
    if skip : bool then ret (p, Some chunking_optimized)
    else
      do compressed <- _try_compression p;
      match compressed with
      | Some cp =>
          do compressed_size_mb <- size_mb cp;
          if Qle_bool compressed_size_mb (max_file_size_mb svc)
          then ret (cp, Some compression)
          else ret (p, Some chunking_required)
      | None => ret (p, Some chunking_required)
      end.

(** *** Orchestrator *)

Definition is_video (p : string) : bool :=
  existsb (String.eqb (PyStr.lower (PyPath.suffix p))) video_extensions.

(** [_resolve_audio_input]. The sizes it prints for a video are read
    from the files, and the reduction it prints divides by the size of
    the video. *)
Definition _resolve_audio_input (input : AudioInput) : M (string * string) :=
  let continue_with (input_path aid : string) : M (string * string) :=
    if is_video input_path then
      do v <- stat input_path;
      do extracted <- _extract_audio_from_video input_path aid;
      match extracted with
      | Some a =>
          stat a ;;
          if (st_size v =? 0)%Z then raise zero_division
          else ret (a, aid)
      | None => ret (input_path, aid)
      end
    else ret (input_path, aid) in
  match input with
  | InputPath p => continue_with p (PyPath.stem p)
  | InputStr s =>
      match metadata_file_path env s with
      | Some file_path => ret (file_path, s)
      | None => continue_with s (PyPath.stem s)
      end
  end.

(** Lines 218 to 241 of [transcribe_audio]. *)
Definition strategy_decision (final_file_size_mb duration_seconds : Q) : StrategyDecision :=
  if Qle_bool final_file_size_mb (max_file_size_mb svc)
     && Qle_bool duration_seconds safe_duration_limit
  then {| chosen := Direct; reasons := []; announced_chunks := 1 |}
  else
    {| chosen := Chunked;
       reasons :=
         ((if Qlt_bool (max_file_size_mb svc) final_file_size_mb
           then [SizeExceedsLimit final_file_size_mb (max_file_size_mb svc)] else [])
          ++ (if Qlt_bool safe_duration_limit duration_seconds
              then [DurationExceedsSafe duration_seconds safe_duration_limit] else [])
          ++ (if Qlt_bool max_duration_seconds duration_seconds
              then [DurationExceedsAbsolute duration_seconds max_duration_seconds]
              else []))%list;
       announced_chunks :=
         if Qlt_bool safe_duration_limit duration_seconds
         then Qceiling (duration_seconds / safe_duration_limit) else 1%Z |}.

(** [_cleanup_temp_file]. *)
Definition _cleanup_temp_file (p : string) : M unit :=
  try_except
    (do ex <- exists_ p; if ex : bool then unlink p else ret tt)
    (fun _ => ret tt).

(** The duration that [transcribe_audio] decides on: the probe, or 0 when
    the probe raises. *)
Definition checked_duration (p : string) : M Q :=
  try_except (_get_audio_duration_efficient p) (fun _ => ret 0).

(** [transcribe_audio] after [_resolve_audio_input] has returned. *)
Definition transcribe_resolved (audio_path aid : string) (lang prompt : option string)
  : M TranscriptionResult :=
  do ex <- exists_ audio_path;
  if negb ex then
    ret (failed_result (Some aid) ("Audio file not found: " ++ audio_path))
  else
    do file_size_mb <- size_mb audio_path;
    do '(optimized_path, optimization) <- _optimize_audio_file audio_path aid file_size_mb;
    do final_file_size_mb <- size_mb optimized_path;
    do duration_seconds <- checked_duration optimized_path;
    do result <-
      match chosen (strategy_decision final_file_size_mb duration_seconds) with
      | Direct => _transcribe_direct optimized_path (Some aid) lang prompt
      | Chunked =>
          do r <- _transcribe_chunked optimized_path (Some aid) lang prompt;
          ret (Some r)
      end;
    match result with
    | None => raise "'NoneType' object has no attribute 'processing_time'"
    | Some r =>
        let r := {| success := success r; audio_id := audio_id r;
                    full_transcript := full_transcript r; segments := segments r;
                    language := language r; model_used := model_used r;
                    total_chunks := total_chunks r; failed_chunks := failed_chunks r;
                    file_size_mb := final_file_size_mb;
                    optimization_applied := optimization;
                    error_message := error_message r |} in
        (if String.eqb optimized_path audio_path then ret tt
         else _cleanup_temp_file optimized_path) ;;
        ret r
    end.

(** [transcribe_audio]. In the handler [audio_id] is ["unknown"] when
    [_resolve_audio_input] itself raised. *)
Definition transcribe_audio (input : AudioInput) (lang prompt : option string)
  : M TranscriptionResult :=
  do resolved <- try_except
                   (do pa <- _resolve_audio_input input; ret (inr pa))
                   (fun e => ret (inl e));
  match resolved with
  | inl e => ret (failed_result (Some "unknown") ("Transcription failed: " ++ e))
  | inr (audio_path, aid) =>
      try_except
        (transcribe_resolved audio_path aid lang prompt)
        (fun e => ret (failed_result (Some aid) ("Transcription failed: " ++ e)))
  end.

End Service.

(** ** Vocabulary of the statements *)

(** *** Worlds *)

(** The world with another file system. *)
Definition with_fs (f : gmap string File) (w : World) : World :=
  {| fs := f; api_calls := api_calls w; slept := slept w |}.

(** The world after one call to the client. *)
Definition called (w : World) : World :=
  {| fs := fs w; api_calls := S (api_calls w); slept := slept w |}.

(** *** Termination and exceptions *)

(** A computation that returns or raises in every world: it is not stuck
    in a loop. *)
Definition halts {A : Type} (m : M A) : Prop :=
  forall w, fst (m w) <> Diverge.

(** A computation that cannot raise. *)
Definition never_raises {A : Type} (m : M A) : Prop :=
  forall w e, fst (m w) <> Raise e.

(** The step of the fallback planner, in milliseconds. *)
Definition fallback_step (svc : TranscriptionService) : Z :=
  (py_int (chunk_duration svc * 1000) - py_int (chunk_overlap svc * 1000))%Z.

(** *** Retries *)

(** The outcome that the [k]-th call of one [_make_api_call_with_retry]
    meets, when [w] is the world at its start. *)
Definition nth_outcome (env : Env) (w : World) (p : string)
           (lang prompt : option string) (k : nat) : ApiOutcome :=
  audio_transcription env (api_calls w + k)%nat p (fs w !! p) lang prompt.

(** [base_delay * 2 ** attempt] for the attempts [first], ..., [first + n - 1]. *)
Definition backoff_delays (svc : TranscriptionService) (first : Z) (n : nat) : list Q :=
  map (fun k => base_delay svc * inject_Z (2 ^ (first + Z.of_nat k))) (seq 0 n).

(** An error description is transient for the service when, in lower
    case, it contains one of the keywords. *)
Definition transient (e : exn) : bool := is_retryable (PyStr.lower e).

(** *** Plans *)

Definition chunk_start (c : Chunk) : Q := snd (fst c).
Definition chunk_end (c : Chunk) : Q := snd c.

(** [end_time - start_time] of a chunk. *)
Definition chunk_length (c : Chunk) : Q := snd c - snd (fst c).

(** Sum of the chunk lengths. *)
Definition total_length (chunks : list Chunk) : Q :=
  fold_right (fun c acc => chunk_length c + acc) 0 chunks.

(** By how much each chunk reaches into the next one. *)
Fixpoint overlaps (chunks : list Chunk) : list Q :=
  match chunks with
  | c1 :: ((c2 :: _) as rest) => (chunk_end c1 - chunk_start c2) :: overlaps rest
  | _ => []
  end.

(** The lengths of the chunks of a plan, as reduced fractions. *)
Definition lengths_of (chunks : list Chunk) : list Q :=
  map (fun c => Qred (chunk_length c)) chunks.

(** The equal chunk length [total / ceil(total / L)]. *)
Definition optimal_chunk_duration (total L : Q) : Q :=
  total / inject_Z (chunks_needed_for total L).

(** The [k]-th chunk of a plan with chunk length [d] and overlap [o]:
    the file [chunk_k.mp3], from [k * (d - o)] to [k * (d - o) + d]. *)
Definition planned_chunk (svc : TranscriptionService) (d o : Q) (k : nat) (c : Chunk) : Prop :=
  fst (fst c) = FFmpegChunk (chunk_path svc (Z.of_nat k))
  /\ snd (fst c) == inject_Z (Z.of_nat k) * (d - o)
  /\ snd c == inject_Z (Z.of_nat k) * (d - o) + d.

(** The first [m] chunks of that plan, in order. *)
Definition planned (svc : TranscriptionService) (d o : Q) (m : nat) (chunks : list Chunk) : Prop :=
  Forall2 (planned_chunk svc d o) (seq 0 m) chunks.

(** No chunk starts before one that comes earlier in the list. *)
Definition starts_sorted (chunks : list Chunk) : Prop :=
  StronglySorted (fun a b => chunk_start a <= chunk_start b) chunks.

(** An ffmpeg chunk lies at one of the chunk paths of the service. *)
Definition chunk_in_temp (svc : TranscriptionService) (c : Chunk) : Prop :=
  match fst (fst c) with
  | FFmpegChunk path => exists i, path = chunk_path svc i
  | PydubChunk _ _ _ => True
  end.

(** *** Units of a chunked run *)

(** One unit on its own: the segment it yields when it succeeds. *)
Definition transcribe_unit (env : Env) (svc : TranscriptionService)
           (lang prompt : option string) (i : Z) (c : Chunk) (w : World)
  : option TranscriptionSegment * World :=
  match process_chunk env svc lang prompt i c ([], 0%Z) w with
  | (Ok ([s], _), w') => (Some s, w')
  | (_, w') => (None, w')
  end.

(** The outcomes of the units of a run, in sequence order, each unit
    starting in the world that the one before it left. *)
Fixpoint unit_outcomes (env : Env) (svc : TranscriptionService)
         (lang prompt : option string) (i : Z) (chunks : list Chunk) (w : World)
  : list (option TranscriptionSegment) * World :=
  match chunks with
  | [] => ([], w)
  | c :: rest =>
      let (o, w1) := transcribe_unit env svc lang prompt i c w in
      let (os, w2) := unit_outcomes env svc lang prompt (i + 1)%Z rest w1 in
      (o :: os, w2)
  end.

(** The segments of the units that succeeded. *)
Fixpoint successes (outcomes : list (option TranscriptionSegment))
  : list TranscriptionSegment :=
  match outcomes with
  | [] => []
  | Some s :: rest => s :: successes rest
  | None :: rest => successes rest
  end.

(** How many units failed. *)
Fixpoint failures (outcomes : list (option TranscriptionSegment)) : Z :=
  match outcomes with
  | [] => 0
  | Some _ :: rest => failures rest
  | None :: rest => 1 + failures rest
  end.

(** The trimmed texts that are not empty, joined by single spaces. *)
Definition joined_texts (segs : list TranscriptionSegment) : string :=
  PyStr.join " "
    (List.filter PyStr.truthy (map (fun s => PyStr.strip (text s)) segs)).

Definition le_start (a b : TranscriptionSegment) : Prop :=
  start_time a <= start_time b.

(** *** Results *)

(** How the success flag and the error message of a result of the
    pipeline go together. *)
Definition consistent (r : TranscriptionResult) : Prop :=
  (success r = true -> error_message r = None)
  /\ (success r = false -> error_message r = None ->
      segments r = [] /\ failed_chunks r = total_chunks r /\ full_transcript r = "").

(** The length of every segment of a result is [len] seconds. *)
Definition all_segments_last (len : Q) (r : TranscriptionResult) : bool :=
  forallb (fun s => Qeq_bool (end_time s - start_time s) len) (segments r).

(** *** Files *)

(** The file system after a compression of [p] into [c] has succeeded: the
    temporary copy was written, the original removed, and the copy moved to
    the place of the original. *)
Definition fs_after_compression (svc : TranscriptionService) (p : string) (c : File)
           (f : gmap string File) : gmap string File :=
  <[p := c]> (delete (compressed_path svc p)
                     (delete p (<[compressed_path svc p := c]> f))).

(** The two worlds hold the same files, except possibly chunk files. *)
Definition same_outside_chunks (svc : TranscriptionService) (w w' : World) : Prop :=
  forall q, (forall i, q <> chunk_path svc i) -> fs w' !! q = fs w !! q.

(** ** Building blocks of the scenarios *)

Module Scenario.

(** The service with the defaults of [__init__]. *)
Definition default_service : TranscriptionService :=
  {| model := DEFAULT_TRANSCRIPTION_MODEL; max_retries := 3; base_delay := 1;
     max_file_size_mb := 25; chunk_duration := 30; chunk_overlap := 0.5;
     temp_dir := "/tmp/transcriber" |}.

(** An audio file of [mb] megabytes that lasts [seconds]. *)
Definition audio (name : string) (mb : Z) (seconds : Z) : File :=
  {| st_size := mb * 1024 * 1024; ffprobe_duration := Some (inject_Z seconds);
     pydub_decode := DecodedLen (seconds * 1000); label := name |}.

(** A file that neither ffprobe nor pydub can read. *)
Definition unreadable (name : string) (mb : Z) : File :=
  {| st_size := mb * 1024 * 1024; ffprobe_duration := None;
     pydub_decode := DecodeError "Decoding failed"; label := name |}.

(** What ffmpeg cuts out of [src]. *)
Definition clip_of (src : File) (start duration : Q) : File :=
  {| st_size := 1024 * 1024; ffprobe_duration := Some duration;
     pydub_decode := DecodedLen (Qfloor (duration * 1000));
     label := "clip of " ++ label src |}.

(** The 64 kbps mono version of [src], a tenth of its size. *)
Definition compressed_of (src : File) : File :=
  {| st_size := st_size src / 10; ffprobe_duration := ffprobe_duration src;
     pydub_decode := pydub_decode src; label := "compressed " ++ label src |}.

Definition answer (t : string) : ApiOutcome :=
  ApiReturn {| resp_text := Some t; resp_language := None |}.

(** Tools installed and working; a client that answers every call. *)
Definition healthy : Env :=
  {| which_ffmpeg := true; which_ffprobe := true;
     ffmpeg_extract_audio := fun v => Some (compressed_of v);
     ffmpeg_compress := fun f => ToolWrites (compressed_of f);
     pydub_compress := fun f => Some (compressed_of f);
     ffmpeg_clip := fun f s d => Some (clip_of f s d);
     pydub_export := fun f a b => Some (clip_of f (inject_Z a / 1000) (inject_Z (b - a) / 1000));
     audio_transcription := fun n _ _ _ _ => answer ("text " ++ pretty n);
     metadata_file_path := fun _ => None |}.

(** The same with another client. *)
Definition with_client
           (client : nat -> string -> option File -> option string -> option string
                     -> ApiOutcome) (e : Env) : Env :=
  {| which_ffmpeg := which_ffmpeg e; which_ffprobe := which_ffprobe e;
     ffmpeg_extract_audio := ffmpeg_extract_audio e;
     ffmpeg_compress := ffmpeg_compress e; pydub_compress := pydub_compress e;
     ffmpeg_clip := ffmpeg_clip e; pydub_export := pydub_export e;
     audio_transcription := client;
     metadata_file_path := metadata_file_path e |}.

(** The same without ffmpeg. *)
Definition without_ffmpeg (e : Env) : Env :=
  {| which_ffmpeg := false; which_ffprobe := which_ffprobe e;
     ffmpeg_extract_audio := ffmpeg_extract_audio e;
     ffmpeg_compress := ffmpeg_compress e; pydub_compress := pydub_compress e;
     ffmpeg_clip := ffmpeg_clip e; pydub_export := pydub_export e;
     audio_transcription := audio_transcription e;
     metadata_file_path := metadata_file_path e |}.

(** A world with one file. *)
Definition world_with (p : string) (f : File) : World :=
  {| fs := {[ p := f ]}; api_calls := 0; slept := [] |}.

(** A client that is rate limited twice and then answers. *)
Definition rate_limited_twice : Env :=
  with_client
    (fun n _ _ _ _ =>
       match n with
       | 0%nat => ApiRaise "Rate limit exceeded"
       | 1%nat => ApiRaise "Connection reset by peer"
       | _ => answer "hello"
       end) healthy.

End Scenario.

(** ** The runs that the statements refer to *)

(** The 40-minute, 15 MB file of the specification's scenario, run through
    the whole pipeline with working tools. *)
Definition forty_minute_run : Res TranscriptionResult * World :=
  transcribe_audio Scenario.healthy Scenario.default_service
                   (InputStr "talk.mp3") None None
                   (Scenario.world_with "talk.mp3" (Scenario.audio "talk" 15 2400)).

(** The plan for the same file on a machine without ffmpeg. *)
Definition plan_without_ffmpeg : Res (list Chunk) :=
  fst (_create_intelligent_chunks_ffmpeg
         (Scenario.without_ffmpeg Scenario.healthy) Scenario.default_service
         "talk.mp3" 2400 effective_duration_limit
         (Scenario.world_with "talk.mp3" (Scenario.audio "talk" 15 2400))).

(** The plan for a file of 320 seconds on a machine without ffmpeg. *)
Definition short_plan_without_ffmpeg : Res (list Chunk) :=
  fst (_create_intelligent_chunks_ffmpeg
         (Scenario.without_ffmpeg Scenario.healthy) Scenario.default_service
         "clip.mp3" 320 effective_duration_limit
         (Scenario.world_with "clip.mp3" (Scenario.audio "clip" 30 320))).

(** A ten-megabyte lecture that no tool can measure, and the run on it. *)
Definition unmeasurable_world : World :=
  Scenario.world_with "lecture.mp3" (Scenario.unreadable "lecture" 10).

Definition unmeasurable_run : Res TranscriptionResult * World :=
  transcribe_audio Scenario.healthy Scenario.default_service
                   (InputStr "lecture.mp3") None None unmeasurable_world.

(** A 15-minute, 15 MB file: three units of five minutes. *)
Definition quarter_hour_world : World :=
  Scenario.world_with "talk.mp3" (Scenario.audio "talk" 15 900).

(** A client that rejects the second call for good and answers the others. *)
Definition second_unit_rejected : Env :=
  Scenario.with_client
    (fun n _ _ _ _ =>
       match n with
       | 1%nat => ApiRaise "Invalid request"
       | _ => Scenario.answer (" unit " ++ pretty n ++ " ")
       end) Scenario.healthy.

(** The plan for the 15-minute file, and the run on it with that client. *)
Definition quarter_hour_chunks : list Chunk :=
  match fst (_create_intelligent_chunks_ffmpeg
               second_unit_rejected Scenario.default_service "talk.mp3" 900
               effective_duration_limit quarter_hour_world) with
  | Ok chunks => chunks
  | _ => []
  end.

Definition second_unit_rejected_run : Res TranscriptionResult * World :=
  transcribe_audio second_unit_rejected Scenario.default_service
                   (InputStr "talk.mp3") None None quarter_hour_world.

(** A client that rejects every call, and the run on the 15-minute file
    with it. *)
Definition every_unit_rejected : Env :=
  Scenario.with_client (fun _ _ _ _ _ => ApiRaise "Invalid request") Scenario.healthy.

Definition every_unit_rejected_run : Res TranscriptionResult * World :=
  transcribe_audio every_unit_rejected Scenario.default_service
                   (InputStr "talk.mp3") None None quarter_hour_world.

Definition every_unit_rejected_result : TranscriptionResult :=
  match fst every_unit_rejected_run with
  | Ok r => r
  | _ => failed_result None ""
  end.

(** A service whose fallback chunks do not advance: the overlap is as long
    as the chunk. *)
Definition stuck_service : TranscriptionService :=
  {| model := DEFAULT_TRANSCRIPTION_MODEL; max_retries := 3; base_delay := 1;
     max_file_size_mb := 25; chunk_duration := 0.5; chunk_overlap := 0.5;
     temp_dir := "/tmp/transcriber" |}.

(** A 300 MB video of five minutes, and the run on it. *)
Definition video_world : World :=
  Scenario.world_with "talk.mp4" (Scenario.audio "talk video" 300 300).

Definition video_run : Res TranscriptionResult * World :=
  transcribe_audio Scenario.healthy Scenario.default_service
                   (InputPath "talk.mp4") None None video_world.

(** A 100 MB recording of five minutes. *)
Definition big_audio_world : World :=
  Scenario.world_with "talk.mp3" (Scenario.audio "talk" 100 300).

(** A five-minute, 15 MB talk. *)
Definition short_talk_world : World :=
  Scenario.world_with "talk.mp3" (Scenario.audio "talk" 15 300).

(** A client that answers every call with an empty text. *)
Definition silent_client : Env :=
  Scenario.with_client (fun _ _ _ _ _ => Scenario.answer "") Scenario.healthy.

(** A service that is told not to try at all. *)
Definition impatient_service : TranscriptionService :=
  {| model := DEFAULT_TRANSCRIPTION_MODEL; max_retries := -1; base_delay := 1;
     max_file_size_mb := 25; chunk_duration := 30; chunk_overlap := 0.5;
     temp_dir := "/tmp/transcriber" |}.

(** A 30 MB file in which the probe finds no audio at all. *)
Definition empty_track_world : World :=
  Scenario.world_with "empty.mp3" (Scenario.audio "empty" 30 0).

(** Tools installed, but ffmpeg cuts nothing. *)
Definition blunt_ffmpeg : Env :=
  {| which_ffmpeg := true; which_ffprobe := true;
     ffmpeg_extract_audio := ffmpeg_extract_audio Scenario.healthy;
     ffmpeg_compress := ffmpeg_compress Scenario.healthy;
     pydub_compress := pydub_compress Scenario.healthy;
     ffmpeg_clip := fun _ _ _ => None;
     pydub_export := pydub_export Scenario.healthy;
     audio_transcription := audio_transcription Scenario.healthy;
     metadata_file_path := metadata_file_path Scenario.healthy |}.

(** The report of [transcribe_audio] on a path without a file. *)
Definition missing_input_report (p : string) : TranscriptionResult :=
  if is_video p
  then failed_result (Some "unknown") ("Transcription failed: " ++ file_not_found p)
  else failed_result (Some (PyPath.stem p)) ("Audio file not found: " ++ p).

(** No two segments of the list start at the same time. *)
Definition distinct_starts (segs : list TranscriptionSegment) : Prop :=
  ForallOrdPairs (fun a b => ~ start_time a == start_time b) segs.

(** The [k]-th chunk that the fallback planner cuts from the decoded
    [audio] of [len] milliseconds: it starts at [k * step] and lasts [cd],
    or up to the end of the audio. *)
Definition fallback_chunk (audio : File) (len cd step : Z) (k : nat) : Chunk :=
  let pos := (Z.of_nat k * step)%Z in
  let stop := Z.min (pos + cd) len in
  (PydubChunk audio pos stop, inject_Z pos / 1000, inject_Z stop / 1000).

(** [ceil(len / step)], the number of positions [0, step, 2 * step, ...]
    below [len]. *)
Definition fallback_count (len step : Z) : nat :=
  Z.to_nat ((len + step - 1) / step).

(** The time spent in a list of sleeps. *)
Definition total_delay (delays : list Q) : Q := fold_right Qplus 0 delays.

(** The files in which the ffmpeg chunks of a plan lie. *)
Definition chunk_files (chunks : list Chunk) : list string :=
  flat_map (fun c => match fst (fst c) with
                     | FFmpegChunk q => [q]
                     | PydubChunk _ _ _ => []
                     end) chunks.

(** Every file of [w'] was there in [w] with the same content, unless it
    lies at one of [paths]. *)
Definition no_new_files_but (paths : list string) (w w' : World) : Prop :=
  forall q, fs w' !! q = None \/ fs w' !! q = fs w !! q \/ In q paths.

(** The chunked run on the 15-minute file whose second unit is rejected. *)
Definition second_unit_rejected_chunked_run : Res TranscriptionResult * World :=
  _transcribe_chunked second_unit_rejected Scenario.default_service "talk.mp3"
                      (Some "talk") None None quarter_hour_world.

(** The result of a run, when there is one. *)
Definition result_of (run : Res TranscriptionResult * World) : TranscriptionResult :=
  match fst run with
  | Ok r => r
  | _ => failed_result None ""
  end.

(** A computation that makes at most [n] calls to the client, whatever
    its outcome. *)
Definition calls_at_most {A : Type} (n : nat) (m : M A) : Prop :=
  forall w, (api_calls w <= api_calls (snd (m w)) <= api_calls w + n)%nat.

(** A computation that makes no call to the client. *)
Definition quiet {A : Type} (m : M A) : Prop := calls_at_most 0 m.

(** The calls that one [_make_api_call_with_retry] can make at most. *)
Definition calls_per_unit (svc : TranscriptionService) : nat :=
  Z.to_nat (max_retries svc + 1).

(** ** The audio library of [audio_metadata.py]

    [_resolve_audio_input] asks an [AudioMetadataManager] whether its
    input is a registered audio ID. The manager keeps a dict from audio IDs
    to [AudioMetadata] records and mirrors it in a JSON file. *)

Module Metadata.

Record AudioMetadata := mkAudioMetadata {
  audio_id : string;
  title : string;
  original_url : string;
  uploader : string;
  duration : string;
  upload_date : option string;
  view_count : option Z;
  file_path : string;
  file_size : Z;
  download_date : string;
  audio_format : string;
  audio_quality : string
}.

(** A Python [dict] with [str] keys: the entries in insertion order. *)
Definition Dict : Type := list (string * AudioMetadata).

(** [d.get(k)]. *)
Fixpoint dict_get (d : Dict) (k : string) : option AudioMetadata :=
  match d with
  | [] => None
  | (k', v) :: rest => if String.eqb k' k then Some v else dict_get rest k
  end.

(** [k in d]. *)
Definition dict_has (d : Dict) (k : string) : bool :=
  match dict_get d k with Some _ => true | None => false end.

(** [d[k] = v]: a key that is there keeps its place, a new key goes to
    the end. *)
Fixpoint dict_set (d : Dict) (k : string) (v : AudioMetadata) : Dict :=
  match d with
  | [] => [(k, v)]
  | (k', v') :: rest =>
      if String.eqb k' k then (k, v) :: rest else (k', v') :: dict_set rest k v
  end.

(** [del d[k]], for a key that is there. *)
Definition dict_del (d : Dict) (k : string) : Dict :=
  List.filter (fun kv => negb (String.eqb (fst kv) k)) d.

(** What reading the metadata file gives. *)
Inductive JsonFile :=
| Absent                  (* the file does not exist *)
| Garbled                 (* reading it raises JSONDecodeError, KeyError or
                             TypeError: no JSON, or no object of records *)
| Unreadable (e : exn)    (* reading it raises another exception *)
| Holds (d : Dict).       (* a JSON object with these records *)

Record Disk := mkDisk {
  json : JsonFile;             (* the metadata file *)
  present : string -> bool;    (* [Path(p).exists()] *)
  writable : bool              (* whether the metadata file can be written *)
}.

(** [save_metadata]: a failure to write is printed and otherwise ignored. *)
Definition save_metadata (m : Dict) (disk : Disk) : Disk :=
  if writable disk
  then {| json := Holds m; present := present disk; writable := writable disk |}
  else disk.

(** The IDs whose audio file is gone, in the order of the dict. *)
Definition orphaned_entries (m : Dict) (disk : Disk) : list string :=
  map fst (List.filter (fun kv => negb (present disk (file_path (snd kv)))) m).

(** [_cleanup_orphaned_metadata]. *)
Definition _cleanup_orphaned_metadata (m : Dict) (disk : Disk) : Dict * Disk :=
  match m with
  | [] => (m, disk)
  | _ =>
      match orphaned_entries m disk with
      | [] => (m, disk)
      | orphaned =>
          let m' := fold_left dict_del orphaned m in
          (m', save_metadata m' disk)
      end
  end.

(** [cleanup_orphaned_metadata]: the number of entries removed. *)
Definition cleanup_orphaned_metadata (m : Dict) (disk : Disk) : Z * Dict * Disk :=
  let initial_count := Z.of_nat (length m) in
  let (m', disk') := _cleanup_orphaned_metadata m disk in
  ((initial_count - Z.of_nat (length m'))%Z, m', disk').

(** [load_metadata], on a manager that starts with an empty dict. *)
Definition load_metadata (disk : Disk) : exn + Dict * Disk :=
  match json disk with
  | Absent => inr ([], disk)
  | Garbled => inr ([], disk)
  | Unreadable e => inl e
  | Holds d => inr (_cleanup_orphaned_metadata d disk)
  end.

(** [create_metadata_manager(metadata_file)], that is [__init__]. *)
Definition create_metadata_manager (disk : Disk) : exn + Dict * Disk :=
  load_metadata disk.

Fixpoint remove_dashes (s : string) : string :=
  match s with
  | EmptyString => EmptyString
  | String c t =>
      if Ascii.eqb c "-" then remove_dashes t else String c (remove_dashes t)
  end.

(** [generate_audio_id], with the [str(uuid.uuid4())] that was drawn. *)
Definition generate_audio_id (uuid4 : string) (prefix : string) : string :=
  prefix ++ "_" ++ String.substring 0 8 (remove_dashes uuid4).

(** [create_safe_filename]. *)
Definition create_safe_filename (audio_id extension : string) : string :=
  audio_id ++ "." ++ extension.

(** [add_metadata], with the UUID that would be drawn and the
    [datetime.now().isoformat()] of the call. *)
Definition add_metadata (uuid4 now : string)
           (title original_url uploader duration file_path : string) (file_size : Z)
           (audio_format audio_quality : string)
           (upload_date : option string) (view_count : option Z)
           (audio_id : option string)
           (m : Dict) (disk : Disk) : string * Dict * Disk :=
  let audio_id :=
    match audio_id with
    | Some i => i
    | None => generate_audio_id uuid4 "audio"
    end in
  let metadata :=
    {| audio_id := audio_id; title := title; original_url := original_url;
       uploader := uploader; duration := duration; upload_date := upload_date;
       view_count := view_count; file_path := file_path; file_size := file_size;
       download_date := now; audio_format := audio_format;
       audio_quality := audio_quality |} in
  let m' := dict_set m audio_id metadata in
  (audio_id, m', save_metadata m' disk).

(** [get_metadata]. *)
Definition get_metadata (m : Dict) (audio_id : string) : option AudioMetadata :=
  dict_get m audio_id.

(** [list_all]. *)
Definition list_all (m : Dict) : list AudioMetadata := map snd m.

(** [search_by_title]. *)
Definition search_by_title (m : Dict) (query : string) : list AudioMetadata :=
  let query_lower := PyStr.lower query in
  List.filter (fun metadata => PyStr.contains query_lower (PyStr.lower (title metadata)))
              (map snd m).

(** [search_by_uploader]. *)
Definition search_by_uploader (m : Dict) (uploader_ : string) : list AudioMetadata :=
  let uploader_lower := PyStr.lower uploader_ in
  List.filter (fun metadata => PyStr.contains uploader_lower
                                              (PyStr.lower (uploader metadata)))
              (map snd m).

(** [remove_metadata]. *)
Definition remove_metadata (audio_id : string) (m : Dict) (disk : Disk)
  : bool * Dict * Disk :=
  if dict_has m audio_id
  then let m' := dict_del m audio_id in (true, m', save_metadata m' disk)
  else (false, m, disk).

(** No ID occurs twice: what holds of every Python dict. *)
Definition unique_ids (m : Dict) : Prop := NoDup (map fst m).

(** The entries whose audio file exists. *)
Definition with_audio (disk : Disk) (m : Dict) : Dict :=
  List.filter (fun kv => present disk (file_path (snd kv))) m.

(** What [_resolve_audio_input] learns about a string from the library:
    the file path of the entry, if the manager can be created and has one. *)
Definition registered_path (disk : Disk) (s : string) : option string :=
  match create_metadata_manager disk with
  | inr (m, _) => option_map file_path (get_metadata m s)
  | inl _ => None
  end.

End Metadata.

(** *** A small library *)

(** A downloaded talk. *)
Definition talk_record (id path : string) : Metadata.AudioMetadata :=
  {| Metadata.audio_id := id; Metadata.title := "A talk";
     Metadata.original_url := "https://example.org/watch?v=" ++ id;
     Metadata.uploader := "Speaker"; Metadata.duration := "15:00";
     Metadata.upload_date := None; Metadata.view_count := None;
     Metadata.file_path := path; Metadata.file_size := 15728640;
     Metadata.download_date := "2025-01-01T12:00:00";
     Metadata.audio_format := "mp3"; Metadata.audio_quality := "best" |}.

(** Three entries; the audio file of the second one has been deleted. *)
Definition three_talks : Metadata.Dict :=
  [ ("audio_1", talk_record "audio_1" "downloads/audio_1.mp3");
    ("audio_2", talk_record "audio_2" "downloads/audio_2.mp3");
    ("audio_3", talk_record "audio_3" "downloads/audio_3.mp3") ].

Definition library_world : World :=
  {| fs := {[ "downloads/audio_1.mp3" := Scenario.audio "talk 1" 15 900;
              "downloads/audio_3.mp3" := Scenario.audio "talk 3" 15 900 ]};
     api_calls := 0; slept := [] |}.

Definition library_disk : Metadata.Disk :=
  {| Metadata.json := Metadata.Holds three_talks;
     Metadata.present := fun p => bool_decide (is_Some (fs library_world !! p));
     Metadata.writable := true |}.

(** The tools of [Scenario.healthy], with that library behind
    [_resolve_audio_input]. *)
Definition library_env : Env :=
  {| which_ffmpeg := true; which_ffprobe := true;
     ffmpeg_extract_audio := ffmpeg_extract_audio Scenario.healthy;
     ffmpeg_compress := ffmpeg_compress Scenario.healthy;
     pydub_compress := pydub_compress Scenario.healthy;
     ffmpeg_clip := ffmpeg_clip Scenario.healthy;
     pydub_export := pydub_export Scenario.healthy;
     audio_transcription := audio_transcription Scenario.healthy;
     metadata_file_path := Metadata.registered_path library_disk |}.

(** ** The client of [api_client.py] and the creation of the service *)

(** What the process finds around it: environment variables, the
    libraries that could be imported, and the temporary directory. *)
Record Host := mkHost {
  getenv : string -> option string;   (* [os.getenv] *)
  openai_available : bool;            (* [OPENAI_AVAILABLE] *)
  pydub_available : bool;             (* [PYDUB_AVAILABLE] *)
  genai_available : bool;             (* [from google import genai] succeeds *)
  mkdtemp : string;                   (* what [tempfile.mkdtemp()] returns *)
  mkdir : string -> option exn        (* [mkdir(parents=True, exist_ok=True)]:
                                         the exception, if it raises *)
}.

(** The services behind the client. *)
Record Backends := mkBackends {
  (* Gemini: upload of the file and [generate_content] with this API key,
     model, instruction text and temperature; [response.text], or the
     exception *)
  gemini_generate : string -> string -> string -> option File -> Q -> exn + option string;
  (* OpenAI: [open(file_path, "rb")] and [audio.transcriptions.create] with
     this API key, model, language and prompt *)
  openai_create : string -> string -> string -> option File -> option string
                  -> option string -> ApiOutcome
}.

Module ApiClient.

Definition DEFAULT_PROVIDER : string := "gemini".

Definition VALID_TRANSCRIPTION_MODELS : list string :=
  ["gemini-2.5-flash"; "gpt-4o-transcribe"; "gpt-4o-mini-transcribe"].

(** The keys of [APIConfig.PROVIDERS]. *)
Definition PROVIDERS : list string := ["openai"; "gemini"; "openrouter"].

(** [UnifiedAPIClient], as far as transcription reads it. *)
Record UnifiedAPIClient := mkClient {
  provider : string;
  model : string;
  api_key : string
}.

(** [a or b], for an optional string [a]. *)
Definition or_else (a : option string) (b : string) : string :=
  match a with
  | Some s => if PyStr.truthy s then s else b
  | None => b
  end.

(** An optional string that is neither [None] nor empty. *)
Definition truthy_opt (a : option string) : option string :=
  match a with
  | Some s => if PyStr.truthy s then Some s else None
  | None => None
  end.

(** [str.upper()] on one ASCII code point. *)
Definition upper_char (c : ascii) : ascii :=
  let n := N_of_ascii c in
  if ((97 <=? n) && (n <=? 122))%N then ascii_of_N (n - 32) else c.

(** [str.upper()] on the provider names, which are ASCII. *)
Fixpoint upper (s : string) : string :=
  match s with
  | EmptyString => EmptyString
  | String c t => String (upper_char c) (upper t)
  end.

(** [UnifiedAPIClient.__init__], that is [create_api_client]. *)
Definition create_api_client (host : Host) (provider model api_key : option string)
  : exn + UnifiedAPIClient :=
  let provider := or_else provider DEFAULT_PROVIDER in
  let model := or_else model DEFAULT_TRANSCRIPTION_MODEL in
  if negb (existsb (String.eqb provider) PROVIDERS)
  then inl ("Unsupported provider: " ++ provider)
  else
    let api_key :=
      match truthy_opt api_key with
      | Some k => Some k
      | None =>
          if String.eqb provider "openai" then getenv host "OPENAI_API_KEY"
          else if String.eqb provider "openrouter" then getenv host "OPENROUTER_API_KEY"
          else if String.eqb provider "gemini" then getenv host "GEMINI_API_KEY"
          else None
      end in
    match truthy_opt api_key with
    | None =>
        inl ("API key required for " ++ provider ++ ". Set " ++ upper provider
             ++ "_API_KEY environment variable")
    | Some k => inr {| provider := provider; model := model; api_key := k |}
    end.

Definition nl : string := String (ascii_of_nat 10) EmptyString.

Definition base_prompt : string :=
  PyStr.join nl
    [ "Generate an accurate, word-for-word transcript of the speech. Follow these strict formatting rules:";
      "- Include ALL spoken words exactly as heard";
      "- Write text as CONTINUOUS paragraphs without line breaks";
      "- Use proper punctuation and capitalization";
      "- Put all dialogue and quoted speech in quotation marks";
      "- Do NOT add extra commentary, descriptions, or stage directions";
      "- Keep consistent formatting throughout all chunks";
      "- Preserve natural speech patterns and flow";
      "- Use periods, commas, and other punctuation naturally within continuous text" ].

(** The instruction text that [_gemini_audio_transcription] builds. *)
Definition transcription_prompt (language prompt : option string) : string :=
  (match truthy_opt prompt with
   | Some p => p ++ nl ++ nl ++ base_prompt
   | None => base_prompt
   end)
  ++ (match truthy_opt language with
      | Some l => nl ++ nl ++ "The audio language is " ++ l ++ "."
      | None => ""
      end).

(** [_gemini_audio_transcription]: the answer has a [text] and no
    [language]. *)
Definition _gemini_audio_transcription (host : Host) (backends : Backends)
           (file_path : string) (file : option File)
           (model language prompt : option string) (temperature : Q) : ApiOutcome :=
  if negb (genai_available host)
  then ApiRaise "google-genai package required for Gemini. Install with: pip install google-genai"
  else
    let model_to_use := or_else model DEFAULT_TRANSCRIPTION_MODEL in
    match truthy_opt (getenv host "GEMINI_API_KEY") with
    | None => ApiRaise "GEMINI_API_KEY environment variable required"
    | Some key =>
        match gemini_generate backends key model_to_use
                              (transcription_prompt language prompt) file
                              (Qmin temperature 0.3) with
        | inl e => ApiRaise ("Gemini audio transcription failed: " ++ e)
        | inr t => ApiReturn {| resp_text := t; resp_language := None |}
        end
    end.

(** [UnifiedAPIClient.audio_transcription]. *)
Definition audio_transcription (host : Host) (backends : Backends)
           (client : UnifiedAPIClient) (file_path : string) (file : option File)
           (model language prompt : option string) (temperature : Q) : ApiOutcome :=
  if String.eqb (provider client) "gemini"
  then _gemini_audio_transcription host backends file_path file model language prompt
                                   temperature
  else if negb (String.eqb (provider client) "openai")
  then
    match truthy_opt (getenv host "OPENAI_API_KEY") with
    | None =>
        ApiRaise "OpenAI API key required for transcription. Set OPENAI_API_KEY environment variable"
    | Some openai_key =>
        openai_create backends openai_key (or_else model "gpt-4o-transcribe") file_path
                      file (truthy_opt language) (truthy_opt prompt)
    end
  else
    openai_create backends (api_key client) (or_else model DEFAULT_TRANSCRIPTION_MODEL)
                  file_path file (truthy_opt language) (truthy_opt prompt).

End ApiClient.

(** [TranscriptionService.__init__], that is [create_transcription_service]:
    the service and its client. *)
Definition create_transcription_service (host : Host) (api_key : option string)
           (model : string) (max_retries : Z)
           (base_delay max_file_size_mb chunk_duration chunk_overlap : Q)
           (temp_dir : option string)
  : exn + TranscriptionService * ApiClient.UnifiedAPIClient :=
  if negb (openai_available host)
  then inl "OpenAI library not available. Install with: pip install openai>=1.54.0"
  else if negb (pydub_available host)
  then inl "Pydub library not available. Install with: pip install pydub>=0.25.0"
  else if negb (existsb (String.eqb model) ApiClient.VALID_TRANSCRIPTION_MODELS)
  then inl ("Invalid model: " ++ model)
  else
    let temp_dir := match temp_dir with
                    | Some d => d
                    | None => mkdtemp host
                    end in
    match mkdir host temp_dir with
    | Some e => inl e
    | None =>
        match ApiClient.create_api_client host None (Some model) None with
        | inl e => inl e
        | inr client =>
            inr ({| model := model; max_retries := max_retries;
                    base_delay := base_delay; max_file_size_mb := max_file_size_mb;
                    chunk_duration := chunk_duration; chunk_overlap := chunk_overlap;
                    temp_dir := temp_dir |}, client)
        end
    end.

(** The client of a service as the collaborator that the executor calls:
    [self.client.audio_transcription(file_path=..., model=self.model,
    language=..., prompt=..., response_format="json", temperature=0.0)]. *)
Definition service_client (host : Host) (backends : nat -> Backends)
           (svc : TranscriptionService) (client : ApiClient.UnifiedAPIClient)
  : nat -> string -> option File -> option string -> option string -> ApiOutcome :=
  fun n file_path file language prompt =>
    ApiClient.audio_transcription host (backends n) client file_path file
                                  (Some (model svc)) language prompt 0.

(** *** A service with its Gemini client *)

(** A machine with every library and a Gemini key, and no other key. *)
Definition gemini_host : Host :=
  {| getenv := fun name => if String.eqb name "GEMINI_API_KEY" then Some "g-key" else None;
     openai_available := true; pydub_available := true; genai_available := true;
     mkdtemp := "/tmp/tmpa1b2c3"; mkdir := fun _ => None |}.

(** Gemini answers every request with the same sentence. *)
Definition gemini_backends (n : nat) : Backends :=
  {| gemini_generate := fun _ _ _ _ _ => inr (Some "Bom dia a todos.");
     openai_create := fun _ _ _ _ _ _ => ApiRaise "Connection error." |}.

Definition gemini_client : ApiClient.UnifiedAPIClient :=
  {| ApiClient.provider := "gemini"; ApiClient.model := DEFAULT_TRANSCRIPTION_MODEL;
     ApiClient.api_key := "g-key" |}.

Definition gemini_env : Env :=
  Scenario.with_client
    (service_client gemini_host gemini_backends Scenario.default_service gemini_client)
    Scenario.healthy.

(** The direct run on the five-minute talk, with Portuguese announced. *)
Definition gemini_direct_run : Res (option TranscriptionResult) * World :=
  _transcribe_direct gemini_env Scenario.default_service "talk.mp3" (Some "talk")
                     (Some "pt") None short_talk_world.

(** The result of a direct run, when there is one. *)
Definition direct_result_of (run : Res (option TranscriptionResult) * World)
  : TranscriptionResult :=
  match fst run with
  | Ok (Some r) => r
  | _ => failed_result None ""
  end.

(** A 40-minute recording of 40 MB. *)
Definition long_big_world : World :=
  Scenario.world_with "talk.mp3" (Scenario.audio "talk" 40 2400).

(** The paths that a run of [transcribe_audio] may write, replace or
    remove, once its input is resolved to the path [p] under the audio ID
    [aid]: the file itself, its compressed copy, the audio extracted from a
    video, and the chunk files. *)
Definition workspace (svc : TranscriptionService) (p aid : string) (q : string) : Prop :=
  q = p \/ q = compressed_path svc p \/ q = extracted_path svc aid
  \/ exists i, q = chunk_path svc i.

(** A computation that leaves every file outside [S] as it is. *)
Definition touches_only {A : Type} (S : string -> Prop) (m : M A) : Prop :=
  forall w q, ~ S q -> fs (snd (m w)) !! q = fs w !! q.

(** What the healthy environment returns for the five-minute talk. *)
Definition short_talk_result : TranscriptionResult :=
  {| success := true; audio_id := Some "talk"; full_transcript := "text 0";
     segments := [{| start_time := 0; end_time := 0; text := "text 0" |}];
     language := None; model_used := model Scenario.default_service;
     total_chunks := 1; failed_chunks := 0;
     file_size_mb := inject_Z (st_size (Scenario.audio "talk" 15 300)) / MB;
     optimization_applied := None; error_message := None |}.

(** * Properties *)

(** ** Comparisons and the monad *)

Lemma Qlt_bool_iff (a b : Q) : Qlt_bool a b = true <-> a < b.
Proof.
  unfold Qlt_bool. rewrite negb_true_iff.
  split; intros H.
  - apply Qnot_le_lt. intros Hle. apply Qle_bool_iff in Hle. congruence.
  - destruct (Qle_bool b a) eqn:E; [|reflexivity].
    apply Qle_bool_iff in E. exfalso. apply (Qlt_not_le _ _ H E).
Qed.

Lemma Qlt_bool_false_iff (a b : Q) : Qlt_bool a b = false <-> b <= a.
Proof.
  unfold Qlt_bool. rewrite negb_false_iff. apply Qle_bool_iff.
Qed.

Lemma Qle_bool_false_iff (a b : Q) : Qle_bool a b = false <-> b < a.
Proof.
  rewrite <- Qlt_bool_iff. unfold Qlt_bool.
  destruct (Qle_bool a b); simpl; split; congruence.
Qed.

(** Turns every boolean comparison of the context into its proposition. *)
Ltac reflect_Q :=
  repeat match goal with
    | H : Qlt_bool _ _ = true |- _ => apply Qlt_bool_iff in H
    | H : Qlt_bool _ _ = false |- _ => apply Qlt_bool_false_iff in H
    | H : Qle_bool _ _ = true |- _ => apply Qle_bool_iff in H
    | H : Qle_bool _ _ = false |- _ => apply Qle_bool_false_iff in H
    | H : Qeq_bool _ _ = true |- _ => apply Qeq_bool_iff in H
    | H : Qeq_bool _ _ = false |- _ => apply Qeq_bool_neq in H
    end.

(** ** Strategy selection *)

(** C7. When the (final) file size is at most [max_file_size_mb] and the
    duration is at most the safe duration ceiling of 720 seconds, the
    strategy that [transcribe_audio] selects is the direct one, and it
    names no triggering condition. *)
Theorem strategy_direct_when_within_limits :
  forall (svc : TranscriptionService) (final_file_size_mb duration_seconds : Q),
    final_file_size_mb <= max_file_size_mb svc ->
    duration_seconds <= safe_duration_limit ->
    chosen (strategy_decision svc final_file_size_mb duration_seconds) = Direct
    /\ reasons (strategy_decision svc final_file_size_mb duration_seconds) = [].
Proof.
  intros svc sz d Hsz Hd. unfold strategy_decision.
  apply Qle_bool_iff in Hsz. apply Qle_bool_iff in Hd.
  rewrite Hsz, Hd. simpl. split; reflexivity.
Qed.

(** Five minutes and 10 MB under the default limit of 25 MB. *)
Lemma strategy_direct_when_within_limits_witness :
  chosen (strategy_decision Scenario.default_service 10 300) = Direct
  /\ reasons (strategy_decision Scenario.default_service 10 300) = [].
Proof.
  apply (strategy_direct_when_within_limits Scenario.default_service 10 300).
  - vm_compute. discriminate.
  - vm_compute. discriminate.
Defined.

(** The converse: any excess selects chunking, and is named. *)
Lemma strategy_chunked_when_over (svc : TranscriptionService) (sz d : Q) :
  max_file_size_mb svc < sz \/ safe_duration_limit < d ->
  chosen (strategy_decision svc sz d) = Chunked
  /\ reasons (strategy_decision svc sz d) <> [].
Proof.
  intros H. unfold strategy_decision.
  destruct (Qle_bool sz (max_file_size_mb svc)) eqn:E1;
    destruct (Qle_bool d safe_duration_limit) eqn:E2; simpl;
    reflect_Q.
  - destruct H as [H|H]; exfalso; eapply Qlt_not_le; eauto.
  - split; [reflexivity|].
    apply Qlt_bool_iff in E2. rewrite E2.
    destruct (Qlt_bool (max_file_size_mb svc) sz); simpl; discriminate.
  - split; [reflexivity|].
    apply Qlt_bool_iff in E1. rewrite E1. simpl. discriminate.
  - split; [reflexivity|].
    apply Qlt_bool_iff in E1. rewrite E1. simpl. discriminate.
Qed.

(** ** The retry loop *)

Lemma pow2_nonneg (a : Z) : 0 <= inject_Z (2 ^ a).
Proof.
  change 0 with (inject_Z 0). rewrite <- Zle_Qle. apply Z.pow_nonneg. lia.
Qed.

Lemma sleep_nonneg (d : Q) (w : World) :
  0 <= d ->
  sleep d w = (Ok tt, {| fs := fs w; api_calls := api_calls w;
                         slept := (slept w ++ [d])%list |}).
Proof.
  intros H. unfold sleep.
  apply Qlt_bool_false_iff in H. rewrite H. reflexivity.
Qed.

Lemma backoff_delays_S (svc : TranscriptionService) (a : Z) (n : nat) :
  backoff_delays svc a (S n)
  = (base_delay svc * inject_Z (2 ^ a) :: backoff_delays svc (a + 1) n)%list.
Proof.
  unfold backoff_delays. simpl. rewrite Z.add_0_r. f_equal.
  rewrite <- seq_shift, map_map. apply map_ext. intros k.
  do 3 f_equal. lia.
Qed.

(** One iteration of the loop. *)
Lemma retry_loop_step (env : Env) (svc : TranscriptionService)
      (p : string) (lang prompt : option string) (r : nat) (a : Z) (w : World) :
  retry_loop env svc (S r) a p lang prompt w
  = match audio_transcription env (api_calls w) p (fs w !! p) lang prompt with
    | ApiReturn x => (Ok (Some x), called w)
    | ApiRaise e =>
        if (a <? max_retries svc)%Z && transient e
        then (sleep (base_delay svc * inject_Z (2 ^ a)) ;;
              retry_loop env svc r (a + 1)%Z p lang prompt) (called w)
        else (Raise ("API call failed: " ++ e), called w)
    end.
Proof.
  cbn [retry_loop]. unfold try_except at 1, bind at 1, client_call, ret, called, transient.
  destruct (audio_transcription env (api_calls w) p (fs w !! p) lang prompt); [|reflexivity].
  destruct ((a <? max_retries svc)%Z && is_retryable (PyStr.lower e)); reflexivity.
Qed.

(** The loop from attempt [a] on, with [m] retries still allowed. *)
Lemma retry_loop_spec (env : Env) (svc : TranscriptionService)
      (p : string) (lang prompt : option string) :
  0 <= base_delay svc ->
  forall (m : nat) (a : Z) (w : World) res w',
    (a + Z.of_nat m = max_retries svc)%Z ->
    retry_loop env svc (S m) a p lang prompt w = (res, w') ->
    exists n : nat,
      (n <= m)%nat
      /\ api_calls w' = (api_calls w + n + 1)%nat
      /\ fs w' = fs w
      /\ slept w' = (slept w ++ backoff_delays svc a n)%list
      /\ (forall k, (k < n)%nat ->
            exists e, nth_outcome env w p lang prompt k = ApiRaise e
                      /\ transient e = true)
      /\ match nth_outcome env w p lang prompt n with
         | ApiReturn r => res = Ok (Some r)
         | ApiRaise e =>
             res = Raise ("API call failed: " ++ e)
             /\ (transient e = false \/ n = m)
         end.
Proof.
  intros Hbase m. induction m as [|m IH]; intros a w res w' Ha Hrun;
    rewrite retry_loop_step in Hrun;
    destruct (audio_transcription env (api_calls w) p (fs w !! p) lang prompt)
      as [e|r] eqn:Hcall.
  - (* the last attempt fails: [attempt < max_retries] is false *)
    replace (a <? max_retries svc)%Z with false in Hrun
      by (symmetry; apply Z.ltb_ge; lia).
    simpl in Hrun. inversion Hrun; subst; clear Hrun.
    exists 0%nat. unfold nth_outcome. rewrite Nat.add_0_r, Hcall. simpl.
    repeat split; try lia; try (rewrite app_nil_r; reflexivity); auto.
  - inversion Hrun; subst; clear Hrun.
    exists 0%nat. unfold nth_outcome. rewrite Nat.add_0_r, Hcall. simpl.
    repeat split; try lia; try (rewrite app_nil_r; reflexivity).
  - replace (a <? max_retries svc)%Z with true in Hrun
      by (symmetry; apply Z.ltb_lt; lia).
    simpl andb in Hrun.
    destruct (transient e) eqn:Hretry.
    + (* a transient failure: sleep, then go on *)
      unfold bind in Hrun.
      rewrite sleep_nonneg in Hrun
        by (apply Qmult_le_0_compat; [exact Hbase | apply pow2_nonneg]).
      apply IH in Hrun; [|lia].
      destruct Hrun as (n & Hn & Hcalls & Hfs & Hslept & Hprev & Hlast).
      simpl in Hcalls, Hfs, Hslept.
      exists (S n). repeat split.
      * lia.
      * lia.
      * exact Hfs.
      * rewrite Hslept, backoff_delays_S, <- app_assoc. reflexivity.
      * intros [|k] Hk.
        -- exists e. unfold nth_outcome. rewrite Nat.add_0_r. auto.
        -- destruct (Hprev k ltac:(lia)) as (e' & He' & Ht').
           exists e'. split; [|exact Ht'].
           unfold nth_outcome in *. simpl in He'.
           replace (api_calls w + S k)%nat with (S (api_calls w) + k)%nat by lia.
           exact He'.
      * unfold nth_outcome in *. simpl in Hlast.
        replace (api_calls w + S n)%nat with (S (api_calls w + n))%nat by lia.
        destruct (audio_transcription env (S (api_calls w + n)) p (fs w !! p) lang prompt).
        -- destruct Hlast as [-> [H|H]]; split; auto.
        -- exact Hlast.
    + (* not transient: raise at once *)
      inversion Hrun; subst; clear Hrun.
      exists 0%nat. unfold nth_outcome. rewrite Nat.add_0_r, Hcall. simpl.
      repeat split; try lia; try (rewrite app_nil_r; reflexivity); auto.
  - inversion Hrun; subst; clear Hrun.
    exists 0%nat. unfold nth_outcome. rewrite Nat.add_0_r, Hcall. simpl.
    repeat split; try lia; try (rewrite app_nil_r; reflexivity).
Qed.

Lemma transient_iff_keyword (e : exn) :
  transient e = true
  <-> exists keyword,
      In keyword ["timeout"; "rate limit"; "5"; "server error"; "connection"]
      /\ PyStr.contains keyword (PyStr.lower e) = true.
Proof.
  unfold transient, is_retryable, retry_keywords. rewrite existsb_exists.
  reflexivity.
Qed.

(** The keyword ["5"] stands for the 5xx status codes; it is found in any
    description that has the digit 5 in it. *)
Lemma five_in_description_is_transient :
  transient "Error code: 503 - service unavailable" = true
  /\ transient "Error code: 415 - unsupported media type" = true
  /\ transient "Error code: 401 - invalid api key" = false.
Proof. vm_compute. repeat split; reflexivity. Qed.

(** C3. One [_make_api_call_with_retry] makes at most [max_retries + 1]
    calls; before each retry it sleeps [base_delay * 2 ** attempt], so the
    delays are [base_delay], [2 * base_delay], [4 * base_delay], ...; every
    failure that was followed by a retry was transient (its lower-cased
    description contains one of the keywords); and the run ends at the first
    call that answers, or at the first failure that is not transient or is
    the last attempt, which is raised at once as ["API call failed: ..."]. *)
Theorem retry_backoff_transient_only :
  forall (env : Env) (svc : TranscriptionService) (p : string)
         (lang prompt : option string) (w : World) res w',
    (0 <= max_retries svc)%Z ->
    0 <= base_delay svc ->
    _make_api_call_with_retry env svc p lang prompt w = (res, w') ->
    exists n : nat,
      (Z.of_nat n <= max_retries svc)%Z
      /\ api_calls w' = (api_calls w + n + 1)%nat
      /\ slept w' = (slept w ++ backoff_delays svc 0 n)%list
      /\ (forall k, (k < n)%nat ->
            exists e, nth_outcome env w p lang prompt k = ApiRaise e
                      /\ transient e = true)
      /\ match nth_outcome env w p lang prompt n with
         | ApiReturn r => res = Ok (Some r)
         | ApiRaise e =>
             res = Raise ("API call failed: " ++ e)
             /\ (transient e = false \/ Z.of_nat n = max_retries svc)
         end.
Proof.
  intros env svc p lang prompt w res w' Hmax Hbase Hrun.
  unfold _make_api_call_with_retry in Hrun.
  replace (Z.to_nat (max_retries svc + 1)) with (S (Z.to_nat (max_retries svc)))
    in Hrun by lia.
  apply retry_loop_spec in Hrun; [|exact Hbase|lia].
  destruct Hrun as (n & Hn & Hcalls & _ & Hslept & Hprev & Hlast).
  exists n. repeat split; try assumption; try lia.
  destruct (nth_outcome env w p lang prompt n); [|exact Hlast].
  destruct Hlast as [-> [H|H]]; split; auto. right. lia.
Qed.

(** Rate limited, then a lost connection, then an answer: three calls, and
    sleeps of 1 and 2 seconds. *)
Lemma retry_backoff_transient_only_witness :
  exists n : nat,
    (Z.of_nat n <= 3)%Z
    /\ 3%nat = (0 + n + 1)%nat
    /\ [1 * inject_Z (2 ^ 0); 1 * inject_Z (2 ^ 1)]
       = ([] ++ backoff_delays Scenario.default_service 0 n)%list
    /\ (forall k, (k < n)%nat ->
          exists e,
            nth_outcome Scenario.rate_limited_twice
                        (Scenario.world_with "a.mp3" (Scenario.audio "a" 1 60))
                        "a.mp3" None None k = ApiRaise e
            /\ transient e = true)
    /\ match nth_outcome Scenario.rate_limited_twice
                         (Scenario.world_with "a.mp3" (Scenario.audio "a" 1 60))
                         "a.mp3" None None n with
       | ApiReturn r => Ok (Some {| resp_text := Some "hello"; resp_language := None |})
                        = Ok (Some r)
       | ApiRaise e =>
           Ok (Some {| resp_text := Some "hello"; resp_language := None |})
           = Raise ("API call failed: " ++ e)
           /\ (transient e = false \/ Z.of_nat n = 3%Z)
       end.
Proof.
  apply (retry_backoff_transient_only
           Scenario.rate_limited_twice Scenario.default_service "a.mp3" None None
           (Scenario.world_with "a.mp3" (Scenario.audio "a" 1 60))
           (Ok (Some {| resp_text := Some "hello"; resp_language := None |}))
           {| fs := {[ "a.mp3" := Scenario.audio "a" 1 60 ]}; api_calls := 3;
              slept := [1 * inject_Z (2 ^ 0); 1 * inject_Z (2 ^ 1)] |}).
  - simpl. lia.
  - simpl. discriminate.
  - reflexivity.
Defined.

(** ** The chunk planner *)

Lemma Qmin_left (a b : Q) : a <= b -> Qmin a b = a.
Proof.
  intros H. unfold Qmin, GenericMinMax.gmin.
  destruct (Qcompare a b) eqn:E; try reflexivity.
  apply Qgt_alt in E. exfalso. apply (Qlt_not_le _ _ E H).
Qed.

Lemma is_Some_write (f : gmap string File) (p q : string) (x : File) :
  is_Some (f !! p) -> is_Some (<[q := x]> f !! p).
Proof.
  intros H. destruct (decide (q = p)) as [->|Hne].
  - rewrite lookup_insert_eq. eauto.
  - rewrite lookup_insert_ne by exact Hne. exact H.
Qed.

Section PlannerFacts.

Context (env : Env) (svc : TranscriptionService) (p : string).
Context (total d o : Q) (n : Z).
Hypothesis ffmpeg_installed : which_ffmpeg env = true.
Hypothesis n_pos : (1 <= n)%Z.
Hypothesis d_pos : 0 < d.
Hypothesis o_nonneg : 0 <= o.
Hypothesis n_chunks_cover : inject_Z n * d == total.

(** Every planned chunk but the last starts before the end and fits. *)
Lemma planned_position_fits (idx : Z) (pos : Q) :
  (0 <= idx < n)%Z ->
  pos == inject_Z idx * (d - o) ->
  pos < total /\ pos + d <= total.
Proof.
  intros Hidx Hpos.
  assert (Hi : inject_Z idx <= inject_Z n - 1).
  { assert (H1 : inject_Z idx + 1 <= inject_Z n).
    { change 1 with (inject_Z 1). rewrite <- inject_Z_plus, <- Zle_Qle. lia. }
    lra. }
  assert (H0 : 0 <= inject_Z idx).
  { change 0 with (inject_Z 0). rewrite <- Zle_Qle. lia. }
  assert (Hio : 0 <= inject_Z idx * o) by (apply Qmult_le_0_compat; assumption).
  assert (Hid : inject_Z idx * d <= (inject_Z n - 1) * d).
  { apply Qmult_le_compat_r; [exact Hi | apply Qlt_le_weak, d_pos]. }
  rewrite Hpos, <- n_chunks_cover. split; lra.
Qed.

(** The loop in ffmpeg mode, started at chunk [idx] of the plan: it
    returns a prefix of the plan, and the whole plan when every clip
    succeeds and the chunk length is at least one second. *)
Lemma chunk_loop_planned :
  forall (fuel : nat) (idx : Z) (pos : Q) (chunks : list Chunk) (w : World) res w',
    (0 <= idx < n)%Z ->
    (Z.to_nat (n - idx) <= fuel)%nat ->
    pos == inject_Z idx * (d - o) ->
    planned svc d o (Z.to_nat idx) chunks ->
    chunk_loop env svc fuel p total n d o pos idx chunks w = (res, w') ->
    exists (m : nat) (chunks' : list Chunk),
      res = Ok chunks'
      /\ (Z.of_nat m <= n)%Z
      /\ planned svc d o m chunks'
      /\ (d < 1 -> chunks' = chunks)
      /\ (1 <= d ->
          (forall f s t, is_Some (ffmpeg_clip env f s t)) ->
          is_Some (fs w !! p) ->
          Z.of_nat m = n).
Proof.
  induction fuel as [|fuel IH]; intros idx pos chunks w res w' Hidx Hfuel Hpos Hpl Hrun.
  { exfalso. lia. }
  destruct (planned_position_fits idx pos Hidx Hpos) as [Hlt Hfit].
  cbn [chunk_loop] in Hrun.
  apply Qlt_bool_iff in Hlt. rewrite Hlt in Hrun.
  rewrite (Qmin_left _ _ Hfit) in Hrun.
  assert (Hlen : pos + d - pos == d) by ring.
  destruct (Qlt_bool (pos + d - pos) 1) eqn:Hshort.
  - (* shorter than a second: the loop stops *)
    unfold ret in Hrun. inversion Hrun; subst; clear Hrun.
    apply Qlt_bool_iff in Hshort. rewrite Hlen in Hshort.
    exists (Z.to_nat idx), chunks. repeat split; auto; try lia.
    intros Hd. exfalso. apply (Qlt_not_le _ _ Hshort Hd).
  - apply Qlt_bool_false_iff in Hshort. rewrite Hlen in Hshort.
    rewrite ffmpeg_installed in Hrun.
    unfold bind at 1, run_ffmpeg_clip, bind at 1, get_fs in Hrun.
    assert (Hnew : planned svc d o (Z.to_nat (idx + 1))
                     (chunks ++ [(FFmpegChunk (chunk_path svc idx), pos, pos + d)])%list).
    { unfold planned. replace (Z.to_nat (idx + 1)) with (S (Z.to_nat idx)) by lia.
      rewrite seq_S. apply Forall2_app; [exact Hpl|].
      constructor; [|constructor].
      unfold planned_chunk. simpl. rewrite Z2Nat.id by lia.
      repeat split; [exact Hpos | rewrite Hpos; reflexivity]. }
    destruct (fs w !! p) as [x|] eqn:Hsrc.
    + destruct (ffmpeg_clip env x pos (pos + d - pos)) as [c|] eqn:Hclip.
      * unfold bind at 1, write_file, bind at 1, get_fs, set_fs, ret at 1 in Hrun.
        cbn beta iota in Hrun.
        destruct (idx + 1 >=? n)%Z eqn:Hdone.
        -- (* that was the last chunk *)
           unfold ret in Hrun. inversion Hrun; subst; clear Hrun.
           apply Z.geb_le in Hdone.
           exists (Z.to_nat (idx + 1)). eexists. repeat split.
           ++ lia.
           ++ exact Hnew.
           ++ intros Hd. exfalso. apply (Qlt_not_le _ _ Hd Hshort).
           ++ intros _ _ _. lia.
        -- rewrite Z.geb_leb in Hdone. apply Z.leb_gt in Hdone.
           apply IH in Hrun.
           ++ destruct Hrun as (m & chunks' & -> & Hm & Hpl' & _ & Hall).
              exists m, chunks'. repeat split; auto.
              ** intros Hd. exfalso. apply (Qlt_not_le _ _ Hd Hshort).
              ** intros Hd Hclips _. apply Hall; auto.
                 cbn [fs]. apply is_Some_write. rewrite Hsrc. eauto.
           ++ lia.
           ++ lia.
           ++ rewrite inject_Z_plus.
              destruct (idx + 1 <? n - 1)%Z; rewrite Hpos; change (inject_Z 1) with 1; ring.
           ++ exact Hnew.
      * (* ffmpeg failed on this chunk: the loop stops *)
        unfold ret in Hrun. inversion Hrun; subst; clear Hrun.
        exists (Z.to_nat idx), chunks. repeat split; auto; try lia.
        intros _ Hclips _. destruct (Hclips x pos (pos + d - pos)) as [c Hc].
        congruence.
    + unfold ret in Hrun. inversion Hrun; subst; clear Hrun.
      exists (Z.to_nat idx), chunks. repeat split; auto; try lia.
      intros _ _ [x Hx]. congruence.
Qed.

End PlannerFacts.

(** *** What a plan looks like *)

Lemma planned_length (svc : TranscriptionService) (d o : Q) (m : nat) (chunks : list Chunk) :
  planned svc d o m chunks -> length chunks = m.
Proof.
  intros H. apply Forall2_length in H. rewrite length_seq in H. auto.
Qed.

Lemma planned_Qeq (svc : TranscriptionService) (d d' o o' : Q) (m : nat) (chunks : list Chunk) :
  d == d' -> o == o' -> planned svc d o m chunks -> planned svc d' o' m chunks.
Proof.
  intros Hd Ho H. unfold planned in *.
  eapply Forall2_impl; [exact H|].
  intros k c (Hf & Hs & He). unfold planned_chunk.
  rewrite <- Hd, <- Ho. auto.
Qed.

(** The statements below go through a plan that starts at any index. *)
Lemma planned_from_lengths (svc : TranscriptionService) (d o : Q) :
  forall (chunks : list Chunk) (first m : nat),
    Forall2 (planned_chunk svc d o) (seq first m) chunks ->
    Forall (fun c => chunk_length c == d) chunks
    /\ total_length chunks == inject_Z (Z.of_nat m) * d
    /\ Forall (fun x => x == o) (overlaps chunks).
Proof.
  induction chunks as [|c rest IH]; intros first m H.
  - inversion H as [Hm|]; subst. destruct m; [|discriminate].
    simpl. repeat split; auto; try ring.
  - destruct m as [|m]; [inversion H|].
    simpl in H. inversion H as [|k c' ks cs Hc Hrest]; subst.
    destruct (IH _ _ Hrest) as (Hlens & Hsum & Hov).
    destruct Hc as (_ & Hs & He).
    assert (Hlen : chunk_length c == d).
    { unfold chunk_length. rewrite Hs, He. ring. }
    repeat split.
    + constructor; assumption.
    + simpl. rewrite Hlen, Hsum, Nat2Z.inj_succ. unfold Z.succ.
      rewrite inject_Z_plus. change (inject_Z 1) with 1. ring.
    + destruct rest as [|c2 rest']; [constructor|].
      cbn [overlaps]. constructor; [|exact Hov].
      destruct m as [|m']; [inversion Hrest|].
      simpl in Hrest. inversion Hrest as [|k2 c2' ks2 cs2 Hc2 _]; subst.
      destruct Hc2 as (_ & Hs2 & _).
      unfold chunk_end, chunk_start. rewrite He, Hs2, Nat2Z.inj_succ. unfold Z.succ.
      rewrite inject_Z_plus. change (inject_Z 1) with 1. ring.
Qed.

(** *** The numbers of a plan *)

Lemma chunks_needed_pos (total L : Q) :
  0 < L -> 0 < total -> (1 <= chunks_needed_for total L)%Z.
Proof.
  intros HL Ht. unfold chunks_needed_for.
  assert (Hx : 0 < total / L).
  { apply Qlt_shift_div_l; [exact HL|]. lra. }
  pose proof (Qle_ceiling (total / L)) as Hc.
  assert (H0 : inject_Z 0 < inject_Z (Qceiling (total / L))).
  { change (inject_Z 0) with 0. lra. }
  rewrite <- Zlt_Qlt in H0. lia.
Qed.

Lemma chunks_needed_two (total L : Q) :
  0 < L -> L < total -> (2 <= chunks_needed_for total L)%Z.
Proof.
  intros HL Ht. unfold chunks_needed_for.
  assert (Hx : 1 < total / L).
  { apply Qlt_shift_div_l; [exact HL|]. lra. }
  pose proof (Qle_ceiling (total / L)) as Hc.
  assert (H0 : inject_Z 1 < inject_Z (Qceiling (total / L))).
  { change (inject_Z 1) with 1. lra. }
  rewrite <- Zlt_Qlt in H0. lia.
Qed.

Lemma optimal_chunk_duration_facts (total L : Q) :
  0 < L -> 0 < total ->
  0 < optimal_chunk_duration total L
  /\ optimal_chunk_duration total L <= L
  /\ inject_Z (chunks_needed_for total L) * optimal_chunk_duration total L == total.
Proof.
  intros HL Ht. unfold optimal_chunk_duration.
  pose proof (chunks_needed_pos total L HL Ht) as Hn.
  assert (Hnq : 0 < inject_Z (chunks_needed_for total L)).
  { change 0 with (inject_Z 0). rewrite <- Zlt_Qlt. lia. }
  assert (Hceil : total / L <= inject_Z (chunks_needed_for total L))
    by apply Qle_ceiling.
  repeat split.
  - apply Qlt_shift_div_l; [exact Hnq|]. lra.
  - apply Qle_shift_div_r; [exact Hnq|].
    assert (HtL : total == total / L * L).
    { field. intros H0. rewrite H0 in HL. apply (Qlt_irrefl _ HL). }
    assert (Hmul : total / L * L <= inject_Z (chunks_needed_for total L) * L).
    { apply Qmult_le_compat_r; [exact Hceil | apply Qlt_le_weak, HL]. }
    rewrite HtL at 1. rewrite (Qmult_comm L). exact Hmul.
  - field. intros H0. rewrite H0 in Hnq. apply (Qlt_irrefl _ Hnq).
Qed.

Lemma overlap_for_cases (d : Q) :
  (1350 < d /\ overlap_for d = 0.5) \/ (d <= 1350 /\ overlap_for d = 0).
Proof.
  unfold overlap_for. destruct (Qlt_bool 1350 d) eqn:E; reflect_Q; auto.
Qed.

Lemma overlap_for_nonneg (d : Q) : 0 <= overlap_for d.
Proof.
  destruct (overlap_for_cases d) as [[_ ->]|[_ ->]]; discriminate.
Qed.

(** [_create_intelligent_chunks_ffmpeg] with ffmpeg installed: a prefix of
    the plan with [ceil(total / L)] chunks of equal length and the overlap
    that this length calls for. *)
Lemma planner_ffmpeg_spec (env : Env) (svc : TranscriptionService) (p : string)
      (total L : Q) (w : World) res w' :
  which_ffmpeg env = true ->
  0 < L -> 0 < total ->
  _create_intelligent_chunks_ffmpeg env svc p total L w = (res, w') ->
  let n := chunks_needed_for total L in
  let d := optimal_chunk_duration total L in
  exists (m : nat) (chunks : list Chunk),
    res = Ok chunks
    /\ (Z.of_nat m <= n)%Z
    /\ planned svc d (overlap_for d) m chunks
    /\ (d < 1 -> chunks = [])
    /\ (1 <= d ->
        (forall f s t, is_Some (ffmpeg_clip env f s t)) ->
        is_Some (fs w !! p) ->
        Z.of_nat m = n).
Proof.
  intros Hff HL Ht Hrun n d.
  destruct (optimal_chunk_duration_facts total L HL Ht) as (Hd0 & _ & Hcover).
  pose proof (chunks_needed_pos total L HL Ht) as Hn.
  unfold _create_intelligent_chunks_ffmpeg in Hrun.
  replace (Qeq_bool L 0) with false in Hrun.
  2:{ symmetry. destruct (Qeq_bool L 0) eqn:E; [|reflexivity].
      apply Qeq_bool_iff in E. rewrite E in HL. exfalso. apply (Qlt_irrefl _ HL). }
  replace (chunks_needed_for total L =? 0)%Z with false in Hrun
    by (symmetry; apply Z.eqb_neq; lia).
  pose proof (chunk_loop_planned env svc p total d (overlap_for d) n
                Hff Hn Hd0 (overlap_for_nonneg d) Hcover
                (S (Z.to_nat n)) 0%Z 0 [] w res w') as Hloop.
  destruct Hloop as (m & chunks & -> & Hm & Hpl & Hshort & Hall).
  - lia.
  - lia.
  - change (inject_Z 0) with 0. ring.
  - constructor.
  - exact Hrun.
  - exists m, chunks. repeat split; auto.
Qed.




(** C8 (as the code has it). With ffmpeg installed and a per-chunk ceiling
    [L] of at most the
    API duration limit of 1400 seconds (which is how [_transcribe_chunked]
    computes it), consecutive chunks of the plan overlap by one and the same
    amount; that amount is not zero only when the equal chunk length is
    within 50 seconds of the ceiling, and it is exactly zero whenever the
    chunk length is 50 seconds or more below the ceiling. *)
Theorem overlap_only_near_ceiling :
  forall (env : Env) (svc : TranscriptionService) (p : string)
         (total L : Q) (w : World) res w',
    which_ffmpeg env = true ->
    0 < L -> L <= api_duration_limit -> 0 < total ->
    _create_intelligent_chunks_ffmpeg env svc p total L w = (res, w') ->
    let d := optimal_chunk_duration total L in
    exists chunks : list Chunk,
      res = Ok chunks
      /\ Forall (fun x => x == overlap_for d) (overlaps chunks)
      /\ (~ overlap_for d == 0 -> L - 50 < d /\ d <= L)
      /\ (d <= L - 50 -> overlap_for d == 0).
Proof.
  intros env svc p total L w res w' Hff HL Hapi Ht Hrun d.
  destruct (planner_ffmpeg_spec env svc p total L w res w' Hff HL Ht Hrun)
    as (m & chunks & -> & _ & Hpl & _).
  fold d in Hpl.
  destruct (planned_from_lengths svc d (overlap_for d) chunks 0 m Hpl) as (_ & _ & Hov).
  destruct (optimal_chunk_duration_facts total L HL Ht) as (_ & HdL & _).
  fold d in HdL. unfold api_duration_limit in Hapi.
  exists chunks. split; [reflexivity|]. split; [exact Hov|].
  destruct (overlap_for_cases d) as [[Hbig ->]|[Hsmall ->]]; split.
  - intros _. split; [lra | exact HdL].
  - intros Hfar. exfalso. lra.
  - intros Hne. exfalso. apply Hne. reflexivity.
  - intros _. reflexivity.
Qed.

(** Two chunks of 1400 seconds under a ceiling of 1400: half a second of
    overlap. *)
Lemma overlap_only_near_ceiling_witness :
  let d := optimal_chunk_duration 2800 1400 in
  exists chunks : list Chunk,
    fst (_create_intelligent_chunks_ffmpeg
           Scenario.healthy Scenario.default_service "talk.mp3" 2800 1400
           (Scenario.world_with "talk.mp3" (Scenario.audio "talk" 15 2800)))
    = Ok chunks
    /\ Forall (fun x => x == overlap_for d) (overlaps chunks)
    /\ (~ overlap_for d == 0 -> 1400 - 50 < d /\ d <= 1400)
    /\ (d <= 1400 - 50 -> overlap_for d == 0).
Proof.
  apply (overlap_only_near_ceiling
           Scenario.healthy Scenario.default_service "talk.mp3" 2800 1400
           (Scenario.world_with "talk.mp3" (Scenario.audio "talk" 15 2800))
           _ (snd (_create_intelligent_chunks_ffmpeg
                     Scenario.healthy Scenario.default_service "talk.mp3" 2800 1400
                     (Scenario.world_with "talk.mp3" (Scenario.audio "talk" 15 2800))))).
  - reflexivity.
  - reflexivity.
  - vm_compute. discriminate.
  - reflexivity.
  - apply surjective_pairing.
Defined.

(** C8, as stated, fails on a machine without ffmpeg: for a file of 320
    seconds the equal chunk length is 160 seconds, far more than 50 seconds
    below the ceiling of 307.2, and yet consecutive chunks of the fallback
    plan overlap by the configured half second. *)
Lemma fallback_overlaps_far_from_ceiling :
  optimal_chunk_duration 320 effective_duration_limit == 160
  /\ optimal_chunk_duration 320 effective_duration_limit
     <= effective_duration_limit - 50
  /\ match short_plan_without_ffmpeg with
     | Ok chunks =>
         length chunks = 11%nat
         /\ forallb (fun x => Qeq_bool x 0.5) (overlaps chunks) = true
         /\ forallb (fun x => Qeq_bool x 0) (overlaps chunks) = false
     | _ => False
     end.
Proof.
  vm_compute. repeat split; try reflexivity; discriminate.
Qed.

(** The ceiling that [_transcribe_chunked] passes is within the API limit. *)
Lemma pipeline_ceiling_within_api_limit :
  0 < effective_duration_limit /\ effective_duration_limit <= api_duration_limit.
Proof.
  split; [vm_compute; reflexivity | apply Q.le_min_l].
Qed.

(** The threshold of the planner is the constant 1350 and does not follow
    the ceiling: under a ceiling of 2000 seconds, which the pipeline never
    passes, two chunks of 1400 seconds overlap although they are 600 seconds
    below the ceiling. *)
Lemma overlap_threshold_is_absolute :
  optimal_chunk_duration 2800 2000 == 1400
  /\ overlap_for (optimal_chunk_duration 2800 2000) == 0.5.
Proof. vm_compute. split; reflexivity. Qed.

(** *** The ceiling of the pipeline *)

Lemma effective_duration_limit_value : effective_duration_limit == 307.2.
Proof. vm_compute. reflexivity. Qed.

(** Under the ceiling of the pipeline no plan has any overlap. *)
Lemma pipeline_overlap_zero (total : Q) :
  0 < total ->
  overlap_for (optimal_chunk_duration total effective_duration_limit) = 0.
Proof.
  intros Ht.
  assert (HL : 0 < effective_duration_limit) by (vm_compute; reflexivity).
  destruct (optimal_chunk_duration_facts total _ HL Ht) as (_ & Hd & _).
  destruct (overlap_for_cases (optimal_chunk_duration total effective_duration_limit))
    as [[Hbig _]|[_ H]]; [|exact H].
  exfalso. pose proof effective_duration_limit_value as Hv. lra.
Qed.

(** C1 (as the code has it). A 40-minute (2400 s), 15 MB input is sent to
    the chunked strategy, and with ffmpeg at work the planner, under the
    pipeline's ceiling of 307.2 seconds, cuts it into exactly 8 segments of
    300 seconds (5 minutes) each, the [k]-th from [300 k] to [300 k + 300],
    with no overlap. *)
Theorem forty_minute_plan :
  forall (env : Env) (svc : TranscriptionService) (p : string) (w : World),
    which_ffmpeg env = true ->
    (forall f s t, is_Some (ffmpeg_clip env f s t)) ->
    is_Some (fs w !! p) ->
    chosen (strategy_decision svc 15 2400) = Chunked
    /\ exists (chunks : list Chunk) (w' : World),
        _create_intelligent_chunks_ffmpeg env svc p 2400 effective_duration_limit w
        = (Ok chunks, w')
        /\ planned svc 300 0 8 chunks
        /\ length chunks = 8%nat
        /\ Forall (fun c => chunk_length c == 300) chunks
        /\ Forall (fun x => x == 0) (overlaps chunks).
Proof.
  intros env svc p w Hff Hclips Hsrc. split.
  - apply strategy_chunked_when_over. right. reflexivity.
  - destruct (_create_intelligent_chunks_ffmpeg env svc p 2400 effective_duration_limit w)
      as [res w'] eqn:Hrun.
    assert (HL : 0 < effective_duration_limit) by (vm_compute; reflexivity).
    assert (Ht : 0 < 2400) by reflexivity.
    destruct (planner_ffmpeg_spec env svc p 2400 _ w res w' Hff HL Ht Hrun)
      as (m & chunks & -> & _ & Hpl & _ & Hall).
    assert (Hd : optimal_chunk_duration 2400 effective_duration_limit == 300)
      by (vm_compute; reflexivity).
    assert (Hm : m = 8%nat).
    { assert (H8 : Z.of_nat m = 8%Z).
      { rewrite Hall; auto. rewrite Hd. discriminate. }
      lia. }
    subst m.
    assert (Hpl' : planned svc 300 0 8 chunks).
    { eapply planned_Qeq; [exact Hd| |exact Hpl].
      rewrite pipeline_overlap_zero by reflexivity. reflexivity. }
    destruct (planned_from_lengths svc 300 0 chunks 0 8 Hpl') as (Hlens & _ & Hov).
    exists chunks, w'. repeat split; auto.
    apply (planned_length _ _ _ _ _ Hpl').
Qed.

Lemma forty_minute_plan_witness :
  chosen (strategy_decision Scenario.default_service 15 2400) = Chunked
  /\ exists (chunks : list Chunk) (w' : World),
      _create_intelligent_chunks_ffmpeg
        Scenario.healthy Scenario.default_service "talk.mp3" 2400
        effective_duration_limit
        (Scenario.world_with "talk.mp3" (Scenario.audio "talk" 15 2400))
      = (Ok chunks, w')
      /\ planned Scenario.default_service 300 0 8 chunks
      /\ length chunks = 8%nat
      /\ Forall (fun c => chunk_length c == 300) chunks
      /\ Forall (fun x => x == 0) (overlaps chunks).
Proof.
  apply (forty_minute_plan
           Scenario.healthy Scenario.default_service "talk.mp3"
           (Scenario.world_with "talk.mp3" (Scenario.audio "talk" 15 2400))).
  - reflexivity.
  - intros f s t. simpl. eauto.
  - simpl. rewrite lookup_singleton_eq. eauto.
Defined.

(** C1, as stated, fails: the run on the 40-minute file is chunked, but
    into 8 units of 300 seconds and not into 4 of about 600 seconds. *)
Lemma forty_minute_run_has_eight_units :
  match forty_minute_run with
  | (Ok r, _) =>
      total_chunks r = 8%Z
      /\ total_chunks r <> 4%Z
      /\ length (segments r) = 8%nat
      /\ all_segments_last 300 r = true
      /\ all_segments_last 600 r = false
  | _ => False
  end.
Proof.
  vm_compute. repeat split; congruence.
Qed.

(** ** The media probe and the strategy *)

(** The probe reads the world and leaves it as it is. *)
Lemma probe_keeps_world (env : Env) (p : string) (w : World) :
  snd (_get_audio_duration_efficient env p w) = w.
Proof.
  assert (Hpy : snd (pydub_duration p w) = w).
  { cbv [pydub_duration bind stat get_fs ret raise].
    destruct (fs w !! p) as [x|]; [|reflexivity].
    destruct (pydub_decode x); reflexivity. }
  unfold _get_audio_duration_efficient.
  destruct (which_ffprobe env); simpl; [|exact Hpy].
  cbv [bind get_fs].
  destruct (fs w !! p) as [x|]; [|exact Hpy].
  destruct (ffprobe_duration x); [reflexivity | exact Hpy].
Qed.

Lemma probe_never_diverges (env : Env) (p : string) (w : World) :
  fst (_get_audio_duration_efficient env p w) <> Diverge.
Proof.
  assert (Hpy : fst (pydub_duration p w) <> Diverge).
  { cbv [pydub_duration bind stat get_fs ret raise].
    destruct (fs w !! p) as [x|]; [|discriminate].
    destruct (pydub_decode x); discriminate. }
  unfold _get_audio_duration_efficient.
  destruct (which_ffprobe env); simpl; [|exact Hpy].
  cbv [bind get_fs].
  destruct (fs w !! p) as [x|]; [|exact Hpy].
  destruct (ffprobe_duration x); [discriminate | exact Hpy].
Qed.

(** What [transcribe_audio] takes as the duration: the probe's answer, and
    0 in place of an exception. *)
Lemma checked_duration_spec (env : Env) (p : string) (w : World) :
  checked_duration env p w
  = (match fst (_get_audio_duration_efficient env p w) with
     | Ok d => Ok d
     | Raise _ => Ok 0
     | Diverge => Diverge
     end, w).
Proof.
  unfold checked_duration, try_except.
  pose proof (probe_keeps_world env p w) as Hw.
  destruct (_get_audio_duration_efficient env p w) as [[d|e|] w1];
    simpl in *; subst; reflexivity.
Qed.

(** C9 (as the code has it). When the duration probe raises, or returns 0,
    [transcribe_audio] goes on with the number 0 and compares it with the
    safe ceiling like any duration: the direct strategy is selected exactly
    when the file size is within the limit. *)
Theorem zero_duration_counts_as_within_ceiling :
  forall (env : Env) (svc : TranscriptionService) (p : string) (w : World)
         (final_file_size_mb : Q),
    (exists e, fst (_get_audio_duration_efficient env p w) = Raise e)
    \/ (exists d, fst (_get_audio_duration_efficient env p w) = Ok d /\ d == 0) ->
    exists d : Q,
      checked_duration env p w = (Ok d, w)
      /\ d == 0
      /\ (chosen (strategy_decision svc final_file_size_mb d) = Direct
          <-> final_file_size_mb <= max_file_size_mb svc).
Proof.
  intros env svc p w sz Hprobe.
  assert (Hdec : forall d, d == 0 ->
            (chosen (strategy_decision svc sz d) = Direct <-> sz <= max_file_size_mb svc)).
  { intros d Hd. unfold strategy_decision.
    assert (H720 : Qle_bool d safe_duration_limit = true).
    { apply Qle_bool_iff. rewrite Hd. discriminate. }
    rewrite H720, andb_true_r.
    destruct (Qle_bool sz (max_file_size_mb svc)) eqn:E; simpl; reflect_Q.
    - split; auto.
    - split; [discriminate|]. intros Hle. exfalso. apply (Qlt_not_le _ _ E Hle). }
  rewrite checked_duration_spec.
  destruct Hprobe as [[e He]|[d [Hd H0]]].
  - rewrite He. exists 0. split; [reflexivity|]. split; [reflexivity|].
    apply Hdec. reflexivity.
  - rewrite Hd. exists d. split; [reflexivity|]. split; [exact H0|].
    apply Hdec. exact H0.
Qed.

Lemma zero_duration_counts_as_within_ceiling_witness :
  exists d : Q,
    checked_duration Scenario.healthy "lecture.mp3" unmeasurable_world
    = (Ok d, unmeasurable_world)
    /\ d == 0
    /\ (chosen (strategy_decision Scenario.default_service 10 d) = Direct
        <-> 10 <= max_file_size_mb Scenario.default_service).
Proof.
  apply (zero_duration_counts_as_within_ceiling
           Scenario.healthy Scenario.default_service "lecture.mp3"
           unmeasurable_world 10).
  left. exists "Decoding failed". reflexivity.
Defined.

(** C9, as stated, fails: the probe cannot measure the lecture, the
    orchestrator takes 0 for its duration, finds 0 within the safe ceiling,
    and sends the whole file in one direct call. *)
Lemma probe_failure_selects_direct :
  fst (_get_audio_duration_efficient Scenario.healthy "lecture.mp3" unmeasurable_world)
  = Raise "Decoding failed"
  /\ fst (checked_duration Scenario.healthy "lecture.mp3" unmeasurable_world) = Ok 0
  /\ chosen (strategy_decision Scenario.default_service 10 0) = Direct
  /\ match unmeasurable_run with
     | (Ok r, w') =>
         success r = true /\ total_chunks r = 1%Z /\ api_calls w' = 1%nat
     | _ => False
     end.
Proof.
  vm_compute. repeat split; reflexivity.
Qed.

(** ** File-system operations, as equations *)

Lemma stat_eq (p : string) (w : World) :
  stat p w = (match fs w !! p with
              | Some x => Ok x
              | None => Raise (file_not_found p)
              end, w).
Proof.
  cbv [stat bind get_fs ret raise]. destruct (fs w !! p); reflexivity.
Qed.

Lemma size_mb_eq (p : string) (w : World) :
  size_mb p w = (match fs w !! p with
                 | Some x => Ok (inject_Z (st_size x) / MB)
                 | None => Raise (file_not_found p)
                 end, w).
Proof.
  unfold size_mb, bind. rewrite stat_eq. destruct (fs w !! p); reflexivity.
Qed.

Lemma unlink_missing_ok_eq (p : string) (w : World) :
  unlink_missing_ok p w = (Ok tt, with_fs (delete p (fs w)) w).
Proof. reflexivity. Qed.

Lemma write_file_eq (p : string) (x : File) (w : World) :
  write_file p x w = (Ok tt, with_fs (<[p := x]> (fs w)) w).
Proof. reflexivity. Qed.

Lemma unlink_eq (p : string) (w : World) :
  unlink p w = match fs w !! p with
               | Some _ => (Ok tt, with_fs (delete p (fs w)) w)
               | None => (Raise (file_not_found p), w)
               end.
Proof.
  cbv [unlink bind get_fs set_fs raise with_fs]. destruct (fs w !! p); reflexivity.
Qed.

Lemma rename_eq (src dst : string) (w : World) :
  rename src dst w = match fs w !! src with
                     | Some x => (Ok tt, with_fs (<[dst := x]> (delete src (fs w))) w)
                     | None => (Raise (file_not_found src), w)
                     end.
Proof.
  cbv [rename bind get_fs set_fs raise with_fs]. destruct (fs w !! src); reflexivity.
Qed.

(** ** The executor never hangs and leaves the files alone *)

Lemma sleep_cases (d : Q) (w : World) :
  (exists e, sleep d w = (Raise e, w))
  \/ sleep d w = (Ok tt, {| fs := fs w; api_calls := api_calls w;
                            slept := (slept w ++ [d])%list |}).
Proof.
  unfold sleep. destruct (Qlt_bool d 0); eauto.
Qed.

Lemma retry_loop_returns (env : Env) (svc : TranscriptionService)
      (p : string) (lang prompt : option string) :
  forall (remaining : nat) (a : Z) (w : World),
    fst (retry_loop env svc remaining a p lang prompt w) <> Diverge
    /\ fs (snd (retry_loop env svc remaining a p lang prompt w)) = fs w.
Proof.
  induction remaining as [|r IH]; intros a w.
  - simpl. split; [discriminate | reflexivity].
  - rewrite retry_loop_step.
    destruct (audio_transcription env (api_calls w) p (fs w !! p) lang prompt) as [e|x].
    + destruct ((a <? max_retries svc)%Z && transient e).
      * unfold bind.
        destruct (sleep_cases (base_delay svc * inject_Z (2 ^ a)) (called w))
          as [[e' ->]| ->].
        -- simpl. split; [discriminate | reflexivity].
        -- match goal with
           | |- context [retry_loop env svc r ?a' p lang prompt ?w'] =>
               destruct (IH a' w') as [H1 H2]
           end.
           split; [exact H1 | rewrite H2; reflexivity].
      * simpl. split; [discriminate | reflexivity].
    + simpl. split; [discriminate | reflexivity].
Qed.

(** [_transcribe_direct] always returns (a result, or [None]), whatever the
    client does, and touches no file. *)
Lemma transcribe_direct_returns (env : Env) (svc : TranscriptionService)
      (p : string) (aid lang prompt : option string) (w : World) :
  exists r w',
    _transcribe_direct env svc p aid lang prompt w = (Ok r, w')
    /\ fs w' = fs w.
Proof.
  unfold _transcribe_direct, try_except, bind at 1.
  rewrite size_mb_eq.
  destruct (fs w !! p) as [x|] eqn:Hp; [|eexists; eexists; split; reflexivity].
  unfold bind at 1, _make_api_call_with_retry.
  destruct (retry_loop_returns env svc p lang prompt
              (Z.to_nat (max_retries svc + 1)) 0%Z w) as [Hnd Hfs].
  destruct (retry_loop env svc (Z.to_nat (max_retries svc + 1)) 0 p lang prompt w)
    as [[[r|]|e|] w1]; simpl in Hnd, Hfs.
  - destruct (PyStr.truthy match resp_text r with Some t => t | None => "" end).
    + unfold bind. rewrite size_mb_eq, Hfs, Hp.
      eexists; eexists; split; [reflexivity | exact Hfs].
    + eexists; eexists; split; [reflexivity | exact Hfs].
  - eexists; eexists; split; [reflexivity | exact Hfs].
  - eexists; eexists; split; [reflexivity | exact Hfs].
  - congruence.
Qed.

(** ** Chunked runs *)

(** The loop body adds the outcome of its unit to the accumulators, and
    nothing makes it raise. *)
Lemma process_chunk_spec (env : Env) (svc : TranscriptionService)
      (lang prompt : option string) (i : Z) (c : Chunk)
      (segs : list TranscriptionSegment) (failed : Z) (w : World) :
  process_chunk env svc lang prompt i c (segs, failed) w
  = (Ok ((segs ++ successes [fst (transcribe_unit env svc lang prompt i c w)])%list,
         (failed + failures [fst (transcribe_unit env svc lang prompt i c w)])%Z),
     snd (transcribe_unit env svc lang prompt i c w))
  /\ (forall s, fst (transcribe_unit env svc lang prompt i c w) = Some s ->
        start_time s = chunk_start c /\ end_time s = chunk_end c).
Proof.
  destruct c as [[ca start] stop].
  unfold transcribe_unit, process_chunk, try_except.
  cbv [bind].
  destruct ca as [path|src a b].
  - cbv [ret].
    destruct (transcribe_direct_returns env svc path None lang prompt w)
      as (r & w2 & -> & _).
    rewrite unlink_missing_ok_eq.
    destruct r as [r|]; [|simpl; rewrite app_nil_r; split;
                           [reflexivity | intros s Hs; discriminate]].
    destruct (success r); [destruct (segments r) as [|seg rest]|];
      rewrite ?unlink_missing_ok_eq; cbv [ret]; simpl;
      rewrite ?app_nil_r, ?Z.add_0_r; split; try reflexivity;
      try (intros s Hs; discriminate).
    intros s Hs. inversion Hs; subst. simpl. auto.
  - destruct (pydub_export env src a b) as [f|];
      [|simpl; rewrite app_nil_r; split; [reflexivity | intros s Hs; discriminate]].
    rewrite write_file_eq. cbv [ret].
    destruct (transcribe_direct_returns env svc (chunk_path svc i) None lang prompt
                (with_fs (<[chunk_path svc i := f]> (fs w)) w))
      as (r & w2 & -> & _).
    rewrite unlink_missing_ok_eq.
    destruct r as [r|]; [|simpl; rewrite app_nil_r; split;
                           [reflexivity | intros s Hs; discriminate]].
    destruct (success r); [destruct (segments r) as [|seg rest]|];
      rewrite ?unlink_missing_ok_eq; cbv [ret]; simpl;
      rewrite ?app_nil_r, ?Z.add_0_r; split; try reflexivity;
      try (intros s Hs; discriminate).
    intros s Hs. inversion Hs; subst. simpl. auto.
Qed.

Lemma process_chunks_spec (env : Env) (svc : TranscriptionService)
      (lang prompt : option string) :
  forall (chunks : list Chunk) (i : Z) (segs : list TranscriptionSegment)
         (failed : Z) (w : World),
    process_chunks env svc lang prompt i chunks (segs, failed) w
    = (Ok ((segs ++ successes (fst (unit_outcomes env svc lang prompt i chunks w)))%list,
           (failed + failures (fst (unit_outcomes env svc lang prompt i chunks w)))%Z),
       snd (unit_outcomes env svc lang prompt i chunks w))
    /\ Forall2 (fun c o => forall s, o = Some s ->
                  start_time s = chunk_start c /\ end_time s = chunk_end c)
               chunks (fst (unit_outcomes env svc lang prompt i chunks w)).
Proof.
  induction chunks as [|c rest IH]; intros i segs failed w.
  - simpl. rewrite app_nil_r, Z.add_0_r. split; [reflexivity | constructor].
  - cbn [process_chunks unit_outcomes]. unfold bind.
    destruct (process_chunk_spec env svc lang prompt i c segs failed w) as [-> Hc].
    destruct (transcribe_unit env svc lang prompt i c w) as [o w1].
    cbn [fst snd] in *.
    match goal with
    | |- context [process_chunks env svc lang prompt ?i' rest (?s', ?f') w1] =>
        destruct (IH i' s' f' w1) as [-> Hrest]
    end.
    destruct (unit_outcomes env svc lang prompt (i + 1) rest w1) as [os w2].
    cbn [fst snd] in *. split.
    + destruct o; simpl; rewrite <- ?app_assoc, ?app_nil_r; simpl;
        do 3 f_equal; lia.
    + constructor; assumption.
Qed.

(** *** Order of the units *)

(** Sorting segments that are in order already changes nothing. *)
Lemma sorted_by_start_id (segs : list TranscriptionSegment) :
  StronglySorted le_start segs -> sorted_by_start segs = segs.
Proof.
  induction 1 as [|x l Hl IH Hx]; [reflexivity|].
  unfold sorted_by_start in *. cbn [fold_right]. rewrite IH.
  destruct l as [|y r]; [reflexivity|].
  cbn [insert_by_start].
  apply Forall_cons in Hx. destruct Hx as [Hxy _].
  apply Qle_bool_iff in Hxy. rewrite Hxy. reflexivity.
Qed.

Lemma successes_bounded (b : Q) (chunks : list Chunk)
      (outcomes : list (option TranscriptionSegment)) :
  Forall2 (fun c o => forall s, o = Some s ->
             start_time s = chunk_start c /\ end_time s = chunk_end c)
          chunks outcomes ->
  Forall (fun c => b <= chunk_start c) chunks ->
  Forall (fun s => b <= start_time s) (successes outcomes).
Proof.
  induction 1 as [|c o cs os Hco _ IH]; intros Hb; [constructor|].
  apply Forall_cons in Hb. destruct Hb as [Hc Hcs].
  destruct o as [s|]; simpl; [|auto].
  constructor; [|auto].
  destruct (Hco s eq_refl) as [-> _]. exact Hc.
Qed.

Lemma successes_sorted (chunks : list Chunk)
      (outcomes : list (option TranscriptionSegment)) :
  Forall2 (fun c o => forall s, o = Some s ->
             start_time s = chunk_start c /\ end_time s = chunk_end c)
          chunks outcomes ->
  starts_sorted chunks ->
  StronglySorted le_start (successes outcomes).
Proof.
  induction 1 as [|c o cs os Hco Hrest IH]; intros Hs; [constructor|].
  apply StronglySorted_cons in Hs. destruct Hs as [Hc Hcs].
  destruct o as [s|]; simpl; [|auto].
  constructor; [auto|].
  destruct (Hco s eq_refl) as [Hstart _].
  unfold le_start. rewrite Hstart.
  eapply successes_bounded; eauto.
Qed.

Lemma starts_sorted_snoc (chunks : list Chunk) (c : Chunk) :
  starts_sorted chunks ->
  Forall (fun x => chunk_start x <= chunk_start c) chunks ->
  starts_sorted (chunks ++ [c]).
Proof.
  intros Hs Hb. apply StronglySorted_app_2.
  - intros x1 x2 H1 H2. apply list_elem_of_singleton in H2. subst x2.
    rewrite Forall_forall in Hb. apply Hb. exact H1.
  - exact Hs.
  - repeat constructor.
Qed.

Lemma pydub_loop_sorted (audio : File) (len cd ov : Z) :
  forall (fuel : nat) (pos : Z) (chunks cs : list Chunk) (w w' : World),
    (0 < cd - ov)%Z \/ fuel = O ->
    starts_sorted chunks ->
    Forall (fun c => chunk_start c <= inject_Z pos / 1000) chunks ->
    pydub_loop fuel audio len cd ov pos chunks w = (Ok cs, w') ->
    starts_sorted cs.
Proof.
  induction fuel as [|fuel IH]; intros pos chunks cs w w' Hstep Hs Hb Hrun.
  - simpl in Hrun. destruct (pos <? len)%Z; [discriminate|].
    inversion Hrun; subst. exact Hs.
  - destruct Hstep as [Hstep|]; [|discriminate].
    cbn [pydub_loop] in Hrun. destruct (pos <? len)%Z.
    + eapply IH in Hrun; eauto.
      * apply starts_sorted_snoc; [exact Hs|]. exact Hb.
      * apply Forall_app. split.
        -- eapply Forall_impl; [exact Hb|]. intros c Hc. simpl in Hc.
           eapply Qle_trans; [exact Hc|].
           apply Qmult_le_compat_r; [|discriminate].
           rewrite <- Zle_Qle. lia.
        -- constructor; [|constructor]. unfold chunk_start. simpl.
           apply Qmult_le_compat_r; [|discriminate].
           rewrite <- Zle_Qle. lia.
    + inversion Hrun; subst. exact Hs.
Qed.

Lemma fallback_sorted (svc : TranscriptionService) (p : string) (total : Q)
      (cs : list Chunk) (w w' : World) :
  _create_intelligent_chunks_pydub_fallback svc p total w = (Ok cs, w') ->
  starts_sorted cs.
Proof.
  unfold _create_intelligent_chunks_pydub_fallback, bind. rewrite stat_eq.
  destruct (fs w !! p) as [x|]; [|discriminate].
  destruct (pydub_decode x) as [e|len]; [discriminate|].
  intros Hrun. eapply pydub_loop_sorted in Hrun; eauto.
  - unfold pydub_fuel.
    destruct (0 <? py_int (chunk_duration svc * 1000) - py_int (chunk_overlap svc * 1000))%Z
      eqn:E; [left; apply Z.ltb_lt; exact E | right; reflexivity].
  - constructor.
Qed.

Lemma chunk_loop_sorted (env : Env) (svc : TranscriptionService) (p : string)
      (total d o : Q) (n : Z) :
  0 <= d - o ->
  forall (fuel : nat) (pos : Q) (idx : Z) (chunks cs : list Chunk) (w w' : World),
    starts_sorted chunks ->
    Forall (fun c => chunk_start c <= pos) chunks ->
    chunk_loop env svc fuel p total n d o pos idx chunks w = (Ok cs, w') ->
    starts_sorted cs.
Proof.
  intros Hstep.
  induction fuel as [|fuel IH]; intros pos idx chunks cs w w' Hs Hb Hrun.
  - simpl in Hrun. destruct (Qlt_bool pos total); [discriminate|].
    inversion Hrun; subst. exact Hs.
  - cbn [chunk_loop] in Hrun.
    destruct (Qlt_bool pos total); [|inversion Hrun; subst; exact Hs].
    destruct (Qlt_bool (Qmin (pos + d) total - pos) 1);
      [inversion Hrun; subst; exact Hs|].
    destruct (which_ffmpeg env); [|eapply fallback_sorted; exact Hrun].
    unfold bind at 1 in Hrun.
    destruct (run_ffmpeg_clip env p pos (Qmin (pos + d) total - pos) (chunk_path svc idx) w)
      as [[[|]|e|] w1]; try discriminate; [|inversion Hrun; subst; exact Hs].
    assert (Hs' : starts_sorted
                    (chunks ++ [(FFmpegChunk (chunk_path svc idx), pos,
                                 Qmin (pos + d) total)])).
    { apply starts_sorted_snoc; [exact Hs | exact Hb]. }
    destruct (idx + 1 >=? n)%Z; [inversion Hrun; subst; exact Hs'|].
    eapply IH in Hrun; eauto.
    apply Forall_app. split.
    + eapply Forall_impl; [exact Hb|]. intros c Hc. simpl in Hc.
      destruct (idx + 1 <? n - 1)%Z; lra.
    + constructor; [|constructor]. unfold chunk_start. simpl.
      destruct (idx + 1 <? n - 1)%Z; lra.
Qed.

(** Whatever the planner returns is in order of start. *)
Lemma planner_sorted (env : Env) (svc : TranscriptionService) (p : string)
      (total L : Q) (cs : list Chunk) (w w' : World) :
  0 < L ->
  _create_intelligent_chunks_ffmpeg env svc p total L w = (Ok cs, w') ->
  starts_sorted cs.
Proof.
  intros HL Hrun. unfold _create_intelligent_chunks_ffmpeg in Hrun.
  destruct (Qeq_bool L 0); [discriminate|].
  destruct (chunks_needed_for total L =? 0)%Z; [discriminate|].
  destruct (Qlt_le_dec 0 total) as [Ht|Ht].
  - eapply chunk_loop_sorted in Hrun; eauto; try constructor.
    fold (optimal_chunk_duration total L).
    destruct (optimal_chunk_duration_facts total L HL Ht) as (Hd & _ & _).
    destruct (overlap_for_cases (optimal_chunk_duration total L)) as [[Hbig ->]|[_ ->]]; lra.
  - cbn [chunk_loop] in Hrun.
    apply Qlt_bool_false_iff in Ht. rewrite Ht in Hrun.
    inversion Hrun; subst. constructor.
Qed.

(** *** Assembly *)

Lemma map_filter_comm {A B : Type} (f : A -> B) (g : B -> bool) (l : list A) :
  map f (List.filter (fun x => g (f x)) l) = List.filter g (map f l).
Proof.
  induction l as [|x l IH]; [reflexivity|].
  simpl. destruct (g (f x)); simpl; rewrite IH; reflexivity.
Qed.

(** For segments in order, the assembler returns their trimmed, non-empty
    texts joined by single spaces: nothing else is put in. *)
Lemma assemble_sorted (segs : list TranscriptionSegment) :
  StronglySorted le_start segs ->
  _assemble_transcript_from_segments segs = joined_texts segs.
Proof.
  intros Hs. unfold _assemble_transcript_from_segments, joined_texts.
  destruct segs as [|s rest]; [reflexivity|].
  rewrite (sorted_by_start_id _ Hs).
  rewrite (map_filter_comm (fun s => PyStr.strip (text s)) PyStr.truthy).
  reflexivity.
Qed.

Lemma some_success_iff (outcomes : list (option TranscriptionSegment)) :
  (0 <? length (successes outcomes))%nat = true
  <-> exists s, In (Some s) outcomes.
Proof.
  induction outcomes as [|[s|] os IH]; simpl.
  - split; [discriminate | intros [s []]].
  - split; [intros _; exists s; auto | reflexivity].
  - rewrite IH. split.
    + intros [s Hs]. exists s. auto.
    + intros [s [Hs|Hs]]; [discriminate | exists s; exact Hs].
Qed.

Lemma failures_count (outcomes : list (option TranscriptionSegment)) :
  (failures outcomes + Z.of_nat (length (successes outcomes))
   = Z.of_nat (length outcomes))%Z.
Proof.
  induction outcomes as [|[s|] os IH]; simpl length; cbn [failures]; lia.
Qed.

(** C4. Once a chunked run has planned its units, every unit is processed,
    whatever happens to the others: the result counts all units in
    [total_chunks] and the failed ones in [failed_chunks]; [success] is true
    exactly when at least one unit succeeded; [segments] are those of the
    successful units in sequence order; and the transcript is their
    trimmed, non-empty texts in that order, joined by single spaces, with
    nothing in the place of a failed unit. *)
Theorem chunked_run_partial_failure :
  forall (env : Env) (svc : TranscriptionService) (p : string)
         (aid lang prompt : option string) (w : World)
         (total : Q) (chunks : list Chunk),
    fst (_get_audio_duration_efficient env p w) = Ok total ->
    fst (_create_intelligent_chunks_ffmpeg env svc p total effective_duration_limit w)
    = Ok chunks ->
    let planned_world :=
      snd (_create_intelligent_chunks_ffmpeg env svc p total effective_duration_limit w) in
    let outcomes := fst (unit_outcomes env svc lang prompt 0 chunks planned_world) in
    exists r : TranscriptionResult,
      _transcribe_chunked env svc p aid lang prompt w
      = (Ok r, snd (unit_outcomes env svc lang prompt 0 chunks planned_world))
      /\ length outcomes = length chunks
      /\ total_chunks r = Z.of_nat (length chunks)
      /\ failed_chunks r = failures outcomes
      /\ (failed_chunks r + Z.of_nat (length (segments r)) = total_chunks r)%Z
      /\ segments r = successes outcomes
      /\ (success r = true <-> exists s, In (Some s) outcomes)
      /\ full_transcript r = joined_texts (successes outcomes)
      /\ error_message r = None.
Proof.
  intros env svc p aid lang prompt w total chunks Hprobe Hplan w1 outcomes.
  assert (Hprobe' : _get_audio_duration_efficient env p w = (Ok total, w)).
  { pose proof (probe_keeps_world env p w) as Hw.
    destruct (_get_audio_duration_efficient env p w) as [r w0].
    simpl in *. subst. reflexivity. }
  assert (Hplan' : _create_intelligent_chunks_ffmpeg env svc p total
                     effective_duration_limit w = (Ok chunks, w1)).
  { subst w1.
    destruct (_create_intelligent_chunks_ffmpeg env svc p total effective_duration_limit w)
      as [r w0]. simpl in *. subst. reflexivity. }
  assert (Hn : (chunks_needed_for total effective_duration_limit =? 0)%Z = false).
  { unfold _create_intelligent_chunks_ffmpeg in Hplan'.
    destruct (Qeq_bool effective_duration_limit 0); [discriminate|].
    destruct (chunks_needed_for total effective_duration_limit =? 0)%Z;
      [discriminate | reflexivity]. }
  destruct (process_chunks_spec env svc lang prompt chunks 0%Z [] 0%Z w1)
    as [Hloop Hunits].
  fold outcomes in Hloop, Hunits.
  assert (Hsorted : StronglySorted le_start (successes outcomes)).
  { eapply successes_sorted; [exact Hunits|].
    eapply planner_sorted; [|exact Hplan']. vm_compute. reflexivity. }
  eexists. split.
  - unfold _transcribe_chunked, try_except, bind.
    rewrite Hprobe', Hplan', Hn, Hloop. cbn [app]. reflexivity.
  - cbn [total_chunks failed_chunks segments success full_transcript error_message].
    apply Forall2_length in Hunits.
    repeat split.
    + symmetry. exact Hunits.
    + rewrite Z.add_0_l, Hunits. apply failures_count.
    + apply some_success_iff.
    + apply some_success_iff.
    + apply assemble_sorted. exact Hsorted.
Qed.

(** Three units, the second rejected: the first and the third make the
    transcript. *)
Lemma chunked_run_partial_failure_witness :
  let planned_world :=
    snd (_create_intelligent_chunks_ffmpeg
           second_unit_rejected Scenario.default_service "talk.mp3" 900
           effective_duration_limit quarter_hour_world) in
  let outcomes :=
    fst (unit_outcomes second_unit_rejected Scenario.default_service None None 0
                       quarter_hour_chunks planned_world) in
  exists r : TranscriptionResult,
    _transcribe_chunked second_unit_rejected Scenario.default_service "talk.mp3"
                        (Some "talk") None None quarter_hour_world
    = (Ok r, snd (unit_outcomes second_unit_rejected Scenario.default_service None None 0
                                quarter_hour_chunks planned_world))
    /\ length outcomes = length quarter_hour_chunks
    /\ total_chunks r = Z.of_nat (length quarter_hour_chunks)
    /\ failed_chunks r = failures outcomes
    /\ (failed_chunks r + Z.of_nat (length (segments r)) = total_chunks r)%Z
    /\ segments r = successes outcomes
    /\ (success r = true <-> exists s, In (Some s) outcomes)
    /\ full_transcript r = joined_texts (successes outcomes)
    /\ error_message r = None.
Proof.
  apply (chunked_run_partial_failure
           second_unit_rejected Scenario.default_service "talk.mp3"
           (Some "talk") None None quarter_hour_world 900 quarter_hour_chunks).
  - reflexivity.
  - vm_compute. reflexivity.
Defined.

(** The scenario of the specification: of three units the second fails for
    good; the run succeeds, counts one failure, and its transcript is the
    text of the first unit, a space, and the text of the third. *)
Lemma second_of_three_units_fails :
  match _transcribe_chunked second_unit_rejected Scenario.default_service "talk.mp3"
                            (Some "talk") None None quarter_hour_world with
  | (Ok r, _) =>
      success r = true /\ total_chunks r = 3%Z /\ failed_chunks r = 1%Z
      /\ full_transcript r = "unit 0 unit 2" /\ error_message r = None
  | _ => False
  end.
Proof.
  vm_compute. repeat split; reflexivity.
Qed.

(** ** Termination *)

Lemma halts_ret {A : Type} (a : A) : halts (ret a).
Proof. intros w. discriminate. Qed.

Lemma halts_raise {A : Type} (e : exn) : halts (@raise A e).
Proof. intros w. discriminate. Qed.

Lemma halts_bind {A B : Type} (m : M A) (k : A -> M B) :
  halts m -> (forall a, halts (k a)) -> halts (bind m k).
Proof.
  intros Hm Hk w. unfold bind. specialize (Hm w).
  destruct (m w) as [[a|e|] w1]; simpl in *;
    [apply Hk | discriminate | congruence].
Qed.

Lemma halts_try_except {A : Type} (m : M A) (h : exn -> M A) :
  halts m -> (forall e, halts (h e)) -> halts (try_except m h).
Proof.
  intros Hm Hh w. unfold try_except. specialize (Hm w).
  destruct (m w) as [[a|e|] w1]; simpl in *;
    [discriminate | apply Hh | congruence].
Qed.

Lemma halts_get_fs : halts get_fs.
Proof. intros w. discriminate. Qed.

Lemma halts_set_fs (f : gmap string File) : halts (set_fs f).
Proof. intros w. discriminate. Qed.

Lemma halts_sleep (d : Q) : halts (sleep d).
Proof. intros w. unfold sleep. destruct (Qlt_bool d 0); discriminate. Qed.

Create HintDb halts.
#[export] Hint Resolve halts_ret halts_raise halts_get_fs halts_set_fs halts_sleep : halts.

(** Takes a computation apart along its binds, handlers and case
    distinctions. *)
Ltac halts_step :=
  match goal with
  | |- halts (bind _ _) => apply halts_bind; [|intros ?]
  | |- halts (try_except _ _) => apply halts_try_except; [|intros ?]
  | |- halts (match ?x with _ => _ end) => destruct x
  | |- halts (let (_, _) := ?x in _) => destruct x
  | |- halts _ => solve [eauto with halts]
  end.

Ltac halts_auto := repeat halts_step.

Lemma halts_stat (p : string) : halts (stat p).
Proof. unfold stat. halts_auto. Qed.

Lemma halts_size_mb (p : string) : halts (size_mb p).
Proof. unfold size_mb. halts_auto. apply halts_stat. Qed.

Lemma halts_exists (p : string) : halts (exists_ p).
Proof. unfold exists_. halts_auto. Qed.

Lemma halts_unlink (p : string) : halts (unlink p).
Proof. unfold unlink. halts_auto. Qed.

Lemma halts_unlink_missing_ok (p : string) : halts (unlink_missing_ok p).
Proof. unfold unlink_missing_ok. halts_auto. Qed.

Lemma halts_rename (src dst : string) : halts (rename src dst).
Proof. unfold rename. halts_auto. Qed.

Lemma halts_write_file (p : string) (x : File) : halts (write_file p x).
Proof. unfold write_file. halts_auto. Qed.

#[export] Hint Resolve halts_stat halts_size_mb halts_exists halts_unlink
  halts_unlink_missing_ok halts_rename halts_write_file : halts.

Lemma halts_probe (env : Env) (p : string) : halts (_get_audio_duration_efficient env p).
Proof. intros w. apply probe_never_diverges. Qed.

Lemma halts_transcribe_direct (env : Env) (svc : TranscriptionService)
      (p : string) (aid lang prompt : option string) :
  halts (_transcribe_direct env svc p aid lang prompt).
Proof.
  intros w.
  destruct (transcribe_direct_returns env svc p aid lang prompt w) as (r & w' & -> & _).
  discriminate.
Qed.

#[export] Hint Resolve halts_probe halts_transcribe_direct : halts.

Lemma halts_process_chunks (env : Env) (svc : TranscriptionService)
      (lang prompt : option string) (i : Z) (chunks : list Chunk)
      (acc : list TranscriptionSegment * Z) :
  halts (process_chunks env svc lang prompt i chunks acc).
Proof.
  intros w. destruct acc as [segs failed].
  destruct (process_chunks_spec env svc lang prompt chunks i segs failed w) as [-> _].
  discriminate.
Qed.

Lemma halts_run_ffmpeg_clip (env : Env) (p : string) (s d : Q) (out : string) :
  halts (run_ffmpeg_clip env p s d out).
Proof. unfold run_ffmpeg_clip. halts_auto. Qed.

#[export] Hint Resolve halts_process_chunks halts_run_ffmpeg_clip : halts.

(** The fallback loop ends when its step is positive and enough fuel is
    left for the distance to the end. *)
Lemma pydub_loop_halts (audio : File) (len cd ov : Z) :
  (0 < cd - ov)%Z ->
  forall (fuel : nat) (pos : Z) (chunks : list Chunk) (w : World),
    (len - pos < Z.of_nat fuel * (cd - ov))%Z ->
    fst (pydub_loop fuel audio len cd ov pos chunks w) <> Diverge.
Proof.
  intros Hstep. induction fuel as [|fuel IH]; intros pos chunks w Hfuel.
  - simpl. destruct (pos <? len)%Z eqn:E; [|discriminate].
    apply Z.ltb_lt in E. lia.
  - cbn [pydub_loop]. destruct (pos <? len)%Z; [|discriminate].
    apply IH. lia.
Qed.

Lemma halts_fallback (svc : TranscriptionService) (p : string) (total : Q) :
  (0 < fallback_step svc)%Z ->
  halts (_create_intelligent_chunks_pydub_fallback svc p total).
Proof.
  intros Hstep w. unfold _create_intelligent_chunks_pydub_fallback, bind.
  rewrite stat_eq. destruct (fs w !! p) as [x|]; [|discriminate].
  destruct (pydub_decode x) as [e|len]; [discriminate|].
  apply pydub_loop_halts; [exact Hstep|].
  fold (fallback_step svc). unfold pydub_fuel.
  replace (0 <? fallback_step svc)%Z with true by (symmetry; apply Z.ltb_lt; exact Hstep).
  pose proof (Z.mul_succ_div_gt len (fallback_step svc) Hstep) as Hdiv.
  assert (Hq : (len / fallback_step svc + 1 <= Z.of_nat (S (Z.to_nat (len / fallback_step svc))))%Z)
    by lia.
  nia.
Qed.

(** The planner loop never runs out of the fuel it is started with. *)
Lemma chunk_loop_halts (env : Env) (svc : TranscriptionService) (p : string)
      (total d o : Q) (n : Z) :
  (forall t, halts (_create_intelligent_chunks_pydub_fallback svc p t)) ->
  forall (fuel : nat) (pos : Q) (idx : Z) (chunks : list Chunk) (w : World),
    (1 <= fuel)%nat ->
    (Z.to_nat (n - idx) <= fuel)%nat ->
    fst (chunk_loop env svc fuel p total n d o pos idx chunks w) <> Diverge.
Proof.
  intros Hfb. induction fuel as [|fuel IH]; intros pos idx chunks w H1 Hfuel; [lia|].
  cbn [chunk_loop].
  destruct (Qlt_bool pos total); [|discriminate].
  destruct (Qlt_bool (Qmin (pos + d) total - pos) 1); [discriminate|].
  destruct (which_ffmpeg env); [|apply Hfb].
  unfold bind at 1.
  pose proof (halts_run_ffmpeg_clip env p pos (Qmin (pos + d) total - pos)
                (chunk_path svc idx) w) as Hclip.
  destruct (run_ffmpeg_clip env p pos (Qmin (pos + d) total - pos) (chunk_path svc idx) w)
    as [[[|]|e|] w1]; simpl in Hclip; try discriminate; [|congruence].
  destruct (idx + 1 >=? n)%Z eqn:Hdone; [discriminate|].
  rewrite Z.geb_leb in Hdone. apply Z.leb_gt in Hdone.
  apply IH; lia.
Qed.

Lemma halts_planner (env : Env) (svc : TranscriptionService) (p : string) (total L : Q) :
  (0 < fallback_step svc)%Z ->
  halts (_create_intelligent_chunks_ffmpeg env svc p total L).
Proof.
  intros Hstep w. unfold _create_intelligent_chunks_ffmpeg.
  destruct (Qeq_bool L 0); [discriminate|].
  destruct (chunks_needed_for total L =? 0)%Z; [discriminate|].
  apply chunk_loop_halts; [|lia|lia].
  intros t. apply halts_fallback. exact Hstep.
Qed.

Lemma halts_transcribe_chunked (env : Env) (svc : TranscriptionService)
      (p : string) (aid lang prompt : option string) :
  (0 < fallback_step svc)%Z ->
  halts (_transcribe_chunked env svc p aid lang prompt).
Proof.
  intros Hstep. unfold _transcribe_chunked.
  pose proof (halts_planner env svc p) as Hplan.
  halts_auto; try apply Hplan; auto with halts.
Qed.

Lemma halts_replace_by_compressed (svc : TranscriptionService) (p : string) (x : File) :
  halts (replace_by_compressed svc p x).
Proof. unfold replace_by_compressed. halts_auto. Qed.

#[export] Hint Resolve halts_replace_by_compressed : halts.

Lemma halts_compression_fallback (env : Env) (svc : TranscriptionService) (p : string) :
  halts (_try_compression_pydub_fallback env svc p).
Proof. unfold _try_compression_pydub_fallback. halts_auto. Qed.

#[export] Hint Resolve halts_compression_fallback : halts.

Lemma halts_try_compression (env : Env) (svc : TranscriptionService) (p : string) :
  halts (_try_compression env svc p).
Proof. unfold _try_compression. halts_auto. Qed.

Lemma halts_chunking_handles_size (env : Env) (svc : TranscriptionService)
      (p : string) (sz : Q) :
  halts (chunking_handles_size env svc p sz).
Proof. unfold chunking_handles_size. halts_auto. Qed.

#[export] Hint Resolve halts_try_compression halts_chunking_handles_size : halts.

Lemma halts_optimize (env : Env) (svc : TranscriptionService) (p aid : string) (sz : Q) :
  halts (_optimize_audio_file env svc p aid sz).
Proof. unfold _optimize_audio_file. halts_auto. Qed.

Lemma halts_extract (env : Env) (svc : TranscriptionService) (v aid : string) :
  halts (_extract_audio_from_video env svc v aid).
Proof. unfold _extract_audio_from_video. halts_auto. Qed.

#[export] Hint Resolve halts_optimize halts_extract : halts.

Lemma halts_resolve (env : Env) (svc : TranscriptionService) (input : AudioInput) :
  halts (_resolve_audio_input env svc input).
Proof. unfold _resolve_audio_input. halts_auto. Qed.

Lemma halts_cleanup (p : string) : halts (_cleanup_temp_file p).
Proof. unfold _cleanup_temp_file. halts_auto. Qed.

Lemma halts_checked_duration (env : Env) (p : string) : halts (checked_duration env p).
Proof. unfold checked_duration. halts_auto. Qed.

#[export] Hint Resolve halts_resolve halts_cleanup halts_checked_duration : halts.

Lemma halts_transcribe_resolved (env : Env) (svc : TranscriptionService)
      (p aid : string) (lang prompt : option string) :
  (0 < fallback_step svc)%Z ->
  halts (transcribe_resolved env svc p aid lang prompt).
Proof.
  intros Hstep. unfold transcribe_resolved.
  pose proof (halts_transcribe_chunked env svc) as Hchunked.
  halts_auto; try apply Hchunked; auto with halts.
Qed.

Lemma halts_transcribe_audio (env : Env) (svc : TranscriptionService)
      (input : AudioInput) (lang prompt : option string) :
  (0 < fallback_step svc)%Z ->
  halts (transcribe_audio env svc input lang prompt).
Proof.
  intros Hstep. unfold transcribe_audio.
  pose proof (halts_transcribe_resolved env svc) as Hres.
  halts_auto; try apply Hres; auto with halts.
Qed.

(** ** Exceptions stop at the orchestrator *)

Lemma never_raises_ret {A : Type} (a : A) : never_raises (ret a).
Proof. intros w e. discriminate. Qed.

Lemma never_raises_bind {A B : Type} (m : M A) (k : A -> M B) :
  never_raises m -> (forall a, never_raises (k a)) -> never_raises (bind m k).
Proof.
  intros Hm Hk w e. unfold bind. specialize (Hm w).
  destruct (m w) as [[a|e'|] w1]; simpl in *;
    [apply Hk | exfalso; apply (Hm e'); reflexivity | discriminate].
Qed.

(** A handler that returns makes the whole [try] statement safe. *)
Lemma never_raises_try_except {A : Type} (m : M A) (h : exn -> M A) :
  (forall e, never_raises (h e)) -> never_raises (try_except m h).
Proof.
  intros Hh w e. unfold try_except.
  destruct (m w) as [[a|e'|] w1]; simpl; [discriminate | apply Hh | discriminate].
Qed.

Lemma transcribe_audio_never_raises (env : Env) (svc : TranscriptionService)
      (input : AudioInput) (lang prompt : option string) :
  never_raises (transcribe_audio env svc input lang prompt).
Proof.
  unfold transcribe_audio. apply never_raises_bind.
  - apply never_raises_try_except. intros e. apply never_raises_ret.
  - intros [e|[audio_path aid]].
    + apply never_raises_ret.
    + apply never_raises_try_except. intros e. apply never_raises_ret.
Qed.

(** ** Success flag and error message *)

Lemma consistent_failed (aid : option string) (msg : string) :
  consistent (failed_result aid msg).
Proof.
  split; simpl; intros; discriminate.
Qed.

(** A direct call that returns a result returns a success without a
    message or a failure with one. *)
Lemma direct_result_shape (env : Env) (svc : TranscriptionService)
      (p : string) (aid lang prompt : option string) (w w' : World)
      (r : TranscriptionResult) :
  _transcribe_direct env svc p aid lang prompt w = (Ok (Some r), w') ->
  (success r = true /\ error_message r = None)
  \/ (success r = false /\ is_Some (error_message r)).
Proof.
  unfold _transcribe_direct, try_except, bind. rewrite size_mb_eq. intros Hrun.
  destruct (fs w !! p) as [x|];
    [|cbv [ret] in Hrun; inversion Hrun; subst; simpl; eauto].
  destruct (_make_api_call_with_retry env svc p lang prompt w) as [[[resp|]|e|] w1];
    try discriminate;
    try (cbv [ret] in Hrun; inversion Hrun; subst; simpl; eauto; fail).
  destruct (PyStr.truthy match resp_text resp with Some t => t | None => "" end);
    [|discriminate].
  rewrite size_mb_eq in Hrun.
  destruct (fs w1 !! p) as [y|];
    cbv [ret] in Hrun; inversion Hrun; subst; simpl; eauto.
Qed.

(** A chunked run that returns: either its handler built a failure with a
    message, or the units were processed and the result has no message. *)
Lemma chunked_result_shape (env : Env) (svc : TranscriptionService)
      (p : string) (aid lang prompt : option string) (w w' : World)
      (r : TranscriptionResult) :
  _transcribe_chunked env svc p aid lang prompt w = (Ok r, w') ->
  consistent r.
Proof.
  unfold _transcribe_chunked, try_except, bind. intros Hrun.
  destruct (_get_audio_duration_efficient env p w) as [[total|e|] w1];
    [| inversion Hrun; apply consistent_failed | discriminate].
  destruct (_create_intelligent_chunks_ffmpeg env svc p total effective_duration_limit w1)
    as [[chunks|e|] w2];
    [| inversion Hrun; apply consistent_failed | discriminate].
  destruct (chunks_needed_for total effective_duration_limit =? 0)%Z;
    [inversion Hrun; apply consistent_failed|].
  destruct (process_chunks_spec env svc lang prompt chunks 0%Z [] 0%Z w2) as [Hloop Hunits].
  rewrite Hloop in Hrun. cbv [ret] in Hrun. inversion Hrun; subst; clear Hrun.
  apply Forall2_length in Hunits.
  set (outcomes := fst (unit_outcomes env svc lang prompt 0 chunks w2)) in *.
  split; simpl; [reflexivity|].
  intros Hnone _.
  destruct (successes outcomes) as [|s rest] eqn:Hsucc; [|discriminate].
  pose proof (failures_count outcomes) as Hcount. rewrite Hsucc in Hcount.
  simpl in Hcount. repeat split. lia.
Qed.

Lemma resolved_result_shape (env : Env) (svc : TranscriptionService)
      (p aid : string) (lang prompt : option string) (w w' : World)
      (r : TranscriptionResult) :
  transcribe_resolved env svc p aid lang prompt w = (Ok r, w') ->
  consistent r.
Proof.
  unfold transcribe_resolved, bind. intros Hrun.
  destruct (exists_ p w) as [[ex|e|] w0]; try discriminate.
  destruct (negb ex).
  { inversion Hrun. apply consistent_failed. }
  destruct (size_mb p w0) as [[sz|e|] w1]; try discriminate.
  destruct (_optimize_audio_file env svc p aid sz w1) as [[[op opt]|e|] w2];
    try discriminate.
  destruct (size_mb op w2) as [[fsz|e|] w3]; try discriminate.
  destruct (checked_duration env op w3) as [[d|e|] w4]; try discriminate.
  assert (Hshape : forall r0 w5,
             match chosen (strategy_decision svc fsz d) with
             | Direct => _transcribe_direct env svc op (Some aid) lang prompt
             | Chunked =>
                 bind (_transcribe_chunked env svc op (Some aid) lang prompt)
                      (fun r => ret (Some r))
             end w4 = (Ok (Some r0), w5) -> consistent r0).
  { intros r0 w5 H. destruct (chosen (strategy_decision svc fsz d)).
    - apply direct_result_shape in H.
      destruct H as [[Hs He]|[Hs [m He]]]; split; intros; congruence.
    - unfold bind in H.
      destruct (_transcribe_chunked env svc op (Some aid) lang prompt w4)
        as [[r1|e|] w6] eqn:Hc; try discriminate.
      cbv [ret] in H. inversion H; subst.
      eapply chunked_result_shape; eauto. }
  unfold bind in Hshape.
  destruct (match chosen (strategy_decision svc fsz d) with
            | Direct => _transcribe_direct env svc op (Some aid) lang prompt
            | Chunked =>
                fun w => let (r, w') := _transcribe_chunked env svc op (Some aid) lang prompt w in
                         match r with
                         | Ok a => ret (Some a) w'
                         | Raise e => (Raise e, w')
                         | Diverge => (Diverge, w')
                         end
            end w4) as [[[r0|]|e|] w5] eqn:Hcall; try discriminate.
  specialize (Hshape r0 w5 eq_refl).
  destruct ((if (op =? p)%string then ret tt else _cleanup_temp_file op) w5)
    as [[[]|e|] w6]; try discriminate.
  cbv [ret] in Hrun. inversion Hrun; subst.
  destruct Hshape as [H1 H2]. split; simpl; auto.
Qed.

(** Every result of the pipeline is consistent in that sense. *)
Lemma audio_result_consistent (env : Env) (svc : TranscriptionService)
      (input : AudioInput) (lang prompt : option string) (w w' : World)
      (r : TranscriptionResult) :
  transcribe_audio env svc input lang prompt w = (Ok r, w') ->
  consistent r.
Proof.
  intros Hrun.
  unfold transcribe_audio, bind, try_except in Hrun.
  destruct (_resolve_audio_input env svc input w) as [[[p aid]|e|] w1];
    cbv [ret] in Hrun; try discriminate.
  - destruct (transcribe_resolved env svc p aid lang prompt w1) as [[r1|e|] w2] eqn:Hres;
      try discriminate.
    + inversion Hrun; subst. eapply resolved_result_shape; eauto.
    + inversion Hrun. apply consistent_failed.
  - inversion Hrun. apply consistent_failed.
Qed.






(** A video that is not there: resolving the input raises, and the caller
    gets a failure that says so. *)
Lemma missing_video_is_reported :
  fst (transcribe_audio Scenario.healthy Scenario.default_service
                        (InputStr "lecture.mp4") None None unmeasurable_world)
  = Ok (failed_result
          (Some "unknown")
          "Transcription failed: [Errno 2] No such file or directory: 'lecture.mp4'").
Proof. vm_compute. reflexivity. Qed.


(** Without a fallback planner that advances there may be no result at
    all: with an overlap as long as the chunk, and no ffmpeg, the run on the
    15-minute file never ends. *)
Lemma stuck_fallback_never_returns :
  fallback_step stuck_service = 0%Z
  /\ fst (transcribe_audio (Scenario.without_ffmpeg Scenario.healthy) stuck_service
                           (InputStr "talk.mp3") None None quarter_hour_world)
     = Diverge.
Proof. vm_compute. split; reflexivity. Qed.

(** ** Compression replaces the audio file *)

(** The end of a compression either raises or leaves the compressed copy in
    the place of the original. *)
Lemma replace_by_compressed_cases (svc : TranscriptionService) (p : string)
      (x c : File) (w : World) :
  fs w !! compressed_path svc p = Some c ->
  (exists e w', replace_by_compressed svc p x w = (Raise e, w'))
  \/ (compressed_path svc p <> p
      /\ is_Some (fs w !! p)
      /\ replace_by_compressed svc p x w
         = (Ok (Some p),
            with_fs (<[p := c]> (delete (compressed_path svc p) (delete p (fs w)))) w)).
Proof.
  intros Htemp. unfold replace_by_compressed, bind.
  rewrite size_mb_eq, Htemp.
  destruct (st_size x =? 0)%Z; [left; eexists; eexists; reflexivity|].
  rewrite unlink_eq.
  destruct (fs w !! p) as [y|] eqn:Hp; [|left; eexists; eexists; reflexivity].
  rewrite rename_eq. cbn [fs with_fs].
  destruct (decide (compressed_path svc p = p)) as [Heq|Hne].
  - rewrite Heq, lookup_delete_eq. left; eexists; eexists; reflexivity.
  - rewrite lookup_delete_ne by congruence. rewrite Htemp.
    right. split; [exact Hne|]. split; [eauto|]. reflexivity.
Qed.

(** The pydub path of the compression: it returns [None], or it has put
    pydub's output in the place of the file. *)
Lemma compression_fallback_cases (env : Env) (svc : TranscriptionService)
      (p : string) (w : World) res w' :
  _try_compression_pydub_fallback env svc p w = (res, w') ->
  res = Ok None
  \/ (exists x c,
        fs w !! p = Some x
        /\ pydub_compress env x = Some c
        /\ compressed_path svc p <> p
        /\ res = Ok (Some p)
        /\ w' = with_fs (fs_after_compression svc p c (fs w)) w).
Proof.
  unfold _try_compression_pydub_fallback, try_except, bind at 1.
  rewrite stat_eq.
  destruct (fs w !! p) as [x|] eqn:Hp; [|intros H; inversion H; auto].
  destruct (pydub_compress env x) as [c|] eqn:Hc; [|intros H; inversion H; auto].
  unfold bind. rewrite write_file_eq.
  destruct (replace_by_compressed_cases svc p x c
              (with_fs (<[compressed_path svc p := c]> (fs w)) w))
    as [(e & w0 & ->)|(Hne & _ & ->)].
  - cbn [fs with_fs]. apply lookup_insert_eq.
  - intros H; inversion H; auto.
  - intros H; inversion H; subst. right. exists x, c. repeat split; auto.
Qed.

(** [_try_compression] returns a path only when it has put the output of
    ffmpeg, or of pydub, in the place of the file; and the path it returns
    is the path it was given. *)
Lemma try_compression_success (env : Env) (svc : TranscriptionService)
      (p cp : string) (w w1 : World) :
  _try_compression env svc p w = (Ok (Some cp), w1) ->
  cp = p
  /\ compressed_path svc p <> p
  /\ exists x c,
      fs w !! p = Some x
      /\ (ffmpeg_compress env x = ToolWrites c \/ pydub_compress env x = Some c)
      /\ w1 = with_fs (fs_after_compression svc p c (fs w)) w.
Proof.
  unfold _try_compression, try_except, bind at 1.
  rewrite stat_eq. intros Hrun.
  assert (Hfallback :
            _try_compression_pydub_fallback env svc p w = (Ok (Some cp), w1) ->
            cp = p /\ compressed_path svc p <> p
            /\ exists x c, fs w !! p = Some x
                           /\ (ffmpeg_compress env x = ToolWrites c
                               \/ pydub_compress env x = Some c)
                           /\ w1 = with_fs (fs_after_compression svc p c (fs w)) w).
  { intros Hfb.
    destruct (compression_fallback_cases env svc p w _ _ Hfb)
      as [Hnone|(x & c & Hx & Hc & Hne & Hsome & ->)]; [discriminate|].
    inversion Hsome; subst.
    repeat split; auto. exists x, c. auto. }
  destruct (fs w !! p) as [x|] eqn:Hp; [|apply Hfallback; exact Hrun].
  destruct (which_ffmpeg env); simpl in Hrun.
  2:{ destruct (_try_compression_pydub_fallback env svc p w) as [[[q|]|e|] w2] eqn:Hfb;
        try discriminate.
      - inversion Hrun; subst. apply Hfallback. reflexivity.
      - (* the fallback does not raise *)
        destruct (compression_fallback_cases env svc p w _ _ Hfb)
          as [Hnone|(x' & c & _ & _ & _ & Hsome & _)]; discriminate. }
  destruct (ffmpeg_compress env x) as [e| |c] eqn:Hff.
  - (* ffmpeg could not be run *)
    cbv [raise] in Hrun. apply Hfallback. exact Hrun.
  - discriminate.
  - unfold bind in Hrun. rewrite write_file_eq in Hrun.
    destruct (replace_by_compressed_cases svc p x c
                (with_fs (<[compressed_path svc p := c]> (fs w)) w))
      as [(e & w0 & Hraise)|(Hne & _ & Hok)].
    + cbn [fs with_fs]. apply lookup_insert_eq.
    + (* the end of the ffmpeg path raised: the fallback cannot succeed *)
      rewrite Hraise in Hrun. exfalso.
      destruct (compression_fallback_cases env svc p w0 _ _ Hrun)
        as [Hnone|(x' & c' & Hx' & Hc' & Hne & Hsome & Hw1)]; [discriminate|].
      clear Hsome Hw1.
      unfold replace_by_compressed, bind in Hraise.
      rewrite size_mb_eq in Hraise. cbn [fs with_fs] in Hraise.
      rewrite lookup_insert_eq in Hraise.
      destruct (st_size x =? 0)%Z eqn:Hzero.
      * (* an empty original: it is still there, and still empty *)
        cbv [raise] in Hraise. inversion Hraise; subst w0. clear Hraise.
        cbn [fs with_fs] in Hx'.
        rewrite lookup_insert_ne in Hx' by exact Hne.
        assert (x' = x) by congruence. subst x'.
        unfold _try_compression_pydub_fallback, try_except, bind at 1 in Hrun.
        rewrite stat_eq in Hrun. cbn [fs with_fs] in Hrun.
        rewrite lookup_insert_ne, Hp, Hc' in Hrun by exact Hne.
        unfold bind at 1 in Hrun. rewrite write_file_eq in Hrun.
        unfold replace_by_compressed, bind at 1 in Hrun.
        rewrite size_mb_eq in Hrun. cbn [fs with_fs] in Hrun.
        rewrite lookup_insert_eq, Hzero in Hrun. discriminate.
      * rewrite unlink_eq in Hraise. cbn [fs with_fs] in Hraise.
        rewrite lookup_insert_ne, Hp in Hraise by exact Hne.
        rewrite rename_eq in Hraise. cbn [fs with_fs] in Hraise.
        rewrite lookup_delete_ne, lookup_insert_eq in Hraise by congruence.
        discriminate.
    + rewrite Hok in Hrun. inversion Hrun; subst.
      repeat split; auto. exists x, c. repeat split; auto.
Qed.

(** ** Which files a run touches *)

Lemma same_outside_chunks_refl (svc : TranscriptionService) (w : World) :
  same_outside_chunks svc w w.
Proof. intros q _. reflexivity. Qed.

Lemma same_outside_chunks_trans (svc : TranscriptionService) (w1 w2 w3 : World) :
  same_outside_chunks svc w1 w2 -> same_outside_chunks svc w2 w3 ->
  same_outside_chunks svc w1 w3.
Proof.
  intros H12 H23 q Hq. rewrite (H23 q Hq). apply H12. exact Hq.
Qed.

Lemma same_outside_chunks_fs (svc : TranscriptionService) (w w' : World) :
  fs w' = fs w -> same_outside_chunks svc w w'.
Proof. intros H q _. rewrite H. reflexivity. Qed.

Lemma same_outside_chunks_write (svc : TranscriptionService) (w : World) (i : Z) (x : File) :
  same_outside_chunks svc w (with_fs (<[chunk_path svc i := x]> (fs w)) w).
Proof.
  intros q Hq. cbn [fs with_fs]. apply lookup_insert_ne. intros H. apply (Hq i). auto.
Qed.

Lemma same_outside_chunks_delete (svc : TranscriptionService) (w : World) (i : Z) :
  same_outside_chunks svc w (with_fs (delete (chunk_path svc i) (fs w)) w).
Proof.
  intros q Hq. cbn [fs with_fs]. apply lookup_delete_ne. intros H. apply (Hq i). auto.
Qed.

Lemma pydub_loop_world (audio : File) (len cd ov : Z) :
  forall (fuel : nat) (pos : Z) (chunks : list Chunk) (w : World),
    snd (pydub_loop fuel audio len cd ov pos chunks w) = w
    /\ (Forall (fun c => exists a b, fst (fst c) = PydubChunk audio a b) chunks ->
        forall cs, fst (pydub_loop fuel audio len cd ov pos chunks w) = Ok cs ->
                   Forall (fun c => exists a b, fst (fst c) = PydubChunk audio a b) cs).
Proof.
  induction fuel as [|fuel IH]; intros pos chunks w.
  - simpl. destruct (pos <? len)%Z; simpl; split; auto.
    + intros _ cs H. discriminate.
    + intros H cs Hcs. inversion Hcs; subst. exact H.
  - cbn [pydub_loop]. destruct (pos <? len)%Z.
    + match goal with
      | |- context [pydub_loop fuel audio len cd ov ?pos' ?chunks' w] =>
          destruct (IH pos' chunks' w) as [Hw Hcs]
      end.
      split; [exact Hw|]. intros Hall cs Hrun. apply Hcs; [|exact Hrun].
      apply Forall_app. split; [exact Hall|].
      constructor; [|constructor]. simpl. eauto.
    + simpl. split; auto. intros H cs Hcs. inversion Hcs; subst. exact H.
Qed.

(** The fallback planner writes no file, and its chunks are slices. *)
Lemma fallback_frame (svc : TranscriptionService) (p : string) (total : Q)
      (w : World) res w' :
  _create_intelligent_chunks_pydub_fallback svc p total w = (res, w') ->
  w' = w /\ (forall cs, res = Ok cs -> Forall (chunk_in_temp svc) cs).
Proof.
  unfold _create_intelligent_chunks_pydub_fallback, bind. rewrite stat_eq.
  destruct (fs w !! p) as [x|];
    [|intros H; inversion H; split; [reflexivity | intros cs Hcs; discriminate]].
  destruct (pydub_decode x) as [e|len];
    [intros H; inversion H; split; [reflexivity | intros cs Hcs; discriminate]|].
  intros Hrun.
  match type of Hrun with
  | pydub_loop ?fuel ?a ?l ?cd ?ov ?pos ?chunks w = _ =>
      destruct (pydub_loop_world a l cd ov fuel pos chunks w) as [Hw Hcs]
  end.
  rewrite Hrun in Hw, Hcs. simpl in Hw, Hcs. split; [auto|].
  intros cs ->. specialize (Hcs ltac:(constructor) cs eq_refl).
  eapply Forall_impl; [exact Hcs|].
  intros c (a & b & Hc). unfold chunk_in_temp. rewrite Hc. exact I.
Qed.

(** The planner loop writes chunk files only, and its ffmpeg chunks lie at
    chunk paths. *)
Lemma chunk_loop_frame (env : Env) (svc : TranscriptionService) (p : string)
      (total d o : Q) (n : Z) :
  forall (fuel : nat) (pos : Q) (idx : Z) (chunks : list Chunk) (w : World) res w',
    Forall (chunk_in_temp svc) chunks ->
    chunk_loop env svc fuel p total n d o pos idx chunks w = (res, w') ->
    same_outside_chunks svc w w'
    /\ api_calls w' = api_calls w
    /\ (forall cs, res = Ok cs -> Forall (chunk_in_temp svc) cs).
Proof.
  assert (Hstop : forall (chunks : list Chunk) (w : World) res w',
            Forall (chunk_in_temp svc) chunks ->
            (Ok chunks, w) = (res, w') ->
            same_outside_chunks svc w w' /\ api_calls w' = api_calls w
            /\ (forall cs, res = Ok cs -> Forall (chunk_in_temp svc) cs)).
  { intros chunks w res w' Hall H. inversion H; subst.
    split; [apply same_outside_chunks_refl|]. split; [reflexivity|].
    intros cs Hcs. inversion Hcs; subst. exact Hall. }
  induction fuel as [|fuel IH]; intros pos idx chunks w res w' Hall Hrun.
  - simpl in Hrun. destruct (Qlt_bool pos total); [|eapply Hstop; eauto].
    inversion Hrun; subst. split; [apply same_outside_chunks_refl|].
    split; [reflexivity|]. intros cs Hcs; discriminate.
  - cbn [chunk_loop] in Hrun.
    destruct (Qlt_bool pos total); [|eapply Hstop; eauto].
    destruct (Qlt_bool (Qmin (pos + d) total - pos) 1); [eapply Hstop; eauto|].
    destruct (which_ffmpeg env).
    2:{ destruct (fallback_frame svc p total w res w' Hrun) as [-> Hcs].
        split; [apply same_outside_chunks_refl|]. split; [reflexivity | exact Hcs]. }
    unfold bind at 1, run_ffmpeg_clip, bind at 1, get_fs in Hrun.
    destruct (fs w !! p) as [x|]; [|eapply Hstop; eauto].
    destruct (ffmpeg_clip env x pos (Qmin (pos + d) total - pos)) as [c|];
      [|eapply Hstop; eauto].
    unfold bind at 1 in Hrun. rewrite write_file_eq in Hrun. cbv [ret] in Hrun.
    assert (Hall' : Forall (chunk_in_temp svc)
                      (chunks ++ [(FFmpegChunk (chunk_path svc idx), pos,
                                   Qmin (pos + d) total)])).
    { apply Forall_app. split; [exact Hall|].
      constructor; [|constructor]. unfold chunk_in_temp. simpl. eauto. }
    destruct (idx + 1 >=? n)%Z.
    + inversion Hrun; subst. split; [apply same_outside_chunks_write|].
      split; [reflexivity|]. intros cs Hcs. inversion Hcs; subst. exact Hall'.
    + apply IH in Hrun; [|exact Hall'].
      destruct Hrun as (Hsame & Hcalls & Hcs). split; [|split; auto].
      eapply same_outside_chunks_trans; [apply same_outside_chunks_write | exact Hsame].
Qed.

Lemma planner_frame (env : Env) (svc : TranscriptionService) (p : string)
      (total L : Q) (w : World) res w' :
  _create_intelligent_chunks_ffmpeg env svc p total L w = (res, w') ->
  same_outside_chunks svc w w'
  /\ api_calls w' = api_calls w
  /\ (forall cs, res = Ok cs -> Forall (chunk_in_temp svc) cs).
Proof.
  unfold _create_intelligent_chunks_ffmpeg.
  destruct (Qeq_bool L 0).
  { intros H; inversion H; subst. split; [apply same_outside_chunks_refl|].
    split; [reflexivity|]. intros cs Hcs; discriminate. }
  destruct (chunks_needed_for total L =? 0)%Z.
  { intros H; inversion H; subst. split; [apply same_outside_chunks_refl|].
    split; [reflexivity|]. intros cs Hcs; discriminate. }
  apply chunk_loop_frame. constructor.
Qed.

(** Proves that two concrete worlds agree outside the chunk files. *)
Ltac outside_chunks Hfs :=
  let q := fresh "q" in
  let Hq := fresh "Hq" in
  intros q Hq; cbn [fs with_fs];
  rewrite ?lookup_delete_ne, ?lookup_insert_ne
    by (let Hx := fresh in intros Hx; eapply Hq; symmetry; exact Hx);
  rewrite ?Hfs; cbn [fs with_fs];
  rewrite ?lookup_delete_ne, ?lookup_insert_ne
    by (let Hx := fresh in intros Hx; eapply Hq; symmetry; exact Hx);
  reflexivity.

Lemma process_chunk_frame (env : Env) (svc : TranscriptionService)
      (lang prompt : option string) (i : Z) (c : Chunk)
      (acc : list TranscriptionSegment * Z) (w : World) res w' :
  chunk_in_temp svc c ->
  process_chunk env svc lang prompt i c acc w = (res, w') ->
  same_outside_chunks svc w w'.
Proof.
  destruct c as [[ca start] stop]. destruct acc as [segs failed].
  unfold chunk_in_temp, process_chunk, try_except. cbn [fst snd].
  cbv [bind]. intros Hin.
  destruct ca as [path|src a b].
  - destruct Hin as [j ->]. cbv [ret].
    destruct (transcribe_direct_returns env svc (chunk_path svc j) None lang prompt w)
      as (r & w2 & -> & Hfs).
    rewrite unlink_missing_ok_eq.
    destruct r as [r|]; [|intros H; inversion H; subst; outside_chunks Hfs].
    destruct (success r); [destruct (segments r) as [|seg rest]|];
      rewrite ?unlink_missing_ok_eq; cbv [ret];
      intros H; inversion H; subst; outside_chunks Hfs.
  - destruct (pydub_export env src a b) as [f|];
      [|intros H; inversion H; subst; apply same_outside_chunks_refl].
    rewrite write_file_eq. cbv [ret].
    destruct (transcribe_direct_returns env svc (chunk_path svc i) None lang prompt
                (with_fs (<[chunk_path svc i := f]> (fs w)) w))
      as (r & w2 & -> & Hfs).
    rewrite unlink_missing_ok_eq.
    destruct r as [r|]; [|intros H; inversion H; subst; outside_chunks Hfs].
    destruct (success r); [destruct (segments r) as [|seg rest]|];
      rewrite ?unlink_missing_ok_eq; cbv [ret];
      intros H; inversion H; subst; outside_chunks Hfs.
Qed.

Lemma process_chunks_frame (env : Env) (svc : TranscriptionService)
      (lang prompt : option string) :
  forall (chunks : list Chunk) (i : Z) (acc : list TranscriptionSegment * Z)
         (w : World) res w',
    Forall (chunk_in_temp svc) chunks ->
    process_chunks env svc lang prompt i chunks acc w = (res, w') ->
    same_outside_chunks svc w w'.
Proof.
  induction chunks as [|c rest IH]; intros i acc w res w' Hall Hrun.
  - inversion Hrun; subst. apply same_outside_chunks_refl.
  - apply Forall_cons in Hall. destruct Hall as [Hc Hrest].
    cbn [process_chunks] in Hrun. unfold bind in Hrun.
    destruct (process_chunk env svc lang prompt i c acc w) as [[acc'|e|] w1] eqn:Hone;
      pose proof (process_chunk_frame env svc lang prompt i c acc w _ _ Hc Hone) as H1.
    + eapply same_outside_chunks_trans; [exact H1|]. eapply IH; eauto.
    + inversion Hrun; subst. exact H1.
    + inversion Hrun; subst. exact H1.
Qed.

(** A chunked run creates and removes chunk files, and nothing else. *)
Lemma transcribe_chunked_frame (env : Env) (svc : TranscriptionService)
      (p : string) (aid lang prompt : option string) (w : World) res w' :
  _transcribe_chunked env svc p aid lang prompt w = (res, w') ->
  same_outside_chunks svc w w'.
Proof.
  unfold _transcribe_chunked, try_except, bind. intros Hrun.
  pose proof (probe_keeps_world env p w) as Hw.
  destruct (_get_audio_duration_efficient env p w) as [[total|e|] w1];
    simpl in Hw; subst w1;
    [| inversion Hrun; subst; apply same_outside_chunks_refl
     | inversion Hrun; subst; apply same_outside_chunks_refl].
  destruct (_create_intelligent_chunks_ffmpeg env svc p total effective_duration_limit w)
    as [[chunks|e|] w2] eqn:Hplan;
    destruct (planner_frame env svc p total _ w _ _ Hplan) as (Hsame & _ & Hcs);
    [| inversion Hrun; subst; exact Hsame | inversion Hrun; subst; exact Hsame].
  destruct (chunks_needed_for total effective_duration_limit =? 0)%Z;
    [inversion Hrun; subst; exact Hsame|].
  destruct (process_chunks env svc lang prompt 0 chunks ([], 0%Z) w2)
    as [[[segs failed]|e|] w3] eqn:Hloop;
    pose proof (process_chunks_frame env svc lang prompt chunks 0%Z _ w2 _ _
                  (Hcs chunks eq_refl) Hloop) as H2;
    cbv [ret] in Hrun; inversion Hrun; subst;
    eapply same_outside_chunks_trans; eauto.
Qed.

Lemma chunking_handles_size_returns (env : Env) (svc : TranscriptionService)
      (p : string) (sz : Q) (w : World) :
  exists b, chunking_handles_size env svc p sz w = (Ok b, w).
Proof.
  unfold chunking_handles_size, try_except, bind.
  pose proof (probe_keeps_world env p w) as Hw.
  pose proof (probe_never_diverges env p w) as Hnd.
  destruct (_get_audio_duration_efficient env p w) as [[d|e|] w1];
    simpl in *; subst; [| eexists; reflexivity | congruence].
  destruct (Qlt_bool safe_duration_limit d); eexists; reflexivity.
Qed.

(** After a compression that succeeded, [_optimize_audio_file] returns the
    path it was given, in the world that the compression left. *)
Lemma optimize_after_compression (env : Env) (svc : TranscriptionService)
      (p aid cp : string) (sz : Q) (w w1 : World) :
  Qle_bool sz (max_file_size_mb svc) = false ->
  fst (chunking_handles_size env svc p sz w) = Ok false ->
  _try_compression env svc p w = (Ok (Some cp), w1) ->
  exists opt, _optimize_audio_file env svc p aid sz w = (Ok (p, Some opt), w1).
Proof.
  intros Hbig Hskip Hcomp.
  destruct (try_compression_success env svc p cp w w1 Hcomp)
    as (-> & _ & x & c & _ & _ & Hw1).
  unfold _optimize_audio_file. rewrite Hbig. unfold bind.
  destruct (chunking_handles_size_returns env svc p sz w) as [b Hb].
  rewrite Hb in Hskip |- *. simpl in Hskip. inversion Hskip; subst b.
  rewrite Hcomp, size_mb_eq.
  assert (Hp : fs w1 !! p = Some c).
  { rewrite Hw1. cbn [fs with_fs]. apply lookup_insert_eq. }
  rewrite Hp.
  destruct (Qle_bool (inject_Z (st_size c) / MB) (max_file_size_mb svc));
    eexists; reflexivity.
Qed.

(** [transcribe_audio] ends in the world in which the run after
    [_resolve_audio_input] ends. *)
Lemma transcribe_audio_world (env : Env) (svc : TranscriptionService)
      (input : AudioInput) (lang prompt : option string) (w w0 : World)
      (p aid : string) :
  _resolve_audio_input env svc input w = (Ok (p, aid), w0) ->
  snd (transcribe_audio env svc input lang prompt w)
  = snd (transcribe_resolved env svc p aid lang prompt w0).
Proof.
  intros Hres. unfold transcribe_audio, bind, try_except. rewrite Hres. cbv [ret].
  destruct (transcribe_resolved env svc p aid lang prompt w0) as [[r|e|] w'];
    reflexivity.
Qed.

(** After the optimization has returned the path it was given, the rest of
    the run touches chunk files only: in particular nothing is cleaned up. *)
Lemma resolved_frame_after_optimize (env : Env) (svc : TranscriptionService)
      (p aid : string) (lang prompt : option string) (w0 w1 : World)
      (x : File) (opt : option Optimization) :
  fs w0 !! p = Some x ->
  _optimize_audio_file env svc p aid (inject_Z (st_size x) / MB) w0 = (Ok (p, opt), w1) ->
  is_Some (fs w1 !! p) ->
  same_outside_chunks svc w1 (snd (transcribe_resolved env svc p aid lang prompt w0)).
Proof.
  intros Hx Hopt [y Hy].
  unfold transcribe_resolved, bind.
  cbv [exists_ bind get_fs ret]. rewrite Hx.
  rewrite bool_decide_eq_true_2 by eauto. cbn [negb].
  rewrite size_mb_eq, Hx, Hopt, size_mb_eq, Hy, checked_duration_spec.
  pose proof (probe_never_diverges env p w1) as Hnd.
  destruct (fst (_get_audio_duration_efficient env p w1)) as [d|e|]; [| |congruence].
  - destruct (chosen (strategy_decision svc (inject_Z (st_size y) / MB) d)).
    + destruct (transcribe_direct_returns env svc p (Some aid) lang prompt w1)
        as (r & w2 & -> & Hfs).
      destruct r as [r|]; [|simpl; apply same_outside_chunks_fs; exact Hfs].
      rewrite String.eqb_refl. simpl. apply same_outside_chunks_fs. exact Hfs.
    + destruct (_transcribe_chunked env svc p (Some aid) lang prompt w1)
        as [[r|e|] w2] eqn:Hc;
        pose proof (transcribe_chunked_frame env svc p _ _ _ w1 _ _ Hc) as Hsame;
        [|exact Hsame|exact Hsame].
      cbv [ret]. rewrite String.eqb_refl. simpl. exact Hsame.
  - destruct (chosen (strategy_decision svc (inject_Z (st_size y) / MB) 0)).
    + destruct (transcribe_direct_returns env svc p (Some aid) lang prompt w1)
        as (r & w2 & -> & Hfs).
      destruct r as [r|]; [|simpl; apply same_outside_chunks_fs; exact Hfs].
      rewrite String.eqb_refl. simpl. apply same_outside_chunks_fs. exact Hfs.
    + destruct (_transcribe_chunked env svc p (Some aid) lang prompt w1)
        as [[r|e'|] w2] eqn:Hc;
        pose proof (transcribe_chunked_frame env svc p _ _ _ w1 _ _ Hc) as Hsame;
        [|exact Hsame|exact Hsame].
      cbv [ret]. rewrite String.eqb_refl. simpl. exact Hsame.
Qed.

(** C10 (as the code has it). When the audio file that the input resolves
    to is too large, is not left to chunking alone, and its compression
    succeeds (by ffmpeg or by the pydub fallback), the compressed version
    has taken the place of that file: [_try_compression] returns the very
    path it was given, and when [transcribe_audio] has ended the path still
    holds the compressed version. The original content is gone, nothing
    restores it, and the cleanup at the end of the call does not remove the
    compressed file. The path is the one [_resolve_audio_input] returns:
    the caller's path for an audio file, the extracted temporary audio for
    a video file, the stored path for an audio ID. *)
Theorem compression_overwrites_resolved_audio :
  forall (env : Env) (svc : TranscriptionService) (input : AudioInput)
         (lang prompt : option string) (w w0 w1 : World)
         (audio_path aid cp : string) (x : File),
    _resolve_audio_input env svc input w = (Ok (audio_path, aid), w0) ->
    fs w0 !! audio_path = Some x ->
    max_file_size_mb svc < inject_Z (st_size x) / MB ->
    fst (chunking_handles_size env svc audio_path (inject_Z (st_size x) / MB) w0)
    = Ok false ->
    _try_compression env svc audio_path w0 = (Ok (Some cp), w1) ->
    (forall i, audio_path <> chunk_path svc i) ->
    exists c : File,
      (ffmpeg_compress env x = ToolWrites c \/ pydub_compress env x = Some c)
      /\ cp = audio_path
      /\ fs w1 !! audio_path = Some c
      /\ fs (snd (transcribe_audio env svc input lang prompt w)) !! audio_path = Some c.
Proof.
  intros env svc input lang prompt w w0 w1 p aid cp x Hres Hx Hbig Hskip Hcomp Hnot.
  destruct (try_compression_success env svc p cp w0 w1 Hcomp)
    as (-> & _ & x' & c & Hx' & Htool & Hw1).
  assert (x' = x) by congruence. subst x'.
  assert (Hp : fs w1 !! p = Some c).
  { rewrite Hw1. cbn [fs with_fs]. apply lookup_insert_eq. }
  exists c. repeat split; auto.
  rewrite (transcribe_audio_world env svc input lang prompt w w0 p aid Hres).
  apply Qle_bool_false_iff in Hbig.
  destruct (optimize_after_compression env svc p aid p _ w0 w1 Hbig Hskip Hcomp)
    as [opt Hopt].
  pose proof (resolved_frame_after_optimize env svc p aid lang prompt w0 w1 x
                (Some opt) Hx Hopt ltac:(eauto)) as Hsame.
  rewrite (Hsame p Hnot). exact Hp.
Qed.

(** A 100 MB recording given by its path: after the call the path holds the
    10 MB version that ffmpeg wrote. *)
Lemma compression_overwrites_resolved_audio_witness :
  exists c : File,
    (ffmpeg_compress Scenario.healthy (Scenario.audio "talk" 100 300) = ToolWrites c
     \/ pydub_compress Scenario.healthy (Scenario.audio "talk" 100 300) = Some c)
    /\ "talk.mp3" = "talk.mp3"
    /\ fs (snd (_try_compression Scenario.healthy Scenario.default_service
                                 "talk.mp3" big_audio_world)) !! "talk.mp3" = Some c
    /\ fs (snd (transcribe_audio Scenario.healthy Scenario.default_service
                                 (InputPath "talk.mp3") None None big_audio_world))
       !! "talk.mp3" = Some c.
Proof.
  apply (compression_overwrites_resolved_audio
           Scenario.healthy Scenario.default_service (InputPath "talk.mp3")
           None None big_audio_world big_audio_world
           (snd (_try_compression Scenario.healthy Scenario.default_service
                                  "talk.mp3" big_audio_world))
           "talk.mp3" "talk" "talk.mp3" (Scenario.audio "talk" 100 300)).
  - reflexivity.
  - reflexivity.
  - vm_compute. reflexivity.
  - reflexivity.
  - vm_compute. reflexivity.
  - intros i H. unfold chunk_path, PyPath.join in H. simpl in H. discriminate.
Defined.

(** C10, as stated, fails for a video: the audio is extracted to a
    temporary file, that file is compressed in place, and the file at the
    path the caller gave is what it was. *)
Lemma video_input_is_left_alone :
  match video_run with
  | (Ok r, w') =>
      success r = true
      /\ optimization_applied r = Some compression
      /\ fs w' !! "talk.mp4" = Some (Scenario.audio "talk video" 300 300)
      /\ fs w' !! "/tmp/transcriber/talk_extracted.mp3"
         = Some (Scenario.compressed_of
                   (Scenario.compressed_of (Scenario.audio "talk video" 300 300)))
  | _ => False
  end.
Proof.
  vm_compute. repeat split; reflexivity.
Qed.

(** * Edge cases of the executor *)

(** X1. [_transcribe_direct] on a path that does not exist
    never reaches the client: the size report at its start raises, the
    handler turns that into a failed result whose message names the path,
    and the world is what it was. *)
Theorem direct_missing_file_makes_no_call :
  forall (env : Env) (svc : TranscriptionService) (p : string)
         (aid lang prompt : option string) (w : World),
    fs w !! p = None ->
    _transcribe_direct env svc p aid lang prompt w
    = (Ok (Some (failed_result
                   aid ("Direct transcription failed: " ++ file_not_found p))), w).
Proof.
  intros env svc p aid lang prompt w Hp.
  unfold _transcribe_direct, try_except, bind at 1.
  rewrite size_mb_eq, Hp. reflexivity.
Qed.

Lemma direct_missing_file_makes_no_call_witness :
  _transcribe_direct Scenario.healthy Scenario.default_service "gone.mp3"
                     None None None unmeasurable_world
  = (Ok (Some (failed_result
                 None
                 "Direct transcription failed: [Errno 2] No such file or directory: 'gone.mp3'")),
     unmeasurable_world).
Proof.
  apply (direct_missing_file_makes_no_call
           Scenario.healthy Scenario.default_service "gone.mp3" None None None
           unmeasurable_world).
  vm_compute. reflexivity.
Defined.

(** X2. With a negative [max_retries] the loop over
    [range(max_retries + 1)] has no iteration: no call is made, nothing is
    slept, and [_transcribe_direct] reports that the API gave no response. *)
Theorem negative_max_retries_makes_no_call :
  forall (env : Env) (svc : TranscriptionService) (p : string)
         (aid lang prompt : option string) (w : World),
    (max_retries svc < 0)%Z ->
    is_Some (fs w !! p) ->
    _make_api_call_with_retry env svc p lang prompt w = (Ok None, w)
    /\ _transcribe_direct env svc p aid lang prompt w
       = (Ok (Some (failed_result aid "No response from API")), w).
Proof.
  intros env svc p aid lang prompt w Hneg [x Hp].
  assert (Hcall : _make_api_call_with_retry env svc p lang prompt w = (Ok None, w)).
  { unfold _make_api_call_with_retry.
    replace (Z.to_nat (max_retries svc + 1)) with O by lia.
    reflexivity. }
  split; [exact Hcall|].
  unfold _transcribe_direct, try_except, bind at 1.
  rewrite size_mb_eq, Hp. unfold bind at 1. rewrite Hcall. reflexivity.
Qed.

Lemma negative_max_retries_makes_no_call_witness :
  _make_api_call_with_retry Scenario.healthy impatient_service "talk.mp3" None None
                            quarter_hour_world
  = (Ok None, quarter_hour_world)
  /\ _transcribe_direct Scenario.healthy impatient_service "talk.mp3" (Some "talk")
                        None None quarter_hour_world
     = (Ok (Some (failed_result (Some "talk") "No response from API")),
        quarter_hour_world).
Proof.
  apply (negative_max_retries_makes_no_call
           Scenario.healthy impatient_service "talk.mp3" (Some "talk") None None
           quarter_hour_world).
  - vm_compute. reflexivity.
  - vm_compute. eexists. reflexivity.
Defined.

(** What [_transcribe_direct] does with an answer that carries no text:
    it falls off its end and hands [None] to its caller, after one call. *)
Lemma direct_without_text (env : Env) (svc : TranscriptionService) (p : string)
      (aid lang prompt : option string) (w : World) (x : File) (r : Response) :
  (0 <= max_retries svc)%Z ->
  fs w !! p = Some x ->
  audio_transcription env (api_calls w) p (Some x) lang prompt = ApiReturn r ->
  resp_text r = None \/ resp_text r = Some "" ->
  _transcribe_direct env svc p aid lang prompt w = (Ok None, called w).
Proof.
  intros Hretries Hp Hcall Htext.
  unfold _transcribe_direct, try_except, bind at 1.
  rewrite size_mb_eq, Hp. unfold bind at 1, _make_api_call_with_retry.
  replace (Z.to_nat (max_retries svc + 1)) with (S (Z.to_nat (max_retries svc))) by lia.
  rewrite retry_loop_step, Hp, Hcall.
  destruct Htext as [-> | ->]; reflexivity.
Qed.

(** X3. An answer without text on the direct path makes the whole
    call fail. The input resolves to an existing file within the size limit
    and the safe duration, the first call to the client returns, but its text
    is [None] or empty: [_transcribe_direct] returns nothing, the orchestrator
    trips over the missing result, and the caller gets [success = False] with
    a message that starts with "Transcription failed: ". The call to the
    client has been made. *)
Theorem empty_answer_fails_the_direct_run :
  forall (env : Env) (svc : TranscriptionService) (input : AudioInput)
         (lang prompt : option string) (w w0 : World) (p aid : string)
         (x : File) (d : Q) (r : Response),
    _resolve_audio_input env svc input w = (Ok (p, aid), w0) ->
    fs w0 !! p = Some x ->
    inject_Z (st_size x) / MB <= max_file_size_mb svc ->
    fst (checked_duration env p w0) = Ok d ->
    d <= safe_duration_limit ->
    (0 <= max_retries svc)%Z ->
    audio_transcription env (api_calls w0) p (Some x) lang prompt = ApiReturn r ->
    resp_text r = None \/ resp_text r = Some "" ->
    exists msg : string,
      transcribe_audio env svc input lang prompt w
      = (Ok (failed_result (Some aid) ("Transcription failed: " ++ msg)), called w0).
Proof.
  intros env svc input lang prompt w w0 p aid x d r
         Hres Hp Hsize Hprobe Hd Hretries Hcall Htext.
  eexists.
  unfold transcribe_audio, bind at 1, try_except at 1, bind at 1.
  rewrite Hres. cbv [ret]. unfold try_except, transcribe_resolved.
  unfold bind at 1, exists_, bind at 1, get_fs. cbv [ret].
  rewrite Hp. rewrite bool_decide_true by (eexists; reflexivity). cbn [negb].
  unfold bind at 1. rewrite size_mb_eq, Hp.
  unfold bind at 1, _optimize_audio_file.
  assert (Hle : Qle_bool (inject_Z (st_size x) / MB) (max_file_size_mb svc) = true)
    by (apply Qle_bool_iff; exact Hsize).
  rewrite Hle. cbv [ret].
  unfold bind at 1. rewrite size_mb_eq, Hp.
  unfold bind at 1. rewrite checked_duration_spec.
  rewrite checked_duration_spec in Hprobe. cbn [fst] in Hprobe.
  destruct (fst (_get_audio_duration_efficient env p w0)) as [d'|e|];
    [ | | discriminate].
  - injection Hprobe as ->.
    unfold bind at 1, strategy_decision.
    rewrite Hle.
    assert (Hd' : Qle_bool d safe_duration_limit = true)
      by (apply Qle_bool_iff; exact Hd).
    rewrite Hd'. cbn [andb chosen].
    rewrite (direct_without_text env svc p (Some aid) lang prompt w0 x r)
      by assumption.
    reflexivity.
  - injection Hprobe as <-.
    unfold bind at 1, strategy_decision.
    rewrite Hle.
    assert (Hd' : Qle_bool 0 safe_duration_limit = true) by reflexivity.
    rewrite Hd'. cbn [andb chosen].
    rewrite (direct_without_text env svc p (Some aid) lang prompt w0 x r)
      by assumption.
    reflexivity.
Qed.

Lemma empty_answer_fails_the_direct_run_witness :
  exists msg : string,
    transcribe_audio silent_client Scenario.default_service (InputPath "talk.mp3")
                     None None short_talk_world
    = (Ok (failed_result (Some "talk") ("Transcription failed: " ++ msg)),
       called short_talk_world).
Proof.
  apply (empty_answer_fails_the_direct_run
           silent_client Scenario.default_service (InputPath "talk.mp3") None None
           short_talk_world short_talk_world "talk.mp3" "talk"
           (Scenario.audio "talk" 15 300) 300
           {| resp_text := Some ""; resp_language := None |}).
  - reflexivity.
  - reflexivity.
  - vm_compute. discriminate.
  - reflexivity.
  - vm_compute. discriminate.
  - vm_compute. discriminate.
  - reflexivity.
  - right. reflexivity.
Defined.

(** * Edge cases of the chunked run *)

(** X4. A file that the probe measures at zero seconds cannot
    be chunked: the number of chunks is [ceil(0 / 307.2) = 0], the planner
    divides the duration by it, and [_transcribe_chunked] returns a failed
    result with the division error as its message. No file is written and
    no call is made. *)
Theorem zero_duration_fails_the_chunked_run :
  forall (env : Env) (svc : TranscriptionService) (p : string)
         (aid lang prompt : option string) (w : World) (d : Q),
    fst (_get_audio_duration_efficient env p w) = Ok d ->
    d == 0 ->
    _transcribe_chunked env svc p aid lang prompt w
    = (Ok (failed_result aid ("Chunked transcription failed: " ++ zero_division)), w).
Proof.
  intros env svc p aid lang prompt w d Hprobe Hd.
  pose proof (probe_keeps_world env p w) as Hw.
  unfold _transcribe_chunked, try_except, bind at 1.
  destruct (_get_audio_duration_efficient env p w) as [res w1].
  cbn [fst snd] in Hprobe, Hw. subst res w1.
  unfold bind at 1, _create_intelligent_chunks_ffmpeg.
  assert (HL : Qeq_bool effective_duration_limit 0 = false) by reflexivity.
  rewrite HL.
  assert (Hn : chunks_needed_for d effective_duration_limit = 0%Z).
  { unfold chunks_needed_for.
    rewrite (Qceiling_comp (d / effective_duration_limit) 0).
    - reflexivity.
    - rewrite Hd. reflexivity. }
  rewrite Hn. reflexivity.
Qed.

Lemma zero_duration_fails_the_chunked_run_witness :
  _transcribe_chunked Scenario.healthy Scenario.default_service "empty.mp3"
                      (Some "empty") None None empty_track_world
  = (Ok (failed_result (Some "empty")
                       "Chunked transcription failed: float division by zero"),
     empty_track_world).
Proof.
  apply (zero_duration_fails_the_chunked_run
           Scenario.healthy Scenario.default_service "empty.mp3" (Some "empty")
           None None empty_track_world 0).
  - reflexivity.
  - reflexivity.
Defined.

(** X5. When ffmpeg is installed but cuts no piece, the planner
    stops at the first piece and returns an empty plan without raising.
    [_transcribe_chunked] then has nothing to process: it returns
    [success = False] with zero chunks, zero failed chunks, an empty
    transcript and no error message, having changed nothing and called
    nobody. *)
Theorem nothing_cut_nothing_reported :
  forall (env : Env) (svc : TranscriptionService) (p : string)
         (aid lang prompt : option string) (w : World) (total : Q),
    which_ffmpeg env = true ->
    (forall x s t, ffmpeg_clip env x s t = None) ->
    fst (_get_audio_duration_efficient env p w) = Ok total ->
    0 < total ->
    _create_intelligent_chunks_ffmpeg env svc p total effective_duration_limit w
    = (Ok [], w)
    /\ _transcribe_chunked env svc p aid lang prompt w
       = (Ok {| success := false; audio_id := aid; full_transcript := "";
                segments := []; language := lang; model_used := model svc;
                total_chunks := 0; failed_chunks := 0; file_size_mb := 0;
                optimization_applied := None; error_message := None |}, w).
Proof.
  intros env svc p aid lang prompt w total Hff Hclip Hprobe Htotal.
  pose proof (probe_keeps_world env p w) as Hw.
  assert (HL : 0 < effective_duration_limit) by reflexivity.
  pose proof (chunks_needed_pos total effective_duration_limit HL Htotal) as Hn.
  assert (Hn0 : (chunks_needed_for total effective_duration_limit =? 0)%Z = false)
    by (apply Z.eqb_neq; lia).
  assert (Hplan : _create_intelligent_chunks_ffmpeg env svc p total
                    effective_duration_limit w = (Ok [], w)).
  { unfold _create_intelligent_chunks_ffmpeg.
    assert (HL0 : Qeq_bool effective_duration_limit 0 = false) by reflexivity.
    rewrite HL0, Hn0. cbn [chunk_loop].
    assert (Hlt : Qlt_bool 0 total = true) by (apply Qlt_bool_iff; exact Htotal).
    rewrite Hlt.
    destruct (Qlt_bool _ 1); [reflexivity|].
    rewrite Hff. unfold bind, run_ffmpeg_clip, bind, get_fs. cbv [ret].
    destruct (fs w !! p) as [x|]; [|reflexivity].
    rewrite Hclip. reflexivity. }
  split; [exact Hplan|].
  unfold _transcribe_chunked, try_except, bind at 1.
  destruct (_get_audio_duration_efficient env p w) as [res w1].
  cbn [fst snd] in Hprobe, Hw. subst res w1.
  unfold bind at 1. rewrite Hplan, Hn0. reflexivity.
Qed.

Lemma nothing_cut_nothing_reported_witness :
  _create_intelligent_chunks_ffmpeg blunt_ffmpeg Scenario.default_service "talk.mp3"
                                    900 effective_duration_limit quarter_hour_world
  = (Ok [], quarter_hour_world)
  /\ _transcribe_chunked blunt_ffmpeg Scenario.default_service "talk.mp3"
                         (Some "talk") None None quarter_hour_world
     = (Ok {| success := false; audio_id := Some "talk"; full_transcript := "";
              segments := []; language := None;
              model_used := model Scenario.default_service;
              total_chunks := 0; failed_chunks := 0; file_size_mb := 0;
              optimization_applied := None; error_message := None |},
        quarter_hour_world).
Proof.
  apply (nothing_cut_nothing_reported
           blunt_ffmpeg Scenario.default_service "talk.mp3" (Some "talk") None None
           quarter_hour_world 900).
  - reflexivity.
  - reflexivity.
  - reflexivity.
  - reflexivity.
Defined.

(** * Inputs that are not there *)



(** * The optimiser *)

(** [_try_compression] returns: with [None], or with a path. *)
Lemma try_compression_returns (env : Env) (svc : TranscriptionService)
      (p : string) (w : World) res w1 :
  _try_compression env svc p w = (res, w1) ->
  exists o, res = Ok o.
Proof.
  assert (Hfallback : forall w0 res0 w2,
             _try_compression_pydub_fallback env svc p w0 = (res0, w2) ->
             exists o, res0 = Ok o).
  { intros w0 res0 w2 Hfb.
    destruct (compression_fallback_cases env svc p w0 _ _ Hfb)
      as [->|(x & c & _ & _ & _ & -> & _)]; eexists; reflexivity. }
  unfold _try_compression, try_except, bind at 1.
  rewrite stat_eq.
  destruct (fs w !! p) as [x|] eqn:Hp; [|apply Hfallback].
  destruct (which_ffmpeg env); cbn [negb].
  2:{ destruct (_try_compression_pydub_fallback env svc p w) as [res0 w2] eqn:Hfb.
      destruct (Hfallback _ _ _ Hfb) as [o ->]. intros H; inversion H. eauto. }
  destruct (ffmpeg_compress env x) as [e| |c].
  - cbv [raise]. apply Hfallback.
  - cbv [ret]. intros H; inversion H. eauto.
  - unfold bind. rewrite write_file_eq.
    destruct (replace_by_compressed_cases svc p x c
                (with_fs (<[compressed_path svc p := c]> (fs w)) w))
      as [(e & w0 & ->)|(_ & _ & ->)].
    + cbn [fs with_fs]. apply lookup_insert_eq.
    + apply Hfallback.
    + intros H; inversion H. eauto.
Qed.

(** X7. [_optimize_audio_file] always returns, and the path it
    returns is the path it was given: compression works in place. The label
    is [None] exactly when the size is within the limit. With that label,
    and with "chunking_optimized", no file has been touched. So the test
    [optimized_path != audio_path] at the end of [transcribe_audio] never
    holds. *)
Theorem optimize_returns_the_given_path :
  forall (env : Env) (svc : TranscriptionService) (p aid : string) (sz : Q)
         (w : World),
    exists (opt : option Optimization) (w' : World),
      _optimize_audio_file env svc p aid sz w = (Ok (p, opt), w')
      /\ (opt = None <-> sz <= max_file_size_mb svc)
      /\ (opt = None \/ opt = Some chunking_optimized -> w' = w).
Proof.
  intros env svc p aid sz w.
  unfold _optimize_audio_file.
  destruct (Qle_bool sz (max_file_size_mb svc)) eqn:Hle.
  - exists None, w. split; [reflexivity|]. split; [|reflexivity].
    split; [intros _; apply Qle_bool_iff; exact Hle | reflexivity].
  - assert (Hgt : ~ sz <= max_file_size_mb svc).
    { intros H. apply Qle_bool_iff in H. congruence. }
    unfold bind at 1.
    destruct (chunking_handles_size_returns env svc p sz w) as [b ->].
    destruct b.
    + exists (Some chunking_optimized), w.
      split; [reflexivity|]. split; [|reflexivity].
      split; [discriminate | intros H; contradiction].
    + unfold bind at 1.
      destruct (_try_compression env svc p w) as [res w1] eqn:Hcomp.
      destruct (try_compression_returns env svc p w _ _ Hcomp) as [[cp|] ->].
      * destruct (try_compression_success env svc p cp w w1 Hcomp)
          as (-> & Hne & x & c & Hx & _ & ->).
        unfold bind at 1. rewrite size_mb_eq.
        cbn [fs with_fs]. unfold fs_after_compression.
        rewrite lookup_insert_eq.
        destruct (Qle_bool (inject_Z (st_size c) / MB) (max_file_size_mb svc)).
        -- eexists; eexists. split; [reflexivity|].
           split; [split; [discriminate | intros H; contradiction]|].
           intros [H|H]; discriminate.
        -- eexists; eexists. split; [reflexivity|].
           split; [split; [discriminate | intros H; contradiction]|].
           intros [H|H]; discriminate.
      * eexists; eexists. split; [reflexivity|].
        split; [split; [discriminate | intros H; contradiction]|].
        intros [H|H]; discriminate.
Qed.

(** * The assembler *)

(** Two segments that start at different times go into a list in either
    order with the same result. *)
Lemma insert_by_start_comm (x y : TranscriptionSegment) :
  ~ start_time x == start_time y ->
  forall l, insert_by_start y (insert_by_start x l)
            = insert_by_start x (insert_by_start y l).
Proof.
  intros Hxy l. induction l as [|z l IH]; cbn [insert_by_start].
  - destruct (Qle_bool (start_time y) (start_time x)) eqn:Hyx;
      destruct (Qle_bool (start_time x) (start_time y)) eqn:Hxy'; try reflexivity;
      reflect_Q; exfalso; lra.
  - destruct (Qle_bool (start_time x) (start_time z)) eqn:Hxz;
      destruct (Qle_bool (start_time y) (start_time z)) eqn:Hyz;
      cbn [insert_by_start]; rewrite ?Hxz, ?Hyz.
    + destruct (Qle_bool (start_time y) (start_time x)) eqn:Hyx;
        destruct (Qle_bool (start_time x) (start_time y)) eqn:Hxy'; try reflexivity;
        reflect_Q; exfalso; lra.
    + destruct (Qle_bool (start_time y) (start_time x)) eqn:Hyx; [|reflexivity].
      reflect_Q. exfalso. lra.
    + destruct (Qle_bool (start_time x) (start_time y)) eqn:Hxy'; [|reflexivity].
      reflect_Q. exfalso. lra.
    + rewrite IH. reflexivity.
Qed.

Lemma distinct_starts_perm (l l' : list TranscriptionSegment) :
  Permutation l l' -> distinct_starts l -> distinct_starts l'.
Proof.
  unfold distinct_starts.
  induction 1 as [|x l l' Hperm IH|x y l|l l' l'' _ IH1 _ IH2]; intros Hd.
  - exact Hd.
  - inversion Hd; subst. constructor; [|auto].
    eapply Permutation_Forall; eauto.
  - inversion Hd as [|? ? Hy Hrest]; subst.
    inversion Hrest as [|? ? Hx Hl]; subst.
    inversion Hy as [|? ? Hyx Hyl]; subst.
    constructor; [constructor; [|exact Hx]|constructor; assumption].
    intros H. apply Hyx. symmetry. exact H.
  - auto.
Qed.

Lemma sorted_by_start_perm (l l' : list TranscriptionSegment) :
  Permutation l l' -> distinct_starts l ->
  sorted_by_start l = sorted_by_start l'.
Proof.
  induction 1 as [|x l l' Hperm IH|x y l|l l' l'' H1 IH1 H2 IH2]; intros Hd.
  - reflexivity.
  - unfold sorted_by_start in *. cbn [fold_right].
    inversion Hd; subst. rewrite IH by assumption. reflexivity.
  - unfold sorted_by_start. cbn [fold_right].
    inversion Hd as [|? ? Hy _]; subst.
    inversion Hy as [|? ? Hyx _]; subst.
    apply insert_by_start_comm.
    intros H. apply Hyx. symmetry. exact H.
  - rewrite IH1 by assumption. apply IH2.
    eapply distinct_starts_perm; eauto.
Qed.

(** X8. The transcript does not depend on the order in which
    the segments arrive: two lists with the same segments, no two of which
    start at the same time, are assembled into the same text. *)
Theorem assembly_ignores_arrival_order :
  forall segs segs' : list TranscriptionSegment,
    Permutation segs segs' ->
    distinct_starts segs ->
    _assemble_transcript_from_segments segs
    = _assemble_transcript_from_segments segs'.
Proof.
  intros segs segs' Hperm Hd.
  pose proof (sorted_by_start_perm segs segs' Hperm Hd) as Hsorted.
  unfold _assemble_transcript_from_segments.
  destruct segs as [|a segs]; destruct segs' as [|b segs'].
  - reflexivity.
  - apply Permutation_nil in Hperm. discriminate.
  - symmetry in Hperm. apply Permutation_nil in Hperm. discriminate.
  - rewrite Hsorted. reflexivity.
Qed.

Lemma assembly_ignores_arrival_order_witness :
  _assemble_transcript_from_segments
    [ {| start_time := 300; end_time := 600; text := " world " |};
      {| start_time := 0; end_time := 300; text := "hello" |} ]
  = _assemble_transcript_from_segments
      [ {| start_time := 0; end_time := 300; text := "hello" |};
        {| start_time := 300; end_time := 600; text := " world " |} ].
Proof.
  apply (assembly_ignores_arrival_order
           [ {| start_time := 300; end_time := 600; text := " world " |};
             {| start_time := 0; end_time := 300; text := "hello" |} ]
           [ {| start_time := 0; end_time := 300; text := "hello" |};
             {| start_time := 300; end_time := 600; text := " world " |} ]).
  - apply perm_swap.
  - repeat constructor. vm_compute. discriminate.
Defined.

(** * The fallback planner *)

Section FallbackPlan.

Context (audio : File) (len cd ov : Z).
Hypothesis Hstep : (0 < cd - ov)%Z.

Let n : nat := fallback_count len (cd - ov).

Lemma fallback_count_reaches_end : (len <= Z.of_nat n * (cd - ov))%Z.
Proof.
  subst n. unfold fallback_count.
  pose proof (Z.mul_succ_div_gt (len + (cd - ov) - 1) (cd - ov) Hstep).
  destruct (Z_le_gt_dec 0 ((len + (cd - ov) - 1) / (cd - ov))).
  - rewrite Z2Nat.id by assumption. lia.
  - replace (Z.to_nat ((len + (cd - ov) - 1) / (cd - ov))) with O by lia. nia.
Qed.

Lemma fallback_count_below_end (k : nat) :
  (k < n)%nat -> (Z.of_nat k * (cd - ov) < len)%Z.
Proof.
  subst n. unfold fallback_count. intros Hk.
  pose proof (Z.mul_div_le (len + (cd - ov) - 1) (cd - ov) Hstep).
  assert (Z.of_nat k + 1 <= (len + (cd - ov) - 1) / (cd - ov))%Z by lia.
  nia.
Qed.

Lemma pydub_loop_closed_form :
  forall (m k fuel : nat) (chunks : list Chunk) (w : World),
    (k + m = n)%nat ->
    (m <= fuel)%nat ->
    pydub_loop fuel audio len cd ov (Z.of_nat k * (cd - ov)) chunks w
    = (Ok (chunks ++ map (fallback_chunk audio len cd (cd - ov)) (seq k m))%list, w).
Proof.
  induction m as [|m IH]; intros k fuel chunks w Hk Hfuel.
  - pose proof fallback_count_reaches_end as Hend.
    replace k with n by lia.
    assert (Hlt : (Z.of_nat n * (cd - ov) <? len)%Z = false) by (apply Z.ltb_ge; lia).
    destruct fuel; cbn [pydub_loop]; rewrite Hlt; cbn [seq map];
      rewrite app_nil_r; reflexivity.
  - assert (Hlt : (Z.of_nat k * (cd - ov) <? len)%Z = true).
    { apply Z.ltb_lt. apply fallback_count_below_end. lia. }
    destruct fuel as [|fuel]; [lia|].
    cbn [pydub_loop]. rewrite Hlt.
    replace (Z.of_nat k * (cd - ov) + (cd - ov))%Z
      with (Z.of_nat (S k) * (cd - ov))%Z by lia.
    rewrite IH by lia.
    cbn [seq map]. rewrite <- app_assoc. reflexivity.
Qed.

End FallbackPlan.

Lemma fallback_fuel_suffices (len step : Z) :
  (0 < step)%Z -> (fallback_count len step <= pydub_fuel len step)%nat.
Proof.
  intros Hstep. unfold fallback_count, pydub_fuel.
  assert (Hlt : (0 <? step)%Z = true) by (apply Z.ltb_lt; exact Hstep).
  rewrite Hlt.
  assert ((len + step - 1) / step <= len / step + 1)%Z.
  { replace (len / step + 1)%Z with ((len + 1 * step) / step)%Z
      by (rewrite Z.div_add by lia; reflexivity).
    apply Z.div_le_mono; lia. }
  lia.
Qed.

Lemma milliseconds_le (a b : Z) :
  (b <= a)%Z -> 0 <= inject_Z a / 1000 - inject_Z b / 1000.
Proof.
  intros H. rewrite Zle_Qle in H.
  assert (Heq : inject_Z a / 1000 - inject_Z b / 1000
                == (inject_Z a - inject_Z b) * (1 # 1000)) by field.
  rewrite Heq. lra.
Qed.

Lemma fallback_chunks_touch (audio : File) (len cd ov : Z) :
  (0 < cd - ov)%Z -> (0 <= ov)%Z ->
  forall (m k : nat),
    (k + m <= fallback_count len (cd - ov))%nat ->
    Forall (fun o => 0 <= o)
           (overlaps (map (fallback_chunk audio len cd (cd - ov)) (seq k m))).
Proof.
  intros Hstep Hov. induction m as [|m IH]; intros k Hk; [constructor|].
  destruct m as [|m]; [constructor|].
  change (seq k (S (S m))) with (k :: seq (S k) (S m)).
  rewrite map_cons. change (seq (S k) (S m)) with (S k :: seq (S (S k)) m) at 1.
  rewrite map_cons. cbn [overlaps].
  constructor.
  - unfold chunk_end, chunk_start, fallback_chunk. cbn [fst snd].
    assert (Hbelow : (Z.of_nat (S k) * (cd - ov) < len)%Z)
      by (apply (fallback_count_below_end len cd ov Hstep); lia).
    assert (Hle : (Z.of_nat (S k) * (cd - ov)
                   <= Z.min (Z.of_nat k * (cd - ov) + cd) len)%Z) by lia.
    apply milliseconds_le. exact Hle.
  - change (map (fallback_chunk audio len cd (cd - ov)) (seq (S (S k)) m))
      with (List.tl (map (fallback_chunk audio len cd (cd - ov)) (seq (S k) (S m)))).
    specialize (IH (S k)).
    change (seq (S k) (S m)) with (S k :: seq (S (S k)) m) in *.
    rewrite map_cons in *. cbn [List.tl].
    apply IH. lia.
Qed.



(** * How long and how often the executor tries *)

Lemma total_delay_backoff (svc : TranscriptionService) (n : nat) :
  forall a : Z,
    (0 <= a)%Z ->
    total_delay (backoff_delays svc a n)
    == base_delay svc * inject_Z (2 ^ a) * (inject_Z (2 ^ Z.of_nat n) - 1).
Proof.
  induction n as [|n IH]; intros a Ha.
  - change (total_delay (backoff_delays svc a 0)) with 0.
    change (inject_Z (2 ^ Z.of_nat 0)) with 1. ring.
  - rewrite backoff_delays_S. cbn [total_delay fold_right].
    fold (total_delay (backoff_delays svc (a + 1) n)).
    rewrite IH by lia.
    replace (Z.of_nat (S n)) with (Z.succ (Z.of_nat n)) by lia.
    rewrite Z.pow_succ_r by lia.
    replace (a + 1)%Z with (Z.succ a) by lia.
    rewrite Z.pow_succ_r by lia.
    rewrite !inject_Z_mult. ring.
Qed.

(** X10. One [_make_api_call_with_retry] makes at least one and
    at most [max_retries + 1] calls, never touches a file, and the time it
    spends sleeping between the attempts is at most
    [base_delay * (2 ** max_retries - 1)] seconds in total. *)
Theorem retries_are_bounded :
  forall (env : Env) (svc : TranscriptionService) (p : string)
         (lang prompt : option string) (w : World) res w',
    (0 <= max_retries svc)%Z ->
    0 <= base_delay svc ->
    _make_api_call_with_retry env svc p lang prompt w = (res, w') ->
    exists delays : list Q,
      slept w' = (slept w ++ delays)%list
      /\ total_delay delays <= base_delay svc * (inject_Z (2 ^ max_retries svc) - 1)
      /\ (api_calls w < api_calls w')%nat
      /\ (Z.of_nat (api_calls w') <= Z.of_nat (api_calls w) + (max_retries svc + 1))%Z
      /\ fs w' = fs w.
Proof.
  intros env svc p lang prompt w res w' Hretries Hbase Hrun.
  unfold _make_api_call_with_retry in Hrun.
  replace (Z.to_nat (max_retries svc + 1)) with (S (Z.to_nat (max_retries svc)))
    in Hrun by lia.
  destruct (retry_loop_spec env svc p lang prompt Hbase
              (Z.to_nat (max_retries svc)) 0%Z w res w' ltac:(lia) Hrun)
    as (n & Hn & Hcalls & Hfs & Hslept & _).
  exists (backoff_delays svc 0 n).
  split; [exact Hslept|]. split; [|split; [lia|split; [lia|exact Hfs]]].
  rewrite total_delay_backoff by lia.
  change (inject_Z (2 ^ 0)) with 1.
  assert (Hpow : (2 ^ Z.of_nat n <= 2 ^ max_retries svc)%Z)
    by (apply Z.pow_le_mono_r; lia).
  rewrite Zle_Qle in Hpow.
  set (x := inject_Z (2 ^ Z.of_nat n)) in *.
  set (y := inject_Z (2 ^ max_retries svc)) in *.
  clearbody x y. nra.
Qed.

Lemma retries_are_bounded_witness :
  exists delays : list Q,
    [1 * inject_Z (2 ^ 0); 1 * inject_Z (2 ^ 1)] = ([] ++ delays)%list
    /\ total_delay delays <= 1 * (inject_Z (2 ^ 3) - 1)
    /\ (0 < 3)%nat
    /\ (Z.of_nat 3 <= Z.of_nat 0 + (3 + 1))%Z
    /\ fs (Scenario.world_with "a.mp3" (Scenario.audio "a" 1 60))
       = fs (Scenario.world_with "a.mp3" (Scenario.audio "a" 1 60)).
Proof.
  apply (retries_are_bounded
           Scenario.rate_limited_twice Scenario.default_service "a.mp3" None None
           (Scenario.world_with "a.mp3" (Scenario.audio "a" 1 60))
           (Ok (Some {| resp_text := Some "hello"; resp_language := None |}))
           {| fs := fs (Scenario.world_with "a.mp3" (Scenario.audio "a" 1 60));
              api_calls := 3;
              slept := [1 * inject_Z (2 ^ 0); 1 * inject_Z (2 ^ 1)] |}).
  - vm_compute. discriminate.
  - vm_compute. discriminate.
  - vm_compute. reflexivity.
Defined.

(** * The files of a chunked run *)

Lemma chunk_files_snoc (chunks : list Chunk) (q : string) (s t : Q) :
  chunk_files (chunks ++ [(FFmpegChunk q, s, t)]) = (chunk_files chunks ++ [q])%list.
Proof.
  unfold chunk_files. rewrite flat_map_app. reflexivity.
Qed.

(** With ffmpeg at work the planner loop does not raise, and every file it
    writes is the file of a chunk of its plan. *)
Lemma chunk_loop_files (env : Env) (svc : TranscriptionService) (p : string)
      (total d o : Q) (n : Z) (w0 : World) :
  which_ffmpeg env = true ->
  forall (fuel : nat) (pos : Q) (idx : Z) (chunks : list Chunk) (w : World) res w',
    no_new_files_but (chunk_files chunks) w0 w ->
    chunk_loop env svc fuel p total n d o pos idx chunks w = (res, w') ->
    (forall cs, res = Ok cs -> no_new_files_but (chunk_files cs) w0 w')
    /\ (forall e, res <> Raise e).
Proof.
  intros Hff.
  assert (Hstop : forall (chunks : list Chunk) (w : World) res w',
            no_new_files_but (chunk_files chunks) w0 w ->
            (Ok chunks, w) = (res, w') ->
            (forall cs, res = Ok cs -> no_new_files_but (chunk_files cs) w0 w')
            /\ (forall e, res <> Raise e)).
  { intros chunks w res w' Hinv H. inversion H; subst.
    split; [|discriminate]. intros cs Hcs. inversion Hcs; subst. exact Hinv. }
  induction fuel as [|fuel IH]; intros pos idx chunks w res w' Hinv Hrun.
  - simpl in Hrun. destruct (Qlt_bool pos total); [|eapply Hstop; eauto].
    inversion Hrun; subst. split; discriminate.
  - cbn [chunk_loop] in Hrun.
    destruct (Qlt_bool pos total); [|eapply Hstop; eauto].
    destruct (Qlt_bool (Qmin (pos + d) total - pos) 1); [eapply Hstop; eauto|].
    rewrite Hff in Hrun.
    unfold bind at 1, run_ffmpeg_clip, bind at 1, get_fs in Hrun.
    destruct (fs w !! p) as [x|]; [|eapply Hstop; eauto].
    destruct (ffmpeg_clip env x pos (Qmin (pos + d) total - pos)) as [c|];
      [|eapply Hstop; eauto].
    unfold bind at 1 in Hrun. rewrite write_file_eq in Hrun. cbv [ret] in Hrun.
    assert (Hinv' : no_new_files_but
                      (chunk_files (chunks ++ [(FFmpegChunk (chunk_path svc idx), pos,
                                                Qmin (pos + d) total)]))
                      w0 (with_fs (<[chunk_path svc idx := c]> (fs w)) w)).
    { intros q. rewrite chunk_files_snoc. cbn [fs with_fs].
      destruct (decide (q = chunk_path svc idx)) as [->|Hne].
      - right; right. apply in_or_app. right. left. reflexivity.
      - rewrite lookup_insert_ne by congruence.
        destruct (Hinv q) as [H|[H|H]]; auto.
        right; right. apply in_or_app. left. exact H. }
    destruct (idx + 1 >=? n)%Z.
    + inversion Hrun; subst. split; [|discriminate].
      intros cs Hcs. inversion Hcs; subst. exact Hinv'.
    + eapply IH; eauto.
Qed.

Lemma planner_files (env : Env) (svc : TranscriptionService) (p : string)
      (total L : Q) (w : World) res w' :
  _create_intelligent_chunks_ffmpeg env svc p total L w = (res, w') ->
  (forall cs, res = Ok cs -> no_new_files_but (chunk_files cs) w w')
  /\ (forall e, res = Raise e -> w' = w).
Proof.
  assert (Hsame : forall cs, no_new_files_but cs w w).
  { intros cs q. right; left. reflexivity. }
  unfold _create_intelligent_chunks_ffmpeg.
  destruct (Qeq_bool L 0).
  { intros H; inversion H; subst. split; [discriminate | reflexivity]. }
  destruct (chunks_needed_for total L =? 0)%Z.
  { intros H; inversion H; subst. split; [discriminate | reflexivity]. }
  destruct (which_ffmpeg env) eqn:Hff.
  - intros Hrun.
    destruct (chunk_loop_files env svc p total _ _ _ w Hff _ _ _ _ _ _ _
                (Hsame (chunk_files [])) Hrun) as [Hok Hraise].
    split; [exact Hok|]. intros e He. destruct (Hraise e He).
  - cbn [chunk_loop]. rewrite Hff.
    destruct (Qlt_bool 0 total).
    2:{ intros H; inversion H; subst. split; [|discriminate].
        intros cs Hcs. apply Hsame. }
    destruct (Qlt_bool _ 1).
    { intros H; inversion H; subst. split; [|discriminate].
      intros cs Hcs. apply Hsame. }
    intros Hrun. destruct (fallback_frame svc p total w res w' Hrun) as [-> _].
    split; [|reflexivity]. intros cs Hcs. apply Hsame.
Qed.

(** Settles what is left of a path in a file system from which it was
    deleted, and of any other path. *)
Ltac deleted_or_same Hfs out :=
  let q := fresh "q" in
  intros q; cbn [fs with_fs]; rewrite ?Hfs; cbn [fs with_fs];
  destruct (decide (q = out)) as [->|];
  [ rewrite ?lookup_delete_eq; split; [left; reflexivity | intros _; reflexivity]
  | rewrite ?lookup_delete_ne, ?lookup_insert_ne by congruence;
    split; [right; reflexivity | cbn; intuition congruence] ].

(** One unit returns, leaves no new file, and removes the file of its
    ffmpeg chunk. *)
Lemma process_chunk_files (env : Env) (svc : TranscriptionService)
      (lang prompt : option string) (i : Z) (c : Chunk)
      (acc : list TranscriptionSegment * Z) (w : World) res w' :
  process_chunk env svc lang prompt i c acc w = (res, w') ->
  forall q, (fs w' !! q = None \/ fs w' !! q = fs w !! q)
            /\ (In q (chunk_files [c]) -> fs w' !! q = None).
Proof.
  destruct c as [[ca start] stop]. destruct acc as [segs failed].
  unfold process_chunk, try_except. cbv [bind].
  destruct ca as [path|src a b].
  - cbv [ret].
    destruct (transcribe_direct_returns env svc path None lang prompt w)
      as (r & w2 & -> & Hfs).
    rewrite unlink_missing_ok_eq.
    destruct r as [r|]; [|intros H; inversion H; subst; deleted_or_same Hfs path].
    destruct (success r); [destruct (segments r) as [|seg rest]|];
      rewrite ?unlink_missing_ok_eq; cbv [ret];
      intros H; inversion H; subst; deleted_or_same Hfs path.
  - destruct (pydub_export env src a b) as [f|].
    2:{ intros H; inversion H; subst. intros q.
        split; [right; reflexivity | intros []]. }
    rewrite write_file_eq. cbv [ret].
    destruct (transcribe_direct_returns env svc (chunk_path svc i) None lang prompt
                (with_fs (<[chunk_path svc i := f]> (fs w)) w))
      as (r & w2 & -> & Hfs).
    rewrite unlink_missing_ok_eq.
    destruct r as [r|];
      [|intros H; inversion H; subst; deleted_or_same Hfs (chunk_path svc i)].
    destruct (success r); [destruct (segments r) as [|seg rest]|];
      rewrite ?unlink_missing_ok_eq; cbv [ret];
      intros H; inversion H; subst; deleted_or_same Hfs (chunk_path svc i).
Qed.

Lemma process_chunks_files (env : Env) (svc : TranscriptionService)
      (lang prompt : option string) (w0 : World) :
  forall (chunks : list Chunk) (i : Z) (acc : list TranscriptionSegment * Z)
         (w : World) res w',
    no_new_files_but (chunk_files chunks) w0 w ->
    process_chunks env svc lang prompt i chunks acc w = (res, w') ->
    no_new_files_but [] w0 w'.
Proof.
  induction chunks as [|c rest IH]; intros i acc w res w' Hinv Hrun.
  - inversion Hrun; subst. exact Hinv.
  - cbn [process_chunks] in Hrun. unfold bind in Hrun.
    destruct acc as [segs failed].
    destruct (process_chunk_spec env svc lang prompt i c segs failed w) as [Hone _].
    pose proof (process_chunk_files env svc lang prompt i c _ w _ _ Hone) as H1.
    rewrite Hone in Hrun.
    eapply IH; [|exact Hrun].
    intros q. destruct (H1 q) as [[Hnone|Hsame] Hdel]; [left; exact Hnone|].
    destruct (Hinv q) as [H|[H|H]].
    + left. congruence.
    + right; left. congruence.
    + unfold chunk_files in H. cbn [flat_map] in H.
      apply in_app_or in H. destruct H as [H|H].
      * left. apply Hdel. unfold chunk_files. cbn [flat_map].
        rewrite app_nil_r. exact H.
      * right; right. exact H.
Qed.

(** X11. When [_transcribe_chunked] returns, every file that it
    or its planner wrote is gone again: each file that exists afterwards
    existed before with the same content, and a file that has disappeared
    lay at one of the chunk paths of the temporary directory. (An ffmpeg run
    that fails is taken to leave no output file.) *)
Theorem chunked_run_leaves_no_file_behind :
  forall (env : Env) (svc : TranscriptionService) (p : string)
         (aid lang prompt : option string) (w w' : World) (r : TranscriptionResult),
    _transcribe_chunked env svc p aid lang prompt w = (Ok r, w') ->
    fs w' ⊆ fs w
    /\ (forall q, (forall i, q <> chunk_path svc i) -> fs w' !! q = fs w !! q).
Proof.
  intros env svc p aid lang prompt w w' r Hrun.
  split; [|exact (transcribe_chunked_frame env svc p aid lang prompt w _ _ Hrun)].
  assert (Hgoal : no_new_files_but [] w w' -> fs w' ⊆ fs w).
  { intros Hinv. apply map_subseteq_spec. intros q x Hq.
    destruct (Hinv q) as [H|[H|[]]]; congruence. }
  assert (Hsame : forall w1, w1 = w -> no_new_files_but [] w w1).
  { intros w1 -> q. right; left. reflexivity. }
  apply Hgoal. clear Hgoal.
  unfold _transcribe_chunked, try_except, bind in Hrun.
  pose proof (probe_keeps_world env p w) as Hw.
  destruct (_get_audio_duration_efficient env p w) as [[total|e|] w1];
    simpl in Hw; subst w1;
    [| inversion Hrun; subst; apply Hsame; reflexivity | discriminate].
  destruct (_create_intelligent_chunks_ffmpeg env svc p total effective_duration_limit w)
    as [[chunks|e|] w2] eqn:Hplan;
    destruct (planner_files env svc p total _ w _ _ Hplan) as [Hok Hraise];
    [| inversion Hrun; subst; apply Hsame; apply (Hraise e eq_refl)
     | discriminate].
  specialize (Hok chunks eq_refl).
  destruct (chunks_needed_for total effective_duration_limit =? 0)%Z eqn:Hn.
  { (* the planner has raised when no chunk is needed *)
    exfalso. unfold _create_intelligent_chunks_ffmpeg in Hplan.
    rewrite Hn in Hplan.
    destruct (Qeq_bool effective_duration_limit 0); discriminate. }
  destruct (process_chunks env svc lang prompt 0 chunks ([], 0%Z) w2)
    as [[[segs failed]|e|] w3] eqn:Hloop;
    pose proof (process_chunks_files env svc lang prompt w chunks 0%Z _ w2 _ _
                  Hok Hloop) as H2;
    cbv [ret] in Hrun; inversion Hrun; subst; exact H2.
Qed.

Lemma chunked_run_leaves_no_file_behind_witness :
  fs (snd second_unit_rejected_chunked_run) ⊆ fs quarter_hour_world
  /\ (forall q, (forall i, q <> chunk_path Scenario.default_service i) ->
                fs (snd second_unit_rejected_chunked_run) !! q
                = fs quarter_hour_world !! q).
Proof.
  apply (chunked_run_leaves_no_file_behind
           second_unit_rejected Scenario.default_service "talk.mp3" (Some "talk")
           None None quarter_hour_world (snd second_unit_rejected_chunked_run)
           (result_of second_unit_rejected_chunked_run)).
  vm_compute. reflexivity.
Defined.

(** * The calls of a run *)

Lemma calls_at_most_weaken {A : Type} (n n' : nat) (m : M A) :
  (n <= n')%nat -> calls_at_most n m -> calls_at_most n' m.
Proof. intros Hn Hm w. specialize (Hm w). lia. Qed.

Lemma calls_at_most_bind {A B : Type} (a b : nat) (m : M A) (k : A -> M B) :
  calls_at_most a m -> (forall x, calls_at_most b (k x)) ->
  calls_at_most (a + b) (bind m k).
Proof.
  intros Hm Hk w. unfold bind. specialize (Hm w).
  destruct (m w) as [[x|e|] w1]; cbn [snd] in *; [|lia|lia].
  specialize (Hk x w1). lia.
Qed.

Lemma calls_at_most_try_except {A : Type} (a b : nat) (m : M A) (h : exn -> M A) :
  calls_at_most a m -> (forall e, calls_at_most b (h e)) ->
  calls_at_most (a + b) (try_except m h).
Proof.
  intros Hm Hh w. unfold try_except. specialize (Hm w).
  destruct (m w) as [[x|e|] w1]; cbn [snd] in *; [lia| |lia].
  specialize (Hh e w1). lia.
Qed.

Lemma quiet_ret {A : Type} (a : A) : quiet (ret a).
Proof. intros w. cbn. lia. Qed.

Lemma quiet_raise {A : Type} (e : exn) : quiet (@raise A e).
Proof. intros w. cbn. lia. Qed.

Lemma quiet_bind {A B : Type} (m : M A) (k : A -> M B) :
  quiet m -> (forall x, quiet (k x)) -> quiet (bind m k).
Proof. intros Hm Hk. apply (calls_at_most_bind 0 0); assumption. Qed.

Lemma quiet_try_except {A : Type} (m : M A) (h : exn -> M A) :
  quiet m -> (forall e, quiet (h e)) -> quiet (try_except m h).
Proof. intros Hm Hh. apply (calls_at_most_try_except 0 0); assumption. Qed.

Lemma quiet_get_fs : quiet get_fs.
Proof. intros w. cbn. lia. Qed.

Lemma quiet_set_fs (f : gmap string File) : quiet (set_fs f).
Proof. intros w. cbn. lia. Qed.

Lemma quiet_sleep (d : Q) : quiet (sleep d).
Proof. intros w. unfold sleep. destruct (Qlt_bool d 0); cbn; lia. Qed.

Lemma quiet_same_world {A : Type} (m : M A) :
  (forall w, snd (m w) = w) -> quiet m.
Proof. intros H w. rewrite H. lia. Qed.

Create HintDb quiet.
#[export] Hint Resolve quiet_ret quiet_raise quiet_get_fs quiet_set_fs quiet_sleep
  : quiet.

(** Takes a computation apart along its binds, handlers and case
    distinctions. *)
Ltac quiet_step :=
  match goal with
  | |- calls_at_most 0 ?m => change (quiet m)
  | |- quiet (bind _ _) => apply quiet_bind; [|intros ?]
  | |- quiet (try_except _ _) => apply quiet_try_except; [|intros ?]
  | |- quiet (match ?x with _ => _ end) => destruct x
  | |- quiet (let (_, _) := ?x in _) => destruct x
  | |- quiet _ => solve [eauto with quiet]
  end.

Ltac quiet_auto := repeat quiet_step.

Lemma quiet_stat (p : string) : quiet (stat p).
Proof. unfold stat. quiet_auto. Qed.

Lemma quiet_size_mb (p : string) : quiet (size_mb p).
Proof. unfold size_mb. quiet_auto. apply quiet_stat. Qed.

Lemma quiet_exists (p : string) : quiet (exists_ p).
Proof. unfold exists_. quiet_auto. Qed.

Lemma quiet_unlink (p : string) : quiet (unlink p).
Proof. unfold unlink. quiet_auto. Qed.

Lemma quiet_unlink_missing_ok (p : string) : quiet (unlink_missing_ok p).
Proof. unfold unlink_missing_ok. quiet_auto. Qed.

Lemma quiet_rename (src dst : string) : quiet (rename src dst).
Proof. unfold rename. quiet_auto. Qed.

Lemma quiet_write_file (p : string) (x : File) : quiet (write_file p x).
Proof. unfold write_file. quiet_auto. Qed.

Lemma quiet_probe (env : Env) (p : string) : quiet (_get_audio_duration_efficient env p).
Proof. apply quiet_same_world. apply probe_keeps_world. Qed.

#[export] Hint Resolve quiet_stat quiet_size_mb quiet_exists quiet_unlink
  quiet_unlink_missing_ok quiet_rename quiet_write_file quiet_probe : quiet.

Lemma quiet_planner (env : Env) (svc : TranscriptionService) (p : string) (total L : Q) :
  quiet (_create_intelligent_chunks_ffmpeg env svc p total L).
Proof.
  intros w.
  destruct (_create_intelligent_chunks_ffmpeg env svc p total L w) as [res w'] eqn:Hrun.
  destruct (planner_frame env svc p total L w res w' Hrun) as (_ & Hcalls & _).
  cbn [snd]. lia.
Qed.

Lemma quiet_replace_by_compressed (svc : TranscriptionService) (p : string) (x : File) :
  quiet (replace_by_compressed svc p x).
Proof. unfold replace_by_compressed. quiet_auto. Qed.

#[export] Hint Resolve quiet_planner quiet_replace_by_compressed : quiet.

Lemma quiet_compression_fallback (env : Env) (svc : TranscriptionService) (p : string) :
  quiet (_try_compression_pydub_fallback env svc p).
Proof. unfold _try_compression_pydub_fallback. quiet_auto. Qed.

#[export] Hint Resolve quiet_compression_fallback : quiet.

Lemma quiet_try_compression (env : Env) (svc : TranscriptionService) (p : string) :
  quiet (_try_compression env svc p).
Proof. unfold _try_compression. quiet_auto. Qed.

Lemma quiet_chunking_handles_size (env : Env) (svc : TranscriptionService)
      (p : string) (sz : Q) :
  quiet (chunking_handles_size env svc p sz).
Proof. unfold chunking_handles_size. quiet_auto. Qed.

#[export] Hint Resolve quiet_try_compression quiet_chunking_handles_size : quiet.

Lemma quiet_optimize (env : Env) (svc : TranscriptionService) (p aid : string) (sz : Q) :
  quiet (_optimize_audio_file env svc p aid sz).
Proof. unfold _optimize_audio_file. quiet_auto. Qed.

Lemma quiet_extract (env : Env) (svc : TranscriptionService) (v aid : string) :
  quiet (_extract_audio_from_video env svc v aid).
Proof. unfold _extract_audio_from_video. quiet_auto. Qed.

#[export] Hint Resolve quiet_optimize quiet_extract : quiet.

Lemma quiet_resolve (env : Env) (svc : TranscriptionService) (input : AudioInput) :
  quiet (_resolve_audio_input env svc input).
Proof. unfold _resolve_audio_input. quiet_auto. Qed.

Lemma quiet_cleanup (p : string) : quiet (_cleanup_temp_file p).
Proof. unfold _cleanup_temp_file. quiet_auto. Qed.

Lemma quiet_checked_duration (env : Env) (p : string) : quiet (checked_duration env p).
Proof. unfold checked_duration. quiet_auto. Qed.

#[export] Hint Resolve quiet_resolve quiet_cleanup quiet_checked_duration : quiet.

Lemma retry_loop_calls (env : Env) (svc : TranscriptionService)
      (p : string) (lang prompt : option string) :
  forall (remaining : nat) (a : Z),
    calls_at_most remaining (retry_loop env svc remaining a p lang prompt).
Proof.
  induction remaining as [|r IH]; intros a w.
  - cbn. lia.
  - rewrite retry_loop_step.
    destruct (audio_transcription env (api_calls w) p (fs w !! p) lang prompt) as [e|x].
    + destruct ((a <? max_retries svc)%Z && transient e).
      * pose proof (calls_at_most_bind 0 r (sleep (base_delay svc * inject_Z (2 ^ a)))
                      (fun _ => retry_loop env svc r (a + 1) p lang prompt)
                      (quiet_sleep _) (fun _ => IH (a + 1)%Z) (called w)) as H.
        cbn [called api_calls] in H. lia.
      * cbn. lia.
    + cbn. lia.
Qed.

Lemma direct_calls (env : Env) (svc : TranscriptionService)
      (p : string) (aid lang prompt : option string) :
  calls_at_most (calls_per_unit svc) (_transcribe_direct env svc p aid lang prompt).
Proof.
  unfold _transcribe_direct.
  apply (calls_at_most_weaken (calls_per_unit svc + 0)); [lia|].
  apply calls_at_most_try_except; [|intros e; apply quiet_ret].
  apply (calls_at_most_bind 0 (calls_per_unit svc)); [apply quiet_size_mb|].
  intros _.
  apply (calls_at_most_weaken (calls_per_unit svc + 0)); [lia|].
  apply calls_at_most_bind; [apply retry_loop_calls|].
  intros [r|]; [|apply quiet_ret].
  destruct (PyStr.truthy _); quiet_auto.
Qed.

Lemma process_chunk_calls (env : Env) (svc : TranscriptionService)
      (lang prompt : option string) (i : Z) (c : Chunk)
      (acc : list TranscriptionSegment * Z) :
  calls_at_most (calls_per_unit svc) (process_chunk env svc lang prompt i c acc).
Proof.
  destruct c as [[ca start] stop]. destruct acc as [segs failed].
  unfold process_chunk.
  apply (calls_at_most_weaken (calls_per_unit svc + 0)); [lia|].
  apply calls_at_most_try_except; [|intros e; apply quiet_ret].
  apply (calls_at_most_bind 0 (calls_per_unit svc)).
  { destruct ca as [path|src a b]; [apply quiet_ret|].
    destruct (pydub_export env src a b); quiet_auto. }
  intros out.
  apply (calls_at_most_weaken (calls_per_unit svc + 0)); [lia|].
  apply calls_at_most_bind; [apply direct_calls|].
  intros chunk_result. quiet_auto.
Qed.

Lemma process_chunks_calls (env : Env) (svc : TranscriptionService)
      (lang prompt : option string) :
  forall (chunks : list Chunk) (i : Z) (acc : list TranscriptionSegment * Z),
    calls_at_most (length chunks * calls_per_unit svc)
                  (process_chunks env svc lang prompt i chunks acc).
Proof.
  induction chunks as [|c rest IH]; intros i acc.
  - apply quiet_ret.
  - cbn [process_chunks length].
    apply (calls_at_most_weaken
             (calls_per_unit svc + length rest * calls_per_unit svc)); [lia|].
    apply calls_at_most_bind; [apply process_chunk_calls|].
    intros acc'. apply IH.
Qed.

Lemma chunked_calls (env : Env) (svc : TranscriptionService)
      (p : string) (aid lang prompt : option string) (w w' : World) res :
  _transcribe_chunked env svc p aid lang prompt w = (res, w') ->
  (api_calls w <= api_calls w')%nat
  /\ (forall r, res = Ok r ->
        (api_calls w' <= api_calls w + Z.to_nat (total_chunks r) * calls_per_unit svc)%nat).
Proof.
  unfold _transcribe_chunked, try_except, bind. intros Hrun.
  pose proof (probe_keeps_world env p w) as Hw.
  destruct (_get_audio_duration_efficient env p w) as [[total|e|] w1];
    simpl in Hw; subst w1;
    [| inversion Hrun; subst; split; [lia | intros r Hr; lia]
     | inversion Hrun; subst; split; [lia | intros r Hr; lia]].
  pose proof (quiet_planner env svc p total effective_duration_limit w) as Hplan.
  destruct (_create_intelligent_chunks_ffmpeg env svc p total effective_duration_limit w)
    as [[chunks|e|] w2]; cbn [snd] in Hplan;
    [| inversion Hrun; subst; split; [lia | intros r Hr; lia]
     | inversion Hrun; subst; split; [lia | intros r Hr; lia]].
  destruct (chunks_needed_for total effective_duration_limit =? 0)%Z;
    [inversion Hrun; subst; split; [lia | intros r Hr; lia]|].
  pose proof (process_chunks_calls env svc lang prompt chunks 0%Z ([], 0%Z) w2) as Hloop.
  destruct (process_chunks_spec env svc lang prompt chunks 0%Z [] 0%Z w2) as [Hspec _].
  rewrite Hspec in Hrun, Hloop. cbn [snd] in Hloop. cbv [ret] in Hrun.
  inversion Hrun; subst. split; [lia|].
  intros r Hr. inversion Hr; subst. cbn [total_chunks]. rewrite Nat2Z.id. lia.
Qed.

Lemma direct_total_chunks (env : Env) (svc : TranscriptionService)
      (p : string) (aid lang prompt : option string) (w w' : World)
      (r : TranscriptionResult) :
  _transcribe_direct env svc p aid lang prompt w = (Ok (Some r), w') ->
  total_chunks r = 1%Z.
Proof.
  unfold _transcribe_direct, try_except, bind. rewrite size_mb_eq. intros Hrun.
  destruct (fs w !! p) as [x|];
    [|cbv [ret] in Hrun; inversion Hrun; subst; reflexivity].
  destruct (_make_api_call_with_retry env svc p lang prompt w) as [[[resp|]|e|] w1];
    try discriminate;
    try (cbv [ret] in Hrun; inversion Hrun; subst; reflexivity).
  destruct (PyStr.truthy match resp_text resp with Some t => t | None => "" end);
    [|discriminate].
  rewrite size_mb_eq in Hrun.
  destruct (fs w1 !! p) as [y|];
    cbv [ret] in Hrun; inversion Hrun; subst; reflexivity.
Qed.

Lemma chunked_never_raises (env : Env) (svc : TranscriptionService)
      (p : string) (aid lang prompt : option string) :
  never_raises (_transcribe_chunked env svc p aid lang prompt).
Proof.
  unfold _transcribe_chunked. apply never_raises_try_except.
  intros e. apply never_raises_ret.
Qed.

Lemma resolved_calls (env : Env) (svc : TranscriptionService)
      (p aid : string) (lang prompt : option string) (w w' : World) res :
  transcribe_resolved env svc p aid lang prompt w = (res, w') ->
  (api_calls w <= api_calls w')%nat
  /\ (forall r, res = Ok r ->
        (api_calls w' <= api_calls w + Z.to_nat (total_chunks r) * calls_per_unit svc)%nat)
  /\ (forall e, res = Raise e -> (api_calls w' <= api_calls w + calls_per_unit svc)%nat).
Proof.
  unfold transcribe_resolved, bind. intros Hrun.
  assert (Hstop : forall w0,
             api_calls w0 = api_calls w ->
             forall res0, (res0, w0) = (res, w') ->
             (forall r, res0 = Ok r -> total_chunks r = 1%Z) ->
             (api_calls w <= api_calls w')%nat
             /\ (forall r, res = Ok r ->
                   (api_calls w' <= api_calls w
                                    + Z.to_nat (total_chunks r) * calls_per_unit svc)%nat)
             /\ (forall e, res = Raise e ->
                   (api_calls w' <= api_calls w + calls_per_unit svc)%nat)).
  { intros w0 Hw0 res0 H Hone. inversion H; subst.
    split; [lia|]. split; [|intros; lia].
    intros r Hr. rewrite (Hone r Hr). lia. }
  pose proof (quiet_exists p w) as H0.
  destruct (exists_ p w) as [[ex|e|] w0]; cbn [snd] in H0;
    [| eapply Hstop; [| exact Hrun | discriminate]; lia
     | eapply Hstop; [| exact Hrun | discriminate]; lia].
  destruct (negb ex).
  { eapply Hstop; [| exact Hrun |]; [lia|].
    intros r Hr. inversion Hr. reflexivity. }
  pose proof (quiet_size_mb p w0) as H1.
  destruct (size_mb p w0) as [[sz|e|] w1]; cbn [snd] in H1;
    [| eapply Hstop; [| exact Hrun | discriminate]; lia
     | eapply Hstop; [| exact Hrun | discriminate]; lia].
  pose proof (quiet_optimize env svc p aid sz w1) as H2.
  destruct (_optimize_audio_file env svc p aid sz w1) as [[[op opt]|e|] w2];
    cbn [snd] in H2;
    [| eapply Hstop; [| exact Hrun | discriminate]; lia
     | eapply Hstop; [| exact Hrun | discriminate]; lia].
  pose proof (quiet_size_mb op w2) as H3.
  destruct (size_mb op w2) as [[fsz|e|] w3]; cbn [snd] in H3;
    [| eapply Hstop; [| exact Hrun | discriminate]; lia
     | eapply Hstop; [| exact Hrun | discriminate]; lia].
  pose proof (quiet_checked_duration env op w3) as H4.
  destruct (checked_duration env op w3) as [[d|e|] w4]; cbn [snd] in H4;
    [| eapply Hstop; [| exact Hrun | discriminate]; lia
     | eapply Hstop; [| exact Hrun | discriminate]; lia].
  assert (Hcall : forall res5 w5,
             match chosen (strategy_decision svc fsz d) with
             | Direct => _transcribe_direct env svc op (Some aid) lang prompt
             | Chunked =>
                 bind (_transcribe_chunked env svc op (Some aid) lang prompt)
                      (fun r => ret (Some r))
             end w4 = (res5, w5) ->
             (api_calls w4 <= api_calls w5)%nat
             /\ (forall r, res5 = Ok (Some r) ->
                   (api_calls w5 <= api_calls w4
                                    + Z.to_nat (total_chunks r) * calls_per_unit svc)%nat)
             /\ (res5 = Ok None \/ (exists e, res5 = Raise e) ->
                 (api_calls w5 <= api_calls w4 + calls_per_unit svc)%nat)).
  { intros res5 w5 H. destruct (chosen (strategy_decision svc fsz d)).
    - pose proof (direct_calls env svc op (Some aid) lang prompt w4) as Hd.
      rewrite H in Hd. cbn [snd] in Hd.
      split; [lia|]. split; [|intros; lia].
      intros r ->. rewrite (direct_total_chunks _ _ _ _ _ _ _ _ _ H). lia.
    - unfold bind in H.
      pose proof (chunked_never_raises env svc op (Some aid) lang prompt w4) as Hnr.
      destruct (_transcribe_chunked env svc op (Some aid) lang prompt w4)
        as [res6 w6] eqn:Hc.
      destruct (chunked_calls env svc op (Some aid) lang prompt w4 w6 res6 Hc)
        as [Hmono Hbound].
      cbn [fst] in Hnr.
      destruct res6 as [r6|e|]; cbv [ret] in H; inversion H; subst.
      + split; [lia|]. split.
        * intros r Hr. inversion Hr; subst. apply Hbound. reflexivity.
        * intros [Hn|[e He]]; discriminate.
      + exfalso. apply (Hnr e). reflexivity.
      + split; [lia|]. split; [intros; discriminate|].
        intros [Hn|[e He]]; discriminate. }
  unfold bind in Hcall.
  destruct (match chosen (strategy_decision svc fsz d) with
            | Direct => _transcribe_direct env svc op (Some aid) lang prompt
            | Chunked =>
                fun w => let (r, w') := _transcribe_chunked env svc op (Some aid) lang prompt w in
                         match r with
                         | Ok a => ret (Some a) w'
                         | Raise e => (Raise e, w')
                         | Diverge => (Diverge, w')
                         end
            end w4) as [res5 w5] eqn:Hstrategy.
  destruct (Hcall res5 w5 eq_refl) as (Hmono & Hok & Hfail).
  destruct res5 as [[r0|]|e|].
  - specialize (Hok r0 eq_refl).
    pose proof (quiet_cleanup op w5) as Hclean.
    destruct ((if (op =? p)%string then ret tt else _cleanup_temp_file op) w5)
      as [[[]|e|] w6] eqn:Hend.
    + cbv [ret] in Hrun. inversion Hrun; subst.
      assert (Hw6 : api_calls w' = api_calls w5).
      { destruct (op =? p)%string; [inversion Hend; reflexivity|].
        rewrite Hend in Hclean. cbn [snd] in Hclean. lia. }
      split; [lia|]. split; [|intros; discriminate].
      intros r Hr. inversion Hr; subst. cbn [total_chunks]. lia.
    + inversion Hrun; subst.
      destruct (op =? p)%string; [discriminate|].
      exfalso. unfold _cleanup_temp_file, try_except in Hend.
      destruct (bind (exists_ op) _ w5) as [[?|?|] ?]; discriminate.
    + inversion Hrun; subst.
      assert (Hw6 : api_calls w' = api_calls w5).
      { destruct (op =? p)%string; [inversion Hend|].
        rewrite Hend in Hclean. cbn [snd] in Hclean. lia. }
      split; [lia|]. split; intros; discriminate.
  - cbv [raise] in Hrun. inversion Hrun; subst.
    specialize (Hfail (or_introl eq_refl)).
    split; [lia|]. split; [intros; discriminate | intros; lia].
  - inversion Hrun; subst.
    specialize (Hfail (or_intror (ex_intro _ e eq_refl))).
    split; [lia|]. split; [intros; discriminate | intros; lia].
  - inversion Hrun; subst. split; [lia|]. split; intros; discriminate.
Qed.



(** * The audio library *)

Module MetadataFacts.
Import Metadata.

Lemma dict_get_set_eq (d : Dict) (k : string) (v : AudioMetadata) :
  dict_get (dict_set d k v) k = Some v.
Proof.
  induction d as [|[k' v'] d IH]; cbn [dict_set dict_get].
  - rewrite String.eqb_refl. reflexivity.
  - destruct (String.eqb k' k) eqn:Hk; cbn [dict_get].
    + rewrite String.eqb_refl. reflexivity.
    + rewrite Hk. exact IH.
Qed.

Lemma dict_get_set_ne (d : Dict) (k k' : string) (v : AudioMetadata) :
  k' <> k -> dict_get (dict_set d k v) k' = dict_get d k'.
Proof.
  intros Hne. induction d as [|[k0 v0] d IH]; cbn [dict_set dict_get].
  - destruct (String.eqb k k') eqn:Hk; [|reflexivity].
    apply String.eqb_eq in Hk. congruence.
  - destruct (String.eqb k0 k) eqn:Hk; cbn [dict_get].
    + apply String.eqb_eq in Hk. subst k0.
      destruct (String.eqb k k') eqn:Hk'; [|reflexivity].
      apply String.eqb_eq in Hk'. congruence.
    + rewrite IH. reflexivity.
Qed.

Lemma dict_set_length (d : Dict) (k : string) (v : AudioMetadata) :
  length (dict_set d k v) = if dict_has d k then length d else S (length d).
Proof.
  unfold dict_has.
  induction d as [|[k' v'] d IH]; cbn [dict_set dict_get length]; [reflexivity|].
  destruct (String.eqb k' k); cbn [length]; [reflexivity|].
  rewrite IH. destruct (dict_get d k); reflexivity.
Qed.

Lemma dict_set_keys (d : Dict) (k : string) (v : AudioMetadata) :
  map fst (dict_set d k v)
  = if dict_has d k then map fst d else (map fst d ++ [k])%list.
Proof.
  unfold dict_has.
  induction d as [|[k' v'] d IH]; cbn [dict_set dict_get map fst app]; [reflexivity|].
  destruct (String.eqb k' k) eqn:Hk; cbn [map fst].
  - apply String.eqb_eq in Hk. subst. reflexivity.
  - rewrite IH. destruct (dict_get d k); reflexivity.
Qed.

Lemma dict_get_del_eq (d : Dict) (k : string) : dict_get (dict_del d k) k = None.
Proof.
  unfold dict_del.
  induction d as [|[k' v'] d IH]; cbn [List.filter dict_get fst]; [reflexivity|].
  destruct (String.eqb k' k) eqn:Hk; cbn [negb dict_get]; [exact IH|].
  rewrite Hk. exact IH.
Qed.

Lemma dict_get_del_ne (d : Dict) (k k' : string) :
  k' <> k -> dict_get (dict_del d k) k' = dict_get d k'.
Proof.
  intros Hne. unfold dict_del.
  induction d as [|[k0 v0] d IH]; cbn [List.filter dict_get fst]; [reflexivity|].
  destruct (String.eqb k0 k) eqn:Hk; cbn [negb dict_get].
  - apply String.eqb_eq in Hk. subst k0.
    destruct (String.eqb k k') eqn:Hk'; [|exact IH].
    apply String.eqb_eq in Hk'. congruence.
  - rewrite IH. reflexivity.
Qed.

Lemma dict_get_In (d : Dict) (k : string) (v : AudioMetadata) :
  dict_get d k = Some v -> In (k, v) d.
Proof.
  induction d as [|[k' v'] d IH]; cbn [dict_get]; [discriminate|].
  destruct (String.eqb k' k) eqn:Hk.
  - apply String.eqb_eq in Hk. intros H; inversion H; subst. left. reflexivity.
  - intros H. right. apply IH. exact H.
Qed.

Lemma In_dict_get (d : Dict) (k : string) (v : AudioMetadata) :
  unique_ids d -> In (k, v) d -> dict_get d k = Some v.
Proof.
  unfold unique_ids.
  induction d as [|[k' v'] d IH]; cbn [dict_get map fst]; [intros _ []|].
  intros Hnd [Heq|Hin].
  - inversion Heq; subst. rewrite String.eqb_refl. reflexivity.
  - inversion Hnd as [|? ? Hnot Hnd']; subst.
    destruct (String.eqb k' k) eqn:Hk.
    + apply String.eqb_eq in Hk. subst k'. exfalso. apply Hnot.
      apply list_elem_of_In. apply (in_map fst) in Hin. exact Hin.
    + apply IH; assumption.
Qed.

Lemma dict_del_length (d : Dict) (k : string) :
  unique_ids d -> dict_has d k = true -> S (length (dict_del d k)) = length d.
Proof.
  unfold unique_ids, dict_has, dict_del.
  induction d as [|[k' v'] d IH]; cbn [dict_get map fst List.filter length];
    [discriminate|].
  intros Hnd Hhas. inversion Hnd as [|? ? Hnot Hnd']; subst.
  destruct (String.eqb k' k) eqn:Hk; cbn [negb length].
  - apply String.eqb_eq in Hk. subst k'. f_equal.
    clear IH Hhas Hnd Hnd'.
    induction d as [|[k0 v0] d IH]; cbn [List.filter fst length]; [reflexivity|].
    destruct (String.eqb k0 k) eqn:Hk0.
    + apply String.eqb_eq in Hk0. subst k0. exfalso. apply Hnot.
      apply list_elem_of_In. left. reflexivity.
    + cbn [negb length]. f_equal. apply IH. intros H. apply Hnot.
      apply list_elem_of_In. right. apply list_elem_of_In. exact H.
  - f_equal. apply IH; assumption.
Qed.

Lemma fold_dict_del (ks : list string) :
  forall d : Dict,
    fold_left dict_del ks d
    = List.filter (fun kv => negb (existsb (String.eqb (fst kv)) ks)) d.
Proof.
  induction ks as [|k ks IH]; intros d; cbn [fold_left existsb].
  - induction d as [|kv d IHd]; cbn [List.filter negb]; [reflexivity|].
    f_equal. exact IHd.
  - rewrite IH. unfold dict_del.
    induction d as [|kv d IHd]; cbn [List.filter]; [reflexivity|].
    destruct (String.eqb (fst kv) k); cbn [negb orb List.filter].
    + exact IHd.
    + destruct (existsb (String.eqb (fst kv)) ks); cbn [negb]; [exact IHd|].
      f_equal. exact IHd.
Qed.

Lemma orphaned_iff (disk : Disk) (m : Dict) (kv : string * AudioMetadata) :
  unique_ids m -> In kv m ->
  negb (existsb (String.eqb (fst kv)) (orphaned_entries m disk))
  = present disk (file_path (snd kv)).
Proof.
  intros Hnd Hin. unfold orphaned_entries.
  destruct (present disk (file_path (snd kv))) eqn:Hp.
  - apply negb_true_iff. apply not_true_is_false. intros Hex.
    apply existsb_exists in Hex. destruct Hex as (k & Hk & Heq).
    apply String.eqb_eq in Heq. subst k.
    apply in_map_iff in Hk. destruct Hk as ([k' v'] & Hfst & Hk).
    apply filter_In in Hk. destruct Hk as [Hin' Hgone].
    cbn [fst snd] in Hfst, Hgone. subst k'.
    destruct kv as [k v]. cbn [fst snd] in *.
    pose proof (In_dict_get m k v Hnd Hin) as H1.
    pose proof (In_dict_get m k v' Hnd Hin') as H2.
    assert (v' = v) by congruence. subst v'.
    rewrite Hp in Hgone. discriminate.
  - apply negb_false_iff. apply existsb_exists. exists (fst kv).
    split; [|apply String.eqb_refl].
    apply in_map. apply filter_In. split; [exact Hin|]. rewrite Hp. reflexivity.
Qed.

Lemma with_audio_all (disk : Disk) (m : Dict) :
  orphaned_entries m disk = [] -> with_audio disk m = m.
Proof.
  unfold orphaned_entries, with_audio.
  induction m as [|kv m IH]; cbn [List.filter map]; [reflexivity|].
  destruct (present disk (file_path (snd kv))); cbn [negb map]; [|discriminate].
  intros H. f_equal. apply IH. exact H.
Qed.

(** [_cleanup_orphaned_metadata] keeps the entries whose audio file
    exists, in their order, and saves when it has dropped one. *)
Lemma cleanup_spec (disk : Disk) (m : Dict) :
  unique_ids m ->
  _cleanup_orphaned_metadata m disk
  = (with_audio disk m,
     match orphaned_entries m disk with
     | [] => disk
     | _ => save_metadata (with_audio disk m) disk
     end).
Proof.
  intros Hnd. unfold _cleanup_orphaned_metadata.
  destruct m as [|kv m]; [reflexivity|].
  destruct (orphaned_entries (kv :: m) disk) as [|k ks] eqn:Horph.
  - rewrite with_audio_all by exact Horph. reflexivity.
  - rewrite <- Horph.
    assert (Heq : fold_left dict_del (orphaned_entries (kv :: m) disk) (kv :: m)
                  = with_audio disk (kv :: m)).
    { rewrite fold_dict_del. unfold with_audio.
      apply filter_ext_in. intros x Hx. apply orphaned_iff; assumption. }
    rewrite Heq. reflexivity.
Qed.

Lemma dict_get_filter_notin (f : string * AudioMetadata -> bool) (m : Dict) (k : string) :
  k ∉ map fst m -> dict_get (List.filter f m) k = None.
Proof.
  induction m as [|[k' v'] m IH]; cbn [List.filter dict_get map fst]; [reflexivity|].
  intros Hnot.
  assert (Hk : String.eqb k' k = false).
  { apply String.eqb_neq. intros ->. apply Hnot. apply list_elem_of_In. left.
    reflexivity. }
  assert (Hrest : k ∉ map fst m).
  { intros H. apply Hnot. apply list_elem_of_In. right. apply list_elem_of_In.
    exact H. }
  destruct (f (k', v')); cbn [dict_get]; rewrite ?Hk; apply IH; exact Hrest.
Qed.

Lemma with_audio_get (disk : Disk) (m : Dict) (k : string) :
  unique_ids m ->
  dict_get (with_audio disk m) k
  = match dict_get m k with
    | Some v => if present disk (file_path v) then Some v else None
    | None => None
    end.
Proof.
  unfold with_audio, unique_ids.
  induction m as [|[k' v'] m IH]; cbn [List.filter dict_get snd map fst];
    [reflexivity|].
  intros Hnd. apply NoDup_cons in Hnd. destruct Hnd as [Hnot Hnd].
  destruct (String.eqb k' k) eqn:Hk.
  - apply String.eqb_eq in Hk. subst k'.
    destruct (present disk (file_path v')); cbn [dict_get].
    + rewrite String.eqb_refl. reflexivity.
    + apply dict_get_filter_notin. exact Hnot.
  - destruct (present disk (file_path v')); cbn [dict_get]; rewrite ?Hk;
      apply IH; exact Hnd.
Qed.

Lemma with_audio_unique (disk : Disk) (m : Dict) :
  unique_ids m -> unique_ids (with_audio disk m).
Proof.
  unfold with_audio, unique_ids.
  induction m as [|[k v] m IH]; cbn [List.filter map fst snd]; [auto|].
  intros Hnd. apply NoDup_cons in Hnd. destruct Hnd as [Hnot Hnd].
  destruct (present disk (file_path v)); cbn [map fst]; [|auto].
  apply NoDup_cons. split; [|auto].
  intros H. apply Hnot. apply list_elem_of_In. apply list_elem_of_In in H.
  apply in_map_iff in H. destruct H as (kv & Hfst & Hin).
  apply filter_In in Hin. apply in_map_iff. exists kv. tauto.
Qed.

Lemma with_audio_orphans (disk : Disk) (m : Dict) :
  orphaned_entries (with_audio disk m) disk = [].
Proof.
  unfold orphaned_entries, with_audio.
  induction m as [|kv m IH]; cbn [List.filter map]; [reflexivity|].
  destruct (present disk (file_path (snd kv))) eqn:Hp; cbn [List.filter]; [|exact IH].
  rewrite Hp. cbn [negb]. exact IH.
Qed.

Lemma orphans_count (disk : Disk) (m : Dict) :
  (length (orphaned_entries m disk) + length (with_audio disk m))%nat = length m.
Proof.
  unfold orphaned_entries, with_audio. rewrite length_map.
  induction m as [|kv m IH]; cbn [List.filter length]; [reflexivity|].
  destruct (present disk (file_path (snd kv))); cbn [negb length]; lia.
Qed.

Lemma dict_get_None_notin (d : Dict) (k : string) :
  dict_get d k = None -> k ∉ map fst d.
Proof.
  induction d as [|[k' v'] d IH]; cbn [dict_get map fst].
  - intros _ H. apply list_elem_of_In in H. destruct H.
  - destruct (String.eqb k' k) eqn:Hk; [discriminate|].
    intros Hnone H. apply list_elem_of_In in H. destruct H as [H|H].
    + subst. rewrite String.eqb_refl in Hk. discriminate.
    + apply (IH Hnone). apply list_elem_of_In. exact H.
Qed.

Lemma dict_set_unique (d : Dict) (k : string) (v : AudioMetadata) :
  unique_ids d -> unique_ids (dict_set d k v).
Proof.
  unfold unique_ids. rewrite dict_set_keys. unfold dict_has.
  destruct (dict_get d k) eqn:Hget; [auto|].
  intros Hnd. apply NoDup_app. split; [exact Hnd|]. split.
  - intros x Hx Hk. apply list_elem_of_In in Hk. destruct Hk as [<-|[]].
    apply (dict_get_None_notin d k Hget). exact Hx.
  - apply NoDup_singleton.
Qed.

(** X13. [add_metadata] returns the ID it was given, or the generated
    one, and files the record under it: [get_metadata] on that ID gives the
    record with the fields passed in, every other ID gives what it gave
    before. An ID that is taken already is overwritten without notice, and
    the number of entries stays; a new ID adds one entry. The dict has been
    written to the metadata file if that can be written. *)
Theorem add_then_get :
  forall (uuid4 now title original_url uploader duration file_path : string)
         (file_size : Z) (audio_format audio_quality : string)
         (upload_date : option string) (view_count : option Z)
         (audio_id : option string) (m : Dict) (disk : Disk),
    let id := match audio_id with
              | Some i => i
              | None => generate_audio_id uuid4 "audio"
              end in
    let record := {| Metadata.audio_id := id; Metadata.title := title;
                     Metadata.original_url := original_url;
                     Metadata.uploader := uploader; Metadata.duration := duration;
                     Metadata.upload_date := upload_date;
                     Metadata.view_count := view_count;
                     Metadata.file_path := file_path;
                     Metadata.file_size := file_size;
                     Metadata.download_date := now;
                     Metadata.audio_format := audio_format;
                     Metadata.audio_quality := audio_quality |} in
    exists (m' : Dict) (disk' : Disk),
      add_metadata uuid4 now title original_url uploader duration file_path file_size
                   audio_format audio_quality upload_date view_count audio_id m disk
      = (id, m', disk')
      /\ get_metadata m' id = Some record
      /\ (forall k, k <> id -> get_metadata m' k = get_metadata m k)
      /\ length (list_all m')
         = (if dict_has m id then length (list_all m) else S (length (list_all m)))
      /\ (unique_ids m -> unique_ids m')
      /\ (writable disk = true -> json disk' = Holds m').
Proof.
  intros. unfold add_metadata. fold id. fold record.
  eexists; eexists. split; [reflexivity|].
  unfold get_metadata, list_all. rewrite !length_map.
  split; [apply dict_get_set_eq|].
  split; [intros k Hk; apply dict_get_set_ne; exact Hk|].
  split; [apply dict_set_length|].
  split; [apply dict_set_unique|].
  intros Hw. unfold save_metadata. rewrite Hw. reflexivity.
Qed.

(** X14. [remove_metadata] says whether the ID was there. Afterwards
    the ID is unknown and every other ID gives what it gave before. When the
    ID was not there, neither the dict nor the metadata file is touched;
    when it was, the file is rewritten if it can be written. *)
Theorem remove_then_get :
  forall (audio_id : string) (m : Dict) (disk : Disk),
    exists (m' : Dict) (disk' : Disk),
      remove_metadata audio_id m disk = (dict_has m audio_id, m', disk')
      /\ get_metadata m' audio_id = None
      /\ (forall k, k <> audio_id -> get_metadata m' k = get_metadata m k)
      /\ (dict_has m audio_id = false -> m' = m /\ disk' = disk)
      /\ (dict_has m audio_id = true -> writable disk = true -> json disk' = Holds m')
      /\ (dict_has m audio_id = true -> unique_ids m ->
          S (length (list_all m')) = length (list_all m)).
Proof.
  intros audio_id m disk. unfold remove_metadata, get_metadata, list_all.
  destruct (dict_has m audio_id) eqn:Hhas.
  - eexists; eexists. split; [reflexivity|].
    split; [apply dict_get_del_eq|].
    split; [intros k Hk; apply dict_get_del_ne; exact Hk|].
    split; [discriminate|].
    split.
    + intros _ Hw. unfold save_metadata. rewrite Hw. reflexivity.
    + intros _ Hnd. rewrite !length_map. apply dict_del_length; assumption.
  - eexists; eexists. split; [reflexivity|].
    split.
    { unfold dict_has in Hhas. destruct (dict_get m audio_id); [discriminate|].
      reflexivity. }
    split; [reflexivity|].
    split; [auto|]. split; discriminate.
Qed.

(** X15. A manager created on a metadata file that holds a JSON object
    of records starts with exactly those records whose audio file exists, in
    the order of the file: the entries of missing files are dropped at once.
    So an ID that the manager knows always points to a file that exists.
    The file is rewritten (if it can be written) when an entry was dropped,
    and holds the dict of the manager afterwards. A missing file and a file
    that cannot be parsed give an empty library. *)
Theorem load_drops_orphans :
  forall (disk : Disk),
    (json disk = Absent \/ json disk = Garbled ->
     create_metadata_manager disk = inr ([], disk))
    /\ (forall d : Dict,
          json disk = Holds d ->
          unique_ids d ->
          exists disk' : Disk,
            create_metadata_manager disk = inr (with_audio disk d, disk')
            /\ (forall k v,
                  get_metadata (with_audio disk d) k = Some v
                  <-> get_metadata d k = Some v /\ present disk (file_path v) = true)
            /\ present disk' = present disk
            /\ (writable disk = true -> json disk' = Holds (with_audio disk d))
            /\ (orphaned_entries d disk = [] -> disk' = disk)).
Proof.
  intros disk. unfold create_metadata_manager, load_metadata. split.
  - intros [-> | ->]; reflexivity.
  - intros d Hjson Hnd. rewrite Hjson, (cleanup_spec disk d Hnd).
    eexists. split; [reflexivity|].
    split.
    { intros k v. unfold get_metadata. rewrite (with_audio_get disk d k Hnd).
      destruct (dict_get d k) as [v'|]; [|split; [discriminate | intros [H _]; discriminate]].
      destruct (present disk (file_path v')) eqn:Hp.
      - split; [intros H; inversion H; subst; auto | intros [H _]; exact H].
      - split; [discriminate|]. intros [H Hv]. inversion H; subst. congruence. }
    destruct (orphaned_entries d disk) as [|k ks] eqn:Horph.
    + split; [reflexivity|]. split; [|reflexivity].
      intros _. rewrite Hjson, with_audio_all by exact Horph. reflexivity.
    + unfold save_metadata.
      destruct (writable disk) eqn:Hw; cbn [present json].
      * split; [reflexivity|]. split; [reflexivity | discriminate].
      * split; [reflexivity|]. split; discriminate.
Qed.

(** X16. [cleanup_orphaned_metadata] returns the number of
    entries whose audio file is missing and leaves the others in the dict;
    called again at once, it finds nothing to remove, returns 0 and changes
    nothing. *)
Theorem cleanup_counts_and_settles :
  forall (m : Dict) (disk : Disk),
    unique_ids m ->
    exists disk' : Disk,
      cleanup_orphaned_metadata m disk
      = (Z.of_nat (length (orphaned_entries m disk)), with_audio disk m, disk')
      /\ cleanup_orphaned_metadata (with_audio disk m) disk'
         = (0%Z, with_audio disk m, disk').
Proof.
  intros m disk Hnd. unfold cleanup_orphaned_metadata.
  rewrite (cleanup_spec disk m Hnd).
  pose proof (orphans_count disk m) as Hcount.
  eexists. split.
  - f_equal. f_equal. lia.
  - assert (Hpresent : forall disk0 : Disk,
              present disk0 = present disk ->
              _cleanup_orphaned_metadata (with_audio disk m) disk0
              = (with_audio disk m, disk0)).
    { intros disk0 Hp.
      rewrite (cleanup_spec disk0 _ (with_audio_unique disk m Hnd)).
      assert (Horph : orphaned_entries (with_audio disk m) disk0 = []).
      { unfold orphaned_entries. rewrite Hp. apply with_audio_orphans. }
      rewrite Horph. rewrite with_audio_all by exact Horph. reflexivity. }
    rewrite Hpresent.
    + f_equal. f_equal. lia.
    + destruct (orphaned_entries m disk); [reflexivity|].
      unfold save_metadata. destruct (writable disk); reflexivity.
Qed.

Lemma three_talks_unique : unique_ids three_talks.
Proof. unfold unique_ids. apply (bool_decide_unpack _). vm_compute. exact I. Qed.

Lemma load_drops_orphans_witness :
  exists disk' : Disk,
    create_metadata_manager library_disk = inr (with_audio library_disk three_talks, disk')
    /\ (forall k v,
          get_metadata (with_audio library_disk three_talks) k = Some v
          <-> get_metadata three_talks k = Some v
              /\ present library_disk (file_path v) = true)
    /\ present disk' = present library_disk
    /\ (writable library_disk = true ->
        json disk' = Holds (with_audio library_disk three_talks))
    /\ (orphaned_entries three_talks library_disk = [] -> disk' = library_disk).
Proof.
  apply (proj2 (load_drops_orphans library_disk) three_talks).
  - reflexivity.
  - exact three_talks_unique.
Defined.

Lemma cleanup_counts_and_settles_witness :
  exists disk' : Disk,
    cleanup_orphaned_metadata three_talks library_disk
    = (1%Z, with_audio library_disk three_talks, disk')
    /\ cleanup_orphaned_metadata (with_audio library_disk three_talks) disk'
       = (0%Z, with_audio library_disk three_talks, disk').
Proof.
  apply (cleanup_counts_and_settles three_talks library_disk).
  exact three_talks_unique.
Defined.

(** X17. What one manager adds, the next manager finds: after
    [add_metadata] on a metadata file that can be written, a manager created
    on that file knows the new ID with the record that was filed, provided
    the audio file of the record exists. If that file does not exist, the
    new manager drops the entry while loading, and does not know the ID. *)
Theorem added_entry_meets_the_next_manager :
  forall (uuid4 now title original_url uploader duration file_path : string)
         (file_size : Z) (audio_format audio_quality : string)
         (upload_date : option string) (view_count : option Z)
         (audio_id : option string) (m : Dict) (disk : Disk),
    unique_ids m ->
    writable disk = true ->
    exists (id : string) (m' m'' : Dict) (disk' disk'' : Disk),
      add_metadata uuid4 now title original_url uploader duration file_path file_size
                   audio_format audio_quality upload_date view_count audio_id m disk
      = (id, m', disk')
      /\ create_metadata_manager disk' = inr (m'', disk'')
      /\ get_metadata m'' id
         = (if present disk file_path then get_metadata m' id else None)
      /\ is_Some (get_metadata m' id)
      /\ (forall k v, get_metadata m'' k = Some v -> present disk (Metadata.file_path v) = true).
Proof.
  intros uuid4 now title original_url uploader duration file_path file_size
         audio_format audio_quality upload_date view_count audio_id m disk Hnd Hw.
  unfold add_metadata.
  set (id := match audio_id with
             | Some i => i
             | None => generate_audio_id uuid4 "audio"
             end).
  set (record := {| Metadata.audio_id := id; Metadata.title := title;
                    Metadata.original_url := original_url;
                    Metadata.uploader := uploader; Metadata.duration := duration;
                    Metadata.upload_date := upload_date;
                    Metadata.view_count := view_count;
                    Metadata.file_path := file_path;
                    Metadata.file_size := file_size;
                    Metadata.download_date := now;
                    Metadata.audio_format := audio_format;
                    Metadata.audio_quality := audio_quality |}).
  pose proof (dict_set_unique m id record Hnd) as Hnd'.
  set (disk1 := {| json := Holds (dict_set m id record); present := present disk;
                   writable := true |}).
  exists id, (dict_set m id record), (with_audio disk1 (dict_set m id record)), disk1,
         (match orphaned_entries (dict_set m id record) disk1 with
          | [] => disk1
          | _ => save_metadata (with_audio disk1 (dict_set m id record)) disk1
          end).
  split; [unfold save_metadata; rewrite Hw; reflexivity|].
  split.
  { unfold create_metadata_manager, load_metadata. cbn [json disk1].
    rewrite (cleanup_spec _ _ Hnd'). reflexivity. }
  unfold get_metadata.
  split; [|split].
  - rewrite (with_audio_get _ _ id Hnd'). unfold disk1. cbn [present].
    rewrite dict_get_set_eq. reflexivity.
  - rewrite dict_get_set_eq. eexists. reflexivity.
  - intros k v. rewrite (with_audio_get _ _ k Hnd'). unfold disk1. cbn [present].
    destruct (dict_get (dict_set m id record) k) as [v'|]; [|discriminate].
    destruct (present disk (Metadata.file_path v')) eqn:Hp; [|discriminate].
    intros H. inversion H; subst. exact Hp.
Qed.

Lemma added_entry_meets_the_next_manager_witness :
  exists (id : string) (m' m'' : Dict) (disk' disk'' : Disk),
    add_metadata "0f8fad5b-d9cb-469f-a165-70867728950e" "2025-02-02T08:00:00"
                 "Another talk" "https://example.org/watch?v=4" "Speaker" "15:00"
                 "downloads/audio_1.mp3" 15728640 "mp3" "best" None None None
                 three_talks library_disk
    = (id, m', disk')
    /\ create_metadata_manager disk' = inr (m'', disk'')
    /\ get_metadata m'' id
       = (if present library_disk "downloads/audio_1.mp3"
          then get_metadata m' id else None)
    /\ is_Some (get_metadata m' id)
    /\ (forall k v, get_metadata m'' k = Some v ->
                    present library_disk (Metadata.file_path v) = true).
Proof.
  apply (added_entry_meets_the_next_manager
           "0f8fad5b-d9cb-469f-a165-70867728950e" "2025-02-02T08:00:00"
           "Another talk" "https://example.org/watch?v=4" "Speaker" "15:00"
           "downloads/audio_1.mp3" 15728640 "mp3" "best" None None None
           three_talks library_disk).
  - exact three_talks_unique.
  - reflexivity.
Defined.

End MetadataFacts.

(** * Registered audio IDs *)



(** * Creating the service *)

Lemma valid_model_is_named (model : string) :
  existsb (String.eqb model) ApiClient.VALID_TRANSCRIPTION_MODELS = true ->
  ApiClient.or_else (Some model) DEFAULT_TRANSCRIPTION_MODEL = model.
Proof.
  cbn [existsb ApiClient.VALID_TRANSCRIPTION_MODELS]. intros H.
  repeat (apply orb_true_iff in H; destruct H as [H|H]);
    try discriminate; apply String.eqb_eq in H; subst; reflexivity.
Qed.

(** X19. Creating the service succeeds exactly when the
    openai and pydub libraries are there, the model is one of the three
    valid transcription models, the temporary directory can be made, and the
    environment variable GEMINI_API_KEY is set and not empty. The client it
    gets always uses the gemini provider with that key, whatever the model.
    The [api_key] argument plays no part: it is not handed to the client. *)
Theorem service_creation_needs_the_gemini_key :
  forall (host : Host) (api_key : option string) (model : string) (max_retries : Z)
         (base_delay max_file_size_mb chunk_duration chunk_overlap : Q)
         (temp_dir : option string),
    let dir := match temp_dir with Some d => d | None => mkdtemp host end in
    create_transcription_service host api_key model max_retries base_delay
                                 max_file_size_mb chunk_duration chunk_overlap temp_dir
    = create_transcription_service host None model max_retries base_delay
                                   max_file_size_mb chunk_duration chunk_overlap temp_dir
    /\ forall (svc : TranscriptionService) (client : ApiClient.UnifiedAPIClient),
        create_transcription_service host api_key model max_retries base_delay
                                     max_file_size_mb chunk_duration chunk_overlap
                                     temp_dir
        = inr (svc, client)
        <-> (openai_available host = true
             /\ pydub_available host = true
             /\ In model ApiClient.VALID_TRANSCRIPTION_MODELS
             /\ mkdir host dir = None
             /\ svc = {| model := model; max_retries := max_retries;
                         base_delay := base_delay;
                         max_file_size_mb := max_file_size_mb;
                         chunk_duration := chunk_duration;
                         chunk_overlap := chunk_overlap; temp_dir := dir |}
             /\ exists key : string,
                 ApiClient.truthy_opt (getenv host "GEMINI_API_KEY") = Some key
                 /\ client = {| ApiClient.provider := "gemini";
                                ApiClient.model := model;
                                ApiClient.api_key := key |}).
Proof.
  intros host api_key model max_retries base_delay max_file_size_mb chunk_duration
         chunk_overlap temp_dir dir.
  split; [reflexivity|].
  intros svc client. unfold create_transcription_service. fold dir.
  destruct (openai_available host);
    [|split; [discriminate | intros (H & _); discriminate]].
  destruct (pydub_available host);
    [|split; [discriminate | intros (_ & H & _); discriminate]].
  cbn [negb].
  destruct (existsb (String.eqb model) ApiClient.VALID_TRANSCRIPTION_MODELS) eqn:Hvalid;
    cbn [negb].
  2:{ split; [discriminate|]. intros (_ & _ & Hin & _). exfalso.
      assert (existsb (String.eqb model) ApiClient.VALID_TRANSCRIPTION_MODELS = true).
      { apply existsb_exists. exists model. split; [exact Hin | apply String.eqb_refl]. }
      congruence. }
  assert (Hin : In model ApiClient.VALID_TRANSCRIPTION_MODELS).
  { apply existsb_exists in Hvalid. destruct Hvalid as (x & Hx & Heq).
    apply String.eqb_eq in Heq. subst. exact Hx. }
  destruct (mkdir host dir) as [e|];
    [split; [discriminate | intros (_ & _ & _ & H & _); discriminate]|].
  unfold ApiClient.create_api_client.
  rewrite (valid_model_is_named model Hvalid).
  cbn [ApiClient.or_else ApiClient.DEFAULT_PROVIDER existsb ApiClient.PROVIDERS
       String.eqb Ascii.eqb Bool.eqb orb negb ApiClient.truthy_opt].
  destruct (ApiClient.truthy_opt (getenv host "GEMINI_API_KEY")) as [key|].
  - split.
    + intros H. inversion H; subst. repeat split; auto. exists key. auto.
    + intros (_ & _ & _ & _ & -> & key' & Hkey & ->). inversion Hkey. reflexivity.
  - split; [discriminate|].
    intros (_ & _ & _ & _ & _ & key' & Hkey & _). discriminate.
Qed.

(** A response that the retry loop returns is the answer to one of its
    calls. *)
Lemma retry_loop_answer (env : Env) (svc : TranscriptionService)
      (p : string) (lang prompt : option string) :
  forall (remaining : nat) (a : Z) (w w' : World) (r : Response),
    retry_loop env svc remaining a p lang prompt w = (Ok (Some r), w') ->
    exists n : nat,
      audio_transcription env n p (fs w !! p) lang prompt = ApiReturn r.
Proof.
  induction remaining as [|m IH]; intros a w w' r Hrun.
  - discriminate.
  - rewrite retry_loop_step in Hrun.
    destruct (audio_transcription env (api_calls w) p (fs w !! p) lang prompt)
      as [e|x] eqn:Hcall.
    + destruct ((a <? max_retries svc)%Z && transient e); [|discriminate].
      unfold bind in Hrun.
      destruct (sleep_cases (base_delay svc * inject_Z (2 ^ a)) (called w))
        as [(e' & Hs)|Hs]; rewrite Hs in Hrun; [discriminate|].
      apply IH in Hrun. exact Hrun.
    + inversion Hrun; subst. eauto.
Qed.

(** X20. With a client of the gemini provider, which is the one
    every service is created with, an answer carries a text and no language:
    the language of a successful direct result is the language that the
    caller passed, [None] if none was passed, and never a detected one. The
    text is what the Gemini model returned for the service's model and the
    instruction text built from prompt and language, at temperature 0. *)
Theorem gemini_results_echo_the_language :
  forall (host : Host) (backends : nat -> Backends) (env : Env)
         (svc : TranscriptionService) (client : ApiClient.UnifiedAPIClient)
         (p : string) (aid lang prompt : option string) (w w' : World)
         (r : TranscriptionResult),
    ApiClient.provider client = "gemini" ->
    audio_transcription env = service_client host backends svc client ->
    _transcribe_direct env svc p aid lang prompt w = (Ok (Some r), w') ->
    success r = true ->
    language r = lang
    /\ exists (n : nat) (key : string),
        ApiClient.truthy_opt (getenv host "GEMINI_API_KEY") = Some key
        /\ gemini_generate (backends n) key
                           (ApiClient.or_else (Some (model svc))
                                              DEFAULT_TRANSCRIPTION_MODEL)
                           (ApiClient.transcription_prompt lang prompt)
                           (fs w !! p) 0
           = inr (Some (full_transcript r)).
Proof.
  intros host backends env svc client p aid lang prompt w w' r
         Hprovider Henv Hrun Hsuccess.
  unfold _transcribe_direct, try_except, bind in Hrun.
  rewrite size_mb_eq in Hrun.
  destruct (fs w !! p) as [x|] eqn:Hp;
    [|cbv [ret] in Hrun; inversion Hrun; subst; discriminate].
  unfold _make_api_call_with_retry in Hrun.
  destruct (retry_loop env svc (Z.to_nat (max_retries svc + 1)) 0 p lang prompt w)
    as [[[resp|]|e|] w1] eqn:Hloop;
    try (cbv [ret] in Hrun; inversion Hrun; subst; discriminate).
  destruct (retry_loop_answer env svc p lang prompt _ _ _ _ _ Hloop) as [n Hcall].
  rewrite Henv, Hp in Hcall.
  unfold service_client, ApiClient.audio_transcription in Hcall.
  rewrite Hprovider in Hcall. cbn [String.eqb Ascii.eqb Bool.eqb] in Hcall.
  unfold ApiClient._gemini_audio_transcription in Hcall.
  destruct (genai_available host); [|discriminate].
  cbn [negb] in Hcall.
  destruct (ApiClient.truthy_opt (getenv host "GEMINI_API_KEY")) as [key|];
    [|discriminate].
  assert (Htemp : Qmin 0 0.3 = 0) by reflexivity.
  rewrite Htemp in Hcall.
  destruct (gemini_generate (backends n) key _ _ _ 0) as [e|t] eqn:Hgen;
    [discriminate|].
  inversion Hcall; subst resp. cbn [resp_text resp_language] in Hrun.
  destruct t as [t|]; cbn [PyStr.truthy] in Hrun; [|discriminate].
  destruct (PyStr.truthy t); [|discriminate].
  rewrite size_mb_eq in Hrun.
  destruct (fs w1 !! p) as [y|];
    cbv [ret] in Hrun; inversion Hrun; subst; [|discriminate].
  split; [reflexivity|]. exists n, key. split; [reflexivity|].
  cbn [full_transcript]. exact Hgen.
Qed.

Lemma gemini_results_echo_the_language_witness :
  language (direct_result_of gemini_direct_run) = Some "pt"
  /\ exists (n : nat) (key : string),
      ApiClient.truthy_opt (getenv gemini_host "GEMINI_API_KEY") = Some key
      /\ gemini_generate (gemini_backends n) key
                         (ApiClient.or_else (Some (model Scenario.default_service))
                                            DEFAULT_TRANSCRIPTION_MODEL)
                         (ApiClient.transcription_prompt (Some "pt") None)
                         (fs short_talk_world !! "talk.mp3") 0
         = inr (Some (full_transcript (direct_result_of gemini_direct_run))).
Proof.
  apply (gemini_results_echo_the_language
           gemini_host gemini_backends gemini_env Scenario.default_service
           gemini_client "talk.mp3" (Some "talk") (Some "pt") None short_talk_world
           (snd gemini_direct_run) (direct_result_of gemini_direct_run)).
  - reflexivity.
  - reflexivity.
  - vm_compute. reflexivity.
  - vm_compute. reflexivity.
Defined.

(** * Optimiser and strategy agree *)

(** X21. When [_optimize_audio_file] skips the compression
    with the label "chunking_optimized", it has touched nothing, the file
    lasts longer than the safe duration, its size divided by
    [ceil(duration / 720)] is within the size limit, and the strategy that
    [transcribe_audio] selects next, from the same measurement, is the
    chunked one, whatever the size: the promise that chunking will take care
    of the size is kept. *)
Theorem skipped_compression_is_followed_by_chunking :
  forall (env : Env) (svc : TranscriptionService) (p aid q : string) (sz : Q)
         (w w' : World),
    _optimize_audio_file env svc p aid sz w = (Ok (q, Some chunking_optimized), w') ->
    q = p /\ w' = w
    /\ max_file_size_mb svc < sz
    /\ exists d : Q,
        checked_duration env p w' = (Ok d, w')
        /\ safe_duration_limit < d
        /\ sz / inject_Z (Qceiling (d / safe_duration_limit)) <= max_file_size_mb svc
        /\ forall final_file_size_mb,
            chosen (strategy_decision svc final_file_size_mb d) = Chunked.
Proof.
  intros env svc p aid q sz w w' Hrun.
  unfold _optimize_audio_file in Hrun.
  destruct (Qle_bool sz (max_file_size_mb svc)) eqn:Hle; [discriminate|].
  unfold bind at 1 in Hrun.
  pose proof (chunking_handles_size_returns env svc p sz w) as [b Hb].
  rewrite Hb in Hrun. destruct b.
  2:{ exfalso. unfold bind in Hrun.
      destruct (_try_compression env svc p w) as [[[cp|]|e|] w1]; try discriminate.
      destruct (size_mb cp w1) as [[csz|e|] w2]; try discriminate.
      destruct (Qle_bool csz (max_file_size_mb svc)); discriminate. }
  cbv [ret] in Hrun. inversion Hrun; subst q w'. clear Hrun.
  split; [reflexivity|]. split; [reflexivity|].
  split; [reflect_Q; exact Hle|].
  unfold chunking_handles_size, try_except, bind in Hb.
  rewrite checked_duration_spec.
  pose proof (probe_keeps_world env p w) as Hw.
  destruct (_get_audio_duration_efficient env p w) as [[d|e|] w1];
    cbn [fst snd] in *; subst; try discriminate.
  exists d. split; [reflexivity|].
  destruct (Qlt_bool safe_duration_limit d) eqn:Hlong; [|discriminate].
  cbv [ret] in Hb. inversion Hb as [Hsmall].
  split; [reflect_Q; exact Hlong|].
  split; [apply Qle_bool_iff; exact Hsmall|].
  intros fsz. unfold strategy_decision.
  assert (Hd : Qle_bool d safe_duration_limit = false).
  { apply Qle_bool_false_iff. reflect_Q. exact Hlong. }
  rewrite Hd, andb_false_r. reflexivity.
Qed.

Lemma skipped_compression_is_followed_by_chunking_witness :
  "talk.mp3" = "talk.mp3" /\ long_big_world = long_big_world
  /\ max_file_size_mb Scenario.default_service < 40
  /\ exists d : Q,
      checked_duration Scenario.healthy "talk.mp3" long_big_world
      = (Ok d, long_big_world)
      /\ safe_duration_limit < d
      /\ 40 / inject_Z (Qceiling (d / safe_duration_limit))
         <= max_file_size_mb Scenario.default_service
      /\ forall final_file_size_mb,
          chosen (strategy_decision Scenario.default_service final_file_size_mb d)
          = Chunked.
Proof.
  apply (skipped_compression_is_followed_by_chunking
           Scenario.healthy Scenario.default_service "talk.mp3" "talk" "talk.mp3" 40
           long_big_world long_big_world).
  vm_compute. reflexivity.
Defined.

(** * The files of a whole run *)

Section Touches.

Context (S : string -> Prop).

Lemma touches_only_ret {A : Type} (a : A) : touches_only S (ret a).
Proof. intros w q _. reflexivity. Qed.

Lemma touches_only_raise {A : Type} (e : exn) : touches_only S (@raise A e).
Proof. intros w q _. reflexivity. Qed.

Lemma touches_only_bind {A B : Type} (m : M A) (k : A -> M B) :
  touches_only S m -> (forall x, touches_only S (k x)) -> touches_only S (bind m k).
Proof.
  intros Hm Hk w q Hq. unfold bind. specialize (Hm w q Hq).
  destruct (m w) as [[x|e|] w1]; cbn [snd] in *; [|exact Hm|exact Hm].
  rewrite (Hk x w1 q Hq). exact Hm.
Qed.

Lemma touches_only_try_except {A : Type} (m : M A) (h : exn -> M A) :
  touches_only S m -> (forall e, touches_only S (h e)) ->
  touches_only S (try_except m h).
Proof.
  intros Hm Hh w q Hq. unfold try_except. specialize (Hm w q Hq).
  destruct (m w) as [[x|e|] w1]; cbn [snd] in *; [exact Hm| |exact Hm].
  rewrite (Hh e w1 q Hq). exact Hm.
Qed.

Lemma touches_only_same_fs {A : Type} (m : M A) :
  (forall w, fs (snd (m w)) = fs w) -> touches_only S m.
Proof. intros H w q _. rewrite H. reflexivity. Qed.

Lemma touches_only_get_fs : touches_only S get_fs.
Proof. intros w q _. reflexivity. Qed.

Lemma touches_only_stat (p : string) : touches_only S (stat p).
Proof. intros w q _. rewrite stat_eq. reflexivity. Qed.

Lemma touches_only_size_mb (p : string) : touches_only S (size_mb p).
Proof. intros w q _. rewrite size_mb_eq. reflexivity. Qed.

Lemma touches_only_exists (p : string) : touches_only S (exists_ p).
Proof. intros w q _. reflexivity. Qed.

Lemma touches_only_write_file (p : string) (x : File) :
  S p -> touches_only S (write_file p x).
Proof.
  intros Hp w q Hq. rewrite write_file_eq. cbn [snd fs with_fs].
  apply lookup_insert_ne. intros ->. contradiction.
Qed.

Lemma touches_only_unlink (p : string) : S p -> touches_only S (unlink p).
Proof.
  intros Hp w q Hq. rewrite unlink_eq.
  destruct (fs w !! p); [|reflexivity]. cbn [snd fs with_fs].
  apply lookup_delete_ne. intros ->. contradiction.
Qed.

Lemma touches_only_unlink_missing_ok (p : string) :
  S p -> touches_only S (unlink_missing_ok p).
Proof.
  intros Hp w q Hq. rewrite unlink_missing_ok_eq. cbn [snd fs with_fs].
  apply lookup_delete_ne. intros ->. contradiction.
Qed.

Lemma touches_only_rename (src dst : string) :
  S src -> S dst -> touches_only S (rename src dst).
Proof.
  intros Hsrc Hdst w q Hq. rewrite rename_eq.
  destruct (fs w !! src); [|reflexivity]. cbn [snd fs with_fs].
  rewrite lookup_insert_ne by (intros ->; contradiction).
  apply lookup_delete_ne. intros ->. contradiction.
Qed.

Lemma touches_only_probe (env : Env) (p : string) :
  touches_only S (_get_audio_duration_efficient env p).
Proof. apply touches_only_same_fs. intros w. rewrite probe_keeps_world. reflexivity. Qed.

Lemma touches_only_direct (env : Env) (svc : TranscriptionService)
      (p : string) (aid lang prompt : option string) :
  touches_only S (_transcribe_direct env svc p aid lang prompt).
Proof.
  apply touches_only_same_fs. intros w.
  destruct (transcribe_direct_returns env svc p aid lang prompt w) as (r & w' & -> & Hfs).
  exact Hfs.
Qed.

End Touches.

Create HintDb touches.
#[export] Hint Resolve touches_only_ret touches_only_raise touches_only_get_fs
  touches_only_stat touches_only_size_mb touches_only_exists touches_only_write_file
  touches_only_unlink touches_only_unlink_missing_ok touches_only_rename
  touches_only_probe touches_only_direct : touches.

(** Takes a computation apart along its binds, handlers and case
    distinctions. *)
Ltac touches_step :=
  match goal with
  | |- touches_only _ (bind _ _) => apply touches_only_bind; [|intros ?]
  | |- touches_only _ (try_except _ _) => apply touches_only_try_except; [|intros ?]
  | |- touches_only _ (match ?x with _ => _ end) => destruct x
  | |- touches_only _ (let (_, _) := ?x in _) => destruct x
  | |- touches_only _ _ => solve [eauto with touches]
  end.

Ltac touches_auto := repeat touches_step.

Lemma touches_only_replace_by_compressed (S : string -> Prop)
      (svc : TranscriptionService) (p : string) (x : File) :
  S p -> S (compressed_path svc p) ->
  touches_only S (replace_by_compressed svc p x).
Proof. intros Hp Hc. unfold replace_by_compressed. touches_auto. Qed.

Lemma touches_only_compression_fallback (S : string -> Prop) (env : Env)
      (svc : TranscriptionService) (p : string) :
  S p -> S (compressed_path svc p) ->
  touches_only S (_try_compression_pydub_fallback env svc p).
Proof.
  intros Hp Hc. unfold _try_compression_pydub_fallback. touches_auto.
  apply touches_only_replace_by_compressed; assumption.
Qed.

Lemma touches_only_try_compression (S : string -> Prop) (env : Env)
      (svc : TranscriptionService) (p : string) :
  S p -> S (compressed_path svc p) ->
  touches_only S (_try_compression env svc p).
Proof.
  intros Hp Hc. unfold _try_compression.
  pose proof (touches_only_compression_fallback S env svc p Hp Hc).
  pose proof (touches_only_replace_by_compressed S svc p) as Hrep.
  touches_auto; auto.
Qed.

Lemma touches_only_optimize (S : string -> Prop) (env : Env)
      (svc : TranscriptionService) (p aid : string) (sz : Q) :
  S p -> S (compressed_path svc p) ->
  touches_only S (_optimize_audio_file env svc p aid sz).
Proof.
  intros Hp Hc. unfold _optimize_audio_file, chunking_handles_size.
  pose proof (touches_only_try_compression S env svc p Hp Hc).
  touches_auto.
Qed.

Lemma touches_only_chunked (S : string -> Prop) (env : Env)
      (svc : TranscriptionService) (p : string) (aid lang prompt : option string) :
  (forall i, S (chunk_path svc i)) ->
  touches_only S (_transcribe_chunked env svc p aid lang prompt).
Proof.
  intros Hchunks w q Hq.
  destruct (_transcribe_chunked env svc p aid lang prompt w) as [res w'] eqn:Hrun.
  apply (transcribe_chunked_frame env svc p aid lang prompt w res w' Hrun).
  intros i ->. apply Hq. apply Hchunks.
Qed.

Lemma touches_only_resolve (env : Env) (svc : TranscriptionService)
      (input : AudioInput) (w w0 : World) (p aid : string) :
  _resolve_audio_input env svc input w = (Ok (p, aid), w0) ->
  forall q, q <> extracted_path svc aid -> fs w0 !! q = fs w !! q.
Proof.
  assert (Hcont : forall input_path,
             (if is_video input_path
              then
                do v <- stat input_path;
                do extracted <- _extract_audio_from_video env svc input_path
                                                          (PyPath.stem input_path);
                match extracted with
                | Some a =>
                    stat a ;;
                    (if (st_size v =? 0)%Z then raise zero_division
                     else ret (a, PyPath.stem input_path))
                | None => ret (input_path, PyPath.stem input_path)
                end
              else ret (input_path, PyPath.stem input_path)) w = (Ok (p, aid), w0) ->
             forall q, q <> extracted_path svc aid -> fs w0 !! q = fs w !! q).
  { intros input_path Hrun q Hq.
    destruct (is_video input_path);
      [|cbv [ret] in Hrun; inversion Hrun; reflexivity].
    unfold bind at 1 in Hrun. rewrite stat_eq in Hrun.
    destruct (fs w !! input_path) as [v|] eqn:Hv; [|discriminate].
    unfold bind at 1, _extract_audio_from_video in Hrun.
    destruct (which_ffmpeg env); cbn [negb] in Hrun;
      [|cbv [ret] in Hrun; inversion Hrun; reflexivity].
    unfold bind at 1, get_fs in Hrun. rewrite Hv in Hrun.
    destruct (ffmpeg_extract_audio env v) as [a|];
      [|cbv [ret] in Hrun; inversion Hrun; reflexivity].
    unfold bind at 1 in Hrun. rewrite write_file_eq in Hrun. cbv [ret] in Hrun.
    unfold bind at 1 in Hrun. rewrite stat_eq in Hrun. cbn [fs with_fs] in Hrun.
    rewrite lookup_insert_eq in Hrun.
    destruct (st_size v =? 0)%Z; [discriminate|].
    inversion Hrun; subst. cbn [fs with_fs].
    apply lookup_insert_ne. congruence. }
  unfold _resolve_audio_input. destruct input as [path|s].
  - apply Hcont.
  - destruct (metadata_file_path env s) as [file_path|]; [|apply Hcont].
    intros H q _. cbv [ret] in H. inversion H. reflexivity.
Qed.

Lemma optimize_keeps_path (env : Env) (svc : TranscriptionService)
      (p aid q : string) (sz : Q) (opt : option Optimization) (w w' : World) :
  _optimize_audio_file env svc p aid sz w = (Ok (q, opt), w') -> q = p.
Proof.
  unfold _optimize_audio_file.
  destruct (Qle_bool sz (max_file_size_mb svc));
    [intros H; inversion H; reflexivity|].
  unfold bind at 1.
  destruct (chunking_handles_size_returns env svc p sz w) as [b ->].
  destruct b; [intros H; inversion H; reflexivity|].
  unfold bind at 1.
  destruct (_try_compression env svc p w) as [[[cp|]|e|] w1] eqn:Hcomp;
    try discriminate; [|intros H; inversion H; reflexivity].
  destruct (try_compression_success env svc p cp w w1 Hcomp) as (-> & _).
  unfold bind.
  destruct (size_mb p w1) as [[csz|e|] w2]; try discriminate.
  destruct (Qle_bool csz (max_file_size_mb svc)); intros H; inversion H; reflexivity.
Qed.

Lemma touches_only_resolved (env : Env) (svc : TranscriptionService)
      (p aid : string) (lang prompt : option string) (S : string -> Prop) :
  S p -> S (compressed_path svc p) -> (forall i, S (chunk_path svc i)) ->
  touches_only S (transcribe_resolved env svc p aid lang prompt).
Proof.
  intros Hp Hc Hchunks w q Hq.
  unfold transcribe_resolved, bind.
  assert (Hsame : forall (A : Type) (m : M A) (w1 : World),
             touches_only S m -> fs w1 !! q = fs w !! q ->
             fs (snd (m w1)) !! q = fs w !! q).
  { intros A m w1 Hm H. rewrite (Hm w1 q Hq). exact H. }
  pose proof (Hsame _ (exists_ p) w (touches_only_exists S p) eq_refl) as H0.
  destruct (exists_ p w) as [[ex|e|] w0]; cbn [snd] in H0; try exact H0.
  destruct (negb ex); [exact H0|].
  pose proof (Hsame _ (size_mb p) w0 (touches_only_size_mb S p) H0) as H1.
  destruct (size_mb p w0) as [[sz|e|] w1]; cbn [snd] in H1; try exact H1.
  pose proof (Hsame _ (_optimize_audio_file env svc p aid sz) w1
                (touches_only_optimize S env svc p aid sz Hp Hc) H1) as H2.
  destruct (_optimize_audio_file env svc p aid sz w1) as [[[op opt]|e|] w2] eqn:Hopt;
    cbn [snd] in H2; try exact H2.
  apply optimize_keeps_path in Hopt. subst op.
  pose proof (Hsame _ (size_mb p) w2 (touches_only_size_mb S p) H2) as H3.
  destruct (size_mb p w2) as [[fsz|e|] w3]; cbn [snd] in H3; try exact H3.
  assert (Hcd : touches_only S (checked_duration env p)).
  { unfold checked_duration. touches_auto. }
  pose proof (Hsame _ (checked_duration env p) w3 Hcd H3) as H4.
  destruct (checked_duration env p w3) as [[d|e|] w4]; cbn [snd] in H4; try exact H4.
  assert (Hcall : touches_only S
                    (match chosen (strategy_decision svc fsz d) with
                     | Direct => _transcribe_direct env svc p (Some aid) lang prompt
                     | Chunked =>
                         bind (_transcribe_chunked env svc p (Some aid) lang prompt)
                              (fun r => ret (Some r))
                     end)).
  { destruct (chosen (strategy_decision svc fsz d)).
    - apply touches_only_direct.
    - apply touches_only_bind; [apply touches_only_chunked; exact Hchunks|].
      intros r. apply touches_only_ret. }
  pose proof (Hsame _ _ w4 Hcall H4) as H5. unfold bind in H5.
  destruct (match chosen (strategy_decision svc fsz d) with
            | Direct => _transcribe_direct env svc p (Some aid) lang prompt
            | Chunked =>
                fun w => let (r, w') := _transcribe_chunked env svc p (Some aid) lang prompt w in
                         match r with
                         | Ok a => ret (Some a) w'
                         | Raise e => (Raise e, w')
                         | Diverge => (Diverge, w')
                         end
            end w4) as [[[r0|]|e|] w5]; cbn [snd] in H5; try exact H5.
  rewrite String.eqb_refl. exact H5.
Qed.



(** * The direct run *)

(** What [_transcribe_direct] does with an answer that carries a text. *)
Lemma direct_with_text (env : Env) (svc : TranscriptionService) (p : string)
      (aid lang prompt : option string) (w : World) (x : File) (r : Response)
      (t : string) :
  (0 <= max_retries svc)%Z ->
  fs w !! p = Some x ->
  audio_transcription env (api_calls w) p (Some x) lang prompt = ApiReturn r ->
  resp_text r = Some t ->
  t <> "" ->
  _transcribe_direct env svc p aid lang prompt w
  = (Ok (Some {| success := true; audio_id := aid; full_transcript := t;
                 segments := [{| start_time := 0; end_time := 0; text := t |}];
                 language := match resp_language r with Some l => l | None => lang end;
                 model_used := model svc; total_chunks := 1; failed_chunks := 0;
                 file_size_mb := inject_Z (st_size x) / MB;
                 optimization_applied := None; error_message := None |}),
     called w).
Proof.
  intros Hretries Hp Hcall Htext Ht.
  unfold _transcribe_direct, try_except, bind at 1.
  rewrite size_mb_eq, Hp. unfold bind at 1, _make_api_call_with_retry.
  replace (Z.to_nat (max_retries svc + 1)) with (S (Z.to_nat (max_retries svc))) by lia.
  rewrite retry_loop_step, Hp, Hcall. rewrite Htext.
  destruct t as [|c t]; [congruence|]. cbn [PyStr.truthy].
  unfold bind. rewrite size_mb_eq. cbn [fs called]. rewrite Hp. reflexivity.
Qed.

(** X23. The direct run at its best. The input resolves to an
    existing file within the size limit and the safe duration, and the first
    call to the client returns a text that is not empty. Then
    [transcribe_audio] returns a success with that text as transcript and as
    its only segment, under the resolved audio ID, with the language of the
    answer (or, if the answer names none, the language that was passed), the
    model of the service, one chunk, no failed chunk, the size of the file,
    no optimisation and no error message, after exactly one call and no
    sleep. *)
Theorem direct_run_returns_the_answer :
  forall (env : Env) (svc : TranscriptionService) (input : AudioInput)
         (lang prompt : option string) (w w0 : World) (p aid : string)
         (x : File) (d : Q) (r : Response) (t : string),
    _resolve_audio_input env svc input w = (Ok (p, aid), w0) ->
    fs w0 !! p = Some x ->
    inject_Z (st_size x) / MB <= max_file_size_mb svc ->
    fst (checked_duration env p w0) = Ok d ->
    d <= safe_duration_limit ->
    (0 <= max_retries svc)%Z ->
    audio_transcription env (api_calls w0) p (Some x) lang prompt = ApiReturn r ->
    resp_text r = Some t ->
    t <> "" ->
    transcribe_audio env svc input lang prompt w
    = (Ok {| success := true; audio_id := Some aid; full_transcript := t;
             segments := [{| start_time := 0; end_time := 0; text := t |}];
             language := match resp_language r with Some l => l | None => lang end;
             model_used := model svc; total_chunks := 1; failed_chunks := 0;
             file_size_mb := inject_Z (st_size x) / MB;
             optimization_applied := None; error_message := None |},
       called w0).
Proof.
  intros env svc input lang prompt w w0 p aid x d r t
         Hres Hp Hsize Hprobe Hd Hretries Hcall Htext Ht.
  unfold transcribe_audio, bind at 1, try_except at 1, bind at 1.
  rewrite Hres. cbv [ret]. unfold try_except, transcribe_resolved.
  unfold bind at 1, exists_, bind at 1, get_fs. cbv [ret].
  rewrite Hp. rewrite bool_decide_true by (eexists; reflexivity). cbn [negb].
  unfold bind at 1. rewrite size_mb_eq, Hp.
  unfold bind at 1, _optimize_audio_file.
  assert (Hle : Qle_bool (inject_Z (st_size x) / MB) (max_file_size_mb svc) = true)
    by (apply Qle_bool_iff; exact Hsize).
  rewrite Hle. cbv [ret].
  unfold bind at 1. rewrite size_mb_eq, Hp.
  unfold bind at 1. rewrite checked_duration_spec.
  rewrite checked_duration_spec in Hprobe. cbn [fst] in Hprobe.
  assert (Hdirect : chosen (strategy_decision svc (inject_Z (st_size x) / MB) d) = Direct).
  { unfold strategy_decision. rewrite Hle.
    assert (Hd' : Qle_bool d safe_duration_limit = true)
      by (apply Qle_bool_iff; exact Hd).
    rewrite Hd'. reflexivity. }
  destruct (fst (_get_audio_duration_efficient env p w0)) as [d'|e|];
    [ | | discriminate]; injection Hprobe as <-;
    unfold bind at 1; rewrite Hdirect;
    rewrite (direct_with_text env svc p (Some aid) lang prompt w0 x r t)
      by assumption;
    rewrite String.eqb_refl; reflexivity.
Qed.

Lemma direct_run_returns_the_answer_witness :
  transcribe_audio Scenario.healthy Scenario.default_service (InputPath "talk.mp3")
                   None None short_talk_world
  = (Ok short_talk_result, called short_talk_world).
Proof.
  apply (direct_run_returns_the_answer
           Scenario.healthy Scenario.default_service (InputPath "talk.mp3") None None
           short_talk_world short_talk_world "talk.mp3" "talk"
           (Scenario.audio "talk" 15 300) 300
           {| resp_text := Some "text 0"; resp_language := None |} "text 0").
  - reflexivity.
  - reflexivity.
  - vm_compute. discriminate.
  - reflexivity.
  - vm_compute. discriminate.
  - vm_compute. discriminate.
  - reflexivity.
  - reflexivity.
  - discriminate.
Defined.

(** * The shape of a result *)

Lemma failed_result_shape (aid : option string) (msg : string) :
  audio_id (failed_result aid msg) = aid
  /\ (success (failed_result aid msg) = true <-> segments (failed_result aid msg) <> []).
Proof.
  cbn. split; [reflexivity|]. split; intros; congruence.
Qed.

Lemma direct_shape (env : Env) (svc : TranscriptionService)
      (p : string) (aid lang prompt : option string) (w w' : World)
      (r : TranscriptionResult) :
  _transcribe_direct env svc p aid lang prompt w = (Ok (Some r), w') ->
  audio_id r = aid
  /\ (success r = true <-> segments r <> []).
Proof.
  unfold _transcribe_direct, try_except, bind. rewrite size_mb_eq. intros Hrun.
  destruct (fs w !! p) as [x|];
    [|cbv [ret] in Hrun; inversion Hrun; subst; apply failed_result_shape].
  destruct (_make_api_call_with_retry env svc p lang prompt w) as [[[resp|]|e|] w1];
    try discriminate;
    try (cbv [ret] in Hrun; inversion Hrun; subst; apply failed_result_shape).
  destruct (PyStr.truthy match resp_text resp with Some t => t | None => "" end);
    [|discriminate].
  rewrite size_mb_eq in Hrun.
  destruct (fs w1 !! p) as [y|];
    cbv [ret] in Hrun; inversion Hrun; subst;
    try apply failed_result_shape.
  cbn. split; [reflexivity|]. split; intros; congruence.
Qed.

Lemma chunked_shape (env : Env) (svc : TranscriptionService)
      (p : string) (aid lang prompt : option string) (w w' : World)
      (r : TranscriptionResult) :
  _transcribe_chunked env svc p aid lang prompt w = (Ok r, w') ->
  audio_id r = aid
  /\ (success r = true <-> segments r <> []).
Proof.
  unfold _transcribe_chunked, try_except, bind. intros Hrun.
  destruct (_get_audio_duration_efficient env p w) as [[total|e|] w1];
    [| cbv [ret] in Hrun; inversion Hrun; subst; apply failed_result_shape
     | discriminate].
  destruct (_create_intelligent_chunks_ffmpeg env svc p total effective_duration_limit w1)
    as [[chunks|e|] w2];
    [| cbv [ret] in Hrun; inversion Hrun; subst; apply failed_result_shape
     | discriminate].
  destruct (chunks_needed_for total effective_duration_limit =? 0)%Z;
    [cbv [ret raise] in Hrun; inversion Hrun; subst; apply failed_result_shape|].
  destruct (process_chunks env svc lang prompt 0%Z chunks ([], 0%Z) w2)
    as [[[segs failed]|e|] w3];
    [| cbv [ret] in Hrun; inversion Hrun; subst; apply failed_result_shape
     | discriminate].
  cbv [ret] in Hrun. inversion Hrun; subst. cbn.
  split; [reflexivity|].
  destruct segs; cbn; split; intros; congruence.
Qed.

Lemma resolved_shape (env : Env) (svc : TranscriptionService)
      (p aid : string) (lang prompt : option string) (w w' : World)
      (r : TranscriptionResult) :
  transcribe_resolved env svc p aid lang prompt w = (Ok r, w') ->
  audio_id r = Some aid
  /\ (success r = true <-> segments r <> []).
Proof.
  unfold transcribe_resolved, bind. intros Hrun.
  destruct (exists_ p w) as [[ex|e|] w0]; try discriminate.
  destruct (negb ex);
    [cbv [ret] in Hrun; inversion Hrun; subst; apply failed_result_shape|].
  destruct (size_mb p w0) as [[sz|e|] w1]; try discriminate.
  destruct (_optimize_audio_file env svc p aid sz w1) as [[[op opt]|e|] w2];
    try discriminate.
  destruct (size_mb op w2) as [[fsz|e|] w3]; try discriminate.
  destruct (checked_duration env op w3) as [[d|e|] w4]; try discriminate.
  assert (Hshape : forall r0 w5,
             match chosen (strategy_decision svc fsz d) with
             | Direct => _transcribe_direct env svc op (Some aid) lang prompt
             | Chunked =>
                 bind (_transcribe_chunked env svc op (Some aid) lang prompt)
                      (fun r => ret (Some r))
             end w4 = (Ok (Some r0), w5) ->
             audio_id r0 = Some aid
             /\ (success r0 = true <-> segments r0 <> [])).
  { intros r0 w5 H. destruct (chosen (strategy_decision svc fsz d)).
    - exact (direct_shape _ _ _ _ _ _ _ _ _ H).
    - unfold bind in H.
      destruct (_transcribe_chunked env svc op (Some aid) lang prompt w4)
        as [[r6|e|] w6] eqn:Hc; try discriminate.
      cbv [ret] in H. inversion H; subst.
      exact (chunked_shape _ _ _ _ _ _ _ _ _ Hc). }
  unfold bind in Hshape.
  destruct (match chosen (strategy_decision svc fsz d) with
            | Direct => _transcribe_direct env svc op (Some aid) lang prompt
            | Chunked =>
                fun w => let (r, w') := _transcribe_chunked env svc op (Some aid) lang prompt w in
                         match r with
                         | Ok a => ret (Some a) w'
                         | Raise e => (Raise e, w')
                         | Diverge => (Diverge, w')
                         end
            end w4) as [[[r0|]|e|] w5]; try discriminate.
  specialize (Hshape r0 w5 eq_refl).
  destruct ((if (op =? p)%string then ret tt else _cleanup_temp_file op) w5)
    as [[[]|e|] w6]; try discriminate.
  cbv [ret] in Hrun. inversion Hrun; subst. cbn. exact Hshape.
Qed.

(** X24. Every result [transcribe_audio] returns is marked successful
    exactly when it carries at least one segment, and its audio ID is the
    one under which the input was resolved, or ["unknown"] when resolving
    the input itself raised. *)
Theorem results_are_coherent :
  forall (env : Env) (svc : TranscriptionService) (input : AudioInput)
         (lang prompt : option string) (w w' : World) (r : TranscriptionResult),
    transcribe_audio env svc input lang prompt w = (Ok r, w') ->
    (success r = true <-> segments r <> [])
    /\ (forall p aid w0,
          _resolve_audio_input env svc input w = (Ok (p, aid), w0) ->
          audio_id r = Some aid)
    /\ (forall e w0,
          _resolve_audio_input env svc input w = (Raise e, w0) ->
          audio_id r = Some "unknown").
Proof.
  intros env svc input lang prompt w w' r.
  unfold transcribe_audio, bind at 1, try_except at 1, bind at 1.
  destruct (_resolve_audio_input env svc input w) as [[[p aid]|e|] w0].
  - cbv [ret]. unfold try_except. intros Hrun.
    assert (H : audio_id r = Some aid
                /\ (success r = true <-> segments r <> [])).
    { destruct (transcribe_resolved env svc p aid lang prompt w0)
        as [[r0|e|] w1] eqn:Hres.
      - inversion Hrun; subst. exact (resolved_shape _ _ _ _ _ _ _ _ _ Hres).
      - inversion Hrun; subst. apply failed_result_shape.
      - discriminate. }
    destruct H as (Hid & Hseg).
    split; [exact Hseg|]. split.
    + intros p' aid' w0' Heq. inversion Heq; subst. exact Hid.
    + intros e w0' Heq. discriminate.
  - cbv [ret]. intros Hrun. inversion Hrun; subst.
    destruct (failed_result_shape (Some "unknown") ("Transcription failed: " ++ e))
      as (Hid & Hseg).
    split; [exact Hseg|]. split.
    + intros p' aid' w0' Heq. discriminate.
    + intros e' w0' Heq. exact Hid.
  - intros Hrun. discriminate.
Qed.

Lemma results_are_coherent_witness :
  (success short_talk_result = true <-> segments short_talk_result <> [])
  /\ (forall p aid w0,
        _resolve_audio_input Scenario.healthy Scenario.default_service
                             (InputPath "talk.mp3") short_talk_world
        = (Ok (p, aid), w0) ->
        audio_id short_talk_result = Some aid)
  /\ (forall e w0,
        _resolve_audio_input Scenario.healthy Scenario.default_service
                             (InputPath "talk.mp3") short_talk_world
        = (Raise e, w0) ->
        audio_id short_talk_result = Some "unknown").
Proof.
  apply (results_are_coherent
           Scenario.healthy Scenario.default_service (InputPath "talk.mp3") None None
           short_talk_world (called short_talk_world) short_talk_result).
  vm_compute. reflexivity.
Defined.
